(** * indonesia-bods-mapping: the statement reconciler of [statements.js]

    A shallow embedding of [src/statements.js] and the properties of its
    reconciliation pass: deduplication against the identifiers seen so far,
    replacement links against the previous transaction, and the closing
    statements of ownerships that disappeared.

    Conventions of the embedding.
    - A JavaScript value read from the parsed input is a [value]. A number
      is an integral Number, given by its exact value; a string is given by
      its UTF-8 bytes.
    - An object of the parsed input is the association list of its own
      properties in enumeration order ([object]); its prototype is
      [Object.prototype]. An object that [Object.assign] filled is a
      [JS.copy]: its own properties and its prototype, which an own
      [__proto__] property of the source replaces.
    - Statement objects and the objects inside an [interests] array live in a
      store ([world]) and are handled through their locations, because the
      program pushes one object on several arrays and assigns to it
      afterwards. The other nested objects ([source], [addresses], ...) are
      never assigned to after their creation, so they are plain values.
    - [new Date()] and [uuidv4()] are oracles indexed by the number of calls
      made so far; the hash, [JSON.stringify], [String.prototype.trim] and
      [countries.getAlpha2Code] are parameters of the development. *)

From Stdlib Require Import ZArith List Bool Lia Ascii.
From stdpp Require Import base tactics option list gmap sets strings pretty.

Set Default Proof Using "Type".
Set Warnings "-register-all,-clear-no-such-hyp".

(** ** JavaScript values *)

Inductive value : Type :=
| VUndefined
| VNull
| VBool (b : bool)
| VNum (n : Z)
| VStr (s : string)
| VArr (elems : list value)
| VObj (props : list (string * value)).

Definition object := list (string * value).

(** What a run can raise: the TypeError of JavaScript, and [Unallocated] for
    a reference to no object of the store, which is an error of the embedding
    and not of the program ([statements] never raises it, see
    [statements_returns_or_raises_TypeError]). *)
Inductive error : Type :=
| TypeError (msg : string)
| Unallocated.

Inductive result (A : Type) : Type :=
| Ok (a : A)
| Throw (e : error).
Arguments Ok {A} a.
Arguments Throw {A} e.

Module JS.

(** [o[k]] on an object of the parsed input, for a [k] that is no property
    of [Object.prototype]: [undefined] when [k] is not an own property. *)
Fixpoint get (o : object) (k : string) : value :=
  match o with
  | [] => VUndefined
  | (k', v) :: o' => if String.eqb k' k then v else get o' k
  end.

(** [o.hasOwnProperty(k)] *)
Definition has_own (o : object) (k : string) : bool :=
  existsb (fun kv => String.eqb (fst kv) k) o.

(** An own data property [k] gets the value [v]: an existing property keeps
    its place, a new one goes last. *)
Fixpoint set (o : object) (k : string) (v : value) : object :=
  match o with
  | [] => [(k, v)]
  | (k', v') :: o' =>
      if String.eqb k' k then (k, v) :: o' else (k', v') :: set o' k v
  end.

(** [delete o[k]] *)
Definition delete (o : object) (k : string) : object :=
  List.filter (fun kv => negb (String.eqb (fst kv) k)) o.

(** *** Strings as sequences of UTF-16 code units *)

Definition byte_value (c : ascii) : N := N_of_ascii c.

(** A byte that continues a character of UTF-8. *)
Definition continuation (c : ascii) : bool :=
  N.leb 128 (byte_value c) && N.ltb (byte_value c) 192.

(** The characters of a string, each with the bytes that encode it. *)
Definition characters (s : string) : list (list ascii) :=
  let '(pending, found) :=
    fold_right (fun c '(pending, found) =>
                  if continuation c then (c :: pending, found)
                  else ([], (c :: pending) :: found))
               ([], []) (String.list_ascii_of_string s) in
  match pending with
  | [] => found
  | _ => pending :: found
  end.

(** The code unit [u] alone, in the three bytes UTF-8 has for a value from
    [0x0800] to [0xFFFF]. *)
Definition three_bytes (u : N) : string :=
  String (ascii_of_N (224 + u / 4096))
    (String (ascii_of_N (128 + (u / 64) mod 64))
       (String (ascii_of_N (128 + u mod 64)) EmptyString)).

(** The code units of one character: one, or the two surrogates of a
    character that UTF-8 encodes in four bytes. *)
Definition code_units (char : list ascii) : list string :=
  match char with
  | [b0; b1; b2; b3] =>
      let cp := ((byte_value b0 mod 8) * 262144 + (byte_value b1 mod 64) * 4096
                 + (byte_value b2 mod 64) * 64 + byte_value b3 mod 64 - 65536)%N in
      [three_bytes (55296 + cp / 1024); three_bytes (56320 + cp mod 1024)]
  | _ => [String.string_of_list_ascii char]
  end.

(** The own enumerable properties of a string: one for each code unit. *)
Definition char_props (s : string) : object :=
  imap (fun i u => (pretty i, VStr u)) (List.concat (List.map code_units (characters s))).

Definition index_props (l : list value) : object :=
  imap (fun i v => (pretty i, v)) l.

(** The own enumerable properties [Object.assign] copies from a source;
    [null], [undefined], a number and a boolean have none. *)
Definition own_props (src : value) : object :=
  match src with
  | VObj o => o
  | VStr s => char_props s
  | VArr l => index_props l
  | _ => []
  end.

(** *** Objects the program makes and copies into *)

Inductive prototype : Type :=
| Object_prototype
| Null_prototype
| Object_of (props : object)
| Array_of (elems : list value).

(** An ordinary object with its prototype; the prototype is an object or an
    array of the parsed input once [__proto__] has been assigned to. *)
Record copy : Type := Copy {
  own : object;
  proto : prototype
}.

(** [{}] *)
Definition empty_object : copy := {| own := []; proto := Object_prototype |}.

(** [c.__proto__ = v] finds the accessor of [Object.prototype]: [c] has no
    own property of that name, and the chain to [Object.prototype] is there
    and has no such data property on the way. *)
Definition reaches_proto_setter (c : copy) : bool :=
  negb (has_own (own c) "__proto__")
  && match proto c with
     | Object_prototype => true
     | Null_prototype => false
     | Object_of p => negb (has_own p "__proto__")
     | Array_of _ => true
     end.

(** [c[k] = v]. Every property that is found on the way is a writable data
    property, so the assignment makes or updates an own property of [c];
    the exception is the accessor [__proto__] of [Object.prototype], whose
    setter makes an object, an array or [null] the prototype of [c] and
    does nothing with another value. *)
Definition put (c : copy) (k : string) (v : value) : copy :=
  if String.eqb k "__proto__" && reaches_proto_setter c
  then match v with
       | VObj p => {| own := own c; proto := Object_of p |}
       | VArr l => {| own := own c; proto := Array_of l |}
       | VNull => {| own := own c; proto := Null_prototype |}
       | _ => c
       end
  else {| own := set (own c) k v; proto := proto c |}.

(** [Object.assign(target, src)] *)
Definition assign (target : copy) (src : value) : copy :=
  fold_left (fun c kv => put c (fst kv) (snd kv)) (own_props src) target.

(** [delete c[k]] *)
Definition delete_own (c : copy) (k : string) : copy :=
  {| own := delete (own c) k; proto := proto c |}.

(** [c[k]], for a [k] that is no property of [Object.prototype] and of
    [Array.prototype]: the own property, or else the one of the
    prototype. *)
Definition read (c : copy) (k : string) : value :=
  if has_own (own c) k then get (own c) k
  else match proto c with
       | Object_of p => get p k
       | Array_of l =>
           if String.eqb k "length" then VNum (Z.of_nat (length l))
           else get (index_props l) k
       | Object_prototype | Null_prototype => VUndefined
       end.

(** ToBoolean *)
Definition truthy (v : value) : bool :=
  match v with
  | VUndefined | VNull => false
  | VBool b => b
  | VNum n => negb (Z.eqb n 0)
  | VStr s => negb (String.eqb s EmptyString)
  | VArr _ | VObj _ => true
  end.

Fixpoint join (sep : string) (l : list string) : string :=
  match l with
  | [] => EmptyString
  | [s] => s
  | s :: l' => s +:+ sep +:+ join sep l'
  end.

(** *** Number::toString *)

(** The Number nearest to the integer [v], for [0 <= v]: the integers below
    [2^53] are Numbers, and a Number from [2^p] to [2^(p+1)] is a multiple
    of [2^(p-52)]; of two Numbers equally near the one with the even
    multiplier is taken. *)
Definition nearest_Number (v : Z) : Z :=
  let p := Z.log2 v in
  if Z.ltb p 53 then v
  else
    let u := Z.pow 2 (p - 52)%Z in
    let q := Z.div v u in
    let r := Z.modulo v u in
    if Z.ltb (2 * r) u then (q * u)%Z
    else if Z.ltb u (2 * r) then ((q + 1) * u)%Z
    else if Z.even q then (q * u)%Z else ((q + 1) * u)%Z.

(** The value [s * 10^(n-k)] that Number::toString prints for the integral
    Number [x > 0]: [k] is as small as possible for a value whose nearest
    Number is [x], and of the two values with [k] digits around [x] the
    closer one is taken, or the one with [s] even. *)
Definition shortest (x : Z) : Z :=
  let digits := Z.of_nat (String.length (pretty x)) in
  (fix search (ks : list nat) : Z :=
     match ks with
     | [] => x
     | k :: ks' =>
         let t := Z.pow 10 (digits - Z.of_nat k)%Z in
         let below := (Z.div x t * t)%Z in
         let above := (below + t)%Z in
         let ok_below := Z.eqb (nearest_Number below) x in
         let ok_above := Z.eqb (nearest_Number above) x in
         if ok_below && ok_above then
           if Z.ltb (x - below) (above - x)%Z then below
           else if Z.ltb (above - x) (x - below)%Z then above
           else if Z.even (Z.div x t) then below else above
         else if ok_below then below
         else if ok_above then above
         else search ks'
     end) (seq 1 (String.length (pretty x))).

Fixpoint drop_zeros (s : string) : string :=
  match s with
  | String c s' => if Ascii.eqb c "0"%char then drop_zeros s' else s
  | EmptyString => EmptyString
  end.

(** The digits without the zeros at the end. *)
Definition significant (digits : string) : string :=
  String.rev (drop_zeros (String.rev digits)).

(** Number::toString on an integral Number: the decimal digits up to 21 of
    them, and from there on one digit, the other significant digits after a
    point, and the exponent. *)
Definition number_to_string (x : Z) : string :=
  if Z.eqb x 0 then "0"
  else
    let digits := pretty (shortest (Z.abs x)) in
    let n := String.length digits in
    let printed :=
      if Nat.leb n 21 then digits
      else match significant digits with
           | String d EmptyString => String d ("e+" +:+ pretty (n - 1))
           | String d more => String d ("." +:+ more +:+ "e+" +:+ pretty (n - 1))
           | EmptyString => EmptyString
           end in
    if Z.ltb x 0 then "-" +:+ printed else printed.

(** *** ToString *)

(** ToString, as a template literal applies it. An object of the parsed
    input with an own [toString] has nothing callable there, and the
    [valueOf] it has or inherits gives no primitive value, so the conversion
    raises; without it [Object.prototype.toString] answers. An array is
    joined with commas, its elements as [Array.prototype.join] takes
    them. *)
Fixpoint to_string (v : value) : result string :=
  match v with
  | VUndefined => Ok "undefined"
  | VNull => Ok "null"
  | VBool true => Ok "true"
  | VBool false => Ok "false"
  | VNum n => Ok (number_to_string n)
  | VStr s => Ok s
  | VArr l =>
      match (fix elements (l : list value) : result (list string) :=
               match l with
               | [] => Ok []
               | e :: l' =>
                   match (match e with
                          | VUndefined | VNull => Ok EmptyString
                          | _ => to_string e
                          end) with
                   | Throw err => Throw err
                   | Ok s =>
                       match elements l' with
                       | Throw err => Throw err
                       | Ok ss => Ok (s :: ss)
                       end
                   end
               end) l with
      | Throw err => Throw err
      | Ok ss => Ok (join "," ss)
      end
  | VObj o =>
      if has_own o "toString"
      then Throw (TypeError "Cannot convert object to primitive value")
      else Ok "[object Object]"
  end.

(** The string [Array.prototype.join] takes for an element: the empty one
    for [undefined] and [null]. *)
Definition element_string (e : value) : result string :=
  match e with
  | VUndefined | VNull => Ok EmptyString
  | _ => to_string e
  end.

Fixpoint element_strings (l : list value) : result (list string) :=
  match l with
  | [] => Ok []
  | e :: l' =>
      match element_string e with
      | Throw err => Throw err
      | Ok s =>
          match element_strings l' with
          | Throw err => Throw err
          | Ok ss => Ok (s :: ss)
          end
      end
  end.

(** [l.join(sep)] *)
Definition join_values (sep : string) (l : list value) : result string :=
  match element_strings l with
  | Throw err => Throw err
  | Ok ss => Ok (join sep ss)
  end.

(** [a === b]. Arrays and objects compare by reference; every [===] on
    field values in [statements.js] has its operands read from two
    different transactions of the parsed input, hence from two different
    objects, so it is [false] on them. *)
Definition strict_eq (a b : value) : bool :=
  match a, b with
  | VUndefined, VUndefined => true
  | VNull, VNull => true
  | VBool x, VBool y => Bool.eqb x y
  | VNum x, VNum y => Z.eqb x y
  | VStr x, VStr y => String.eqb x y
  | _, _ => false
  end.


(** [s.split('T')[0]] *)
Fixpoint before_T (s : string) : string :=
  match s with
  | EmptyString => EmptyString
  | String c s' => if Ascii.eqb c "T"%char then EmptyString else String c (before_T s')
  end.

End JS.

(** ** Statement objects *)

(** Locations in the store. *)
Abbreviation loc := nat.

Inductive statementType : Type :=
| EntityStatement
| PersonStatement
| OwnershipOrControlStatement.

Definition statementType_eqb (a b : statementType) : bool :=
  match a, b with
  | EntityStatement, EntityStatement => true
  | PersonStatement, PersonStatement => true
  | OwnershipOrControlStatement, OwnershipOrControlStatement => true
  | _, _ => false
  end.

Record identifier : Type := Identifier {
  scheme : string;
  schemeName : value;
  ident_id : value
}.

Record address : Type := Address {
  address_type : string;
  address_address : value;
  address_country : value
}.

Record source_info : Type := SourceInfo {
  source_type : list string;
  retrievedAt : string;
  url : string;
  assertedBy : list value
}.

Record publication : Type := Publication {
  publicationDate : string;
  bodsVersion : string;
  publisher_name : string
}.

(** An element of an [interests] array; [endDate] is absent until a closing
    statement assigns it. *)
Record interest : Type := Interest {
  interest_type : string;
  details : value;
  interestLevel : string;
  beneficialOwnershipOrControl : bool;
  endDate : option string
}.

Record entity_fields : Type := EntityFields {
  entityType : string;
  name : value;
  incorporatedInJurisdiction : string * string;
  entity_identifiers : list identifier;
  entity_addresses : list address
}.

Record person_fields : Type := PersonFields {
  personType : string;
  names : list (string * value);
  birthDate : value;
  placeOfBirth : string * value;
  nationalities : list (value * value);
  person_identifiers : list identifier;
  person_addresses : list address
}.

(** [subject] and [interestedParty] hold the statementID they point to;
    [interests] holds the locations of its elements. *)
Record ownership_fields : Type := OwnershipFields {
  subject : string;
  interestedParty : string;
  interests : list loc
}.

(** The properties that come with the [statementType] of a statement. The
    three object literals of [statements.js] set the tag together with these
    properties and nothing assigns to them later, so the tag is read off
    the shape ([st_statementType]). *)
Inductive shape : Type :=
| Entity (e : entity_fields)
| Person (p : person_fields)
| Ownership (o : ownership_fields).

(** [replacesStatements] is [None] while the property is absent. *)
Record statement : Type := Statement {
  st_statementID : string;
  st_isComponent : bool;
  st_shape : shape;
  st_source : source_info;
  st_publicationDetails : publication;
  st_replacesStatements : option (list string)
}.

Definition st_statementType (s : statement) : statementType :=
  match st_shape s with
  | Entity _ => EntityStatement
  | Person _ => PersonStatement
  | Ownership _ => OwnershipOrControlStatement
  end.

(** [s.identifiers]; an ownership statement has no such property. *)
Definition st_identifiers (s : statement) : option (list identifier) :=
  match st_shape s with
  | Entity e => Some (entity_identifiers e)
  | Person p => Some (person_identifiers p)
  | Ownership _ => None
  end.

Definition set_statementID (i : string) (s : statement) : statement :=
  {| st_statementID := i;
     st_isComponent := st_isComponent s;
     st_shape := st_shape s;
     st_source := st_source s;
     st_publicationDetails := st_publicationDetails s;
     st_replacesStatements := st_replacesStatements s |}.

Definition set_replacesStatements (r : list string) (s : statement) : statement :=
  {| st_statementID := st_statementID s;
     st_isComponent := st_isComponent s;
     st_shape := st_shape s;
     st_source := st_source s;
     st_publicationDetails := st_publicationDetails s;
     st_replacesStatements := Some r |}.

Definition set_endDate (d : string) (i : interest) : interest :=
  {| interest_type := interest_type i;
     details := details i;
     interestLevel := interestLevel i;
     beneficialOwnershipOrControl := beneficialOwnershipOrControl i;
     endDate := Some d |}.

(** ** The store and the monad of the program *)

(** The store: the statement objects and the interest objects made so far,
    in the order of their creation (a location is an index), and the number
    of calls made so far to the clock and to [uuidv4]. *)
Record world : Type := World {
  statement_objects : list statement;
  interest_objects : list interest;
  date_calls : nat;
  uuid_calls : nat
}.

Definition M (A : Type) : Type := world -> result (A * world).

Definition ret {A} (a : A) : M A := fun w => Ok (a, w).

Definition bind {A B} (m : M A) (k : A -> M B) : M B :=
  fun w => match m w with
           | Ok (a, w') => k a w'
           | Throw e => Throw e
           end.

Definition throw {A} (e : error) : M A := fun _ => Throw e.

Notation "'let*' x ':=' m 'in' k" := (bind m (fun x => k))
  (at level 10, x pattern, m at level 100, k at level 200).

Definition lift {A} (r : result A) : M A :=
  fun w => match r with Ok a => Ok (a, w) | Throw e => Throw e end.

(** A new statement object. *)
Definition new_statement (s : statement) : M loc :=
  fun w => Ok (length (statement_objects w),
               {| statement_objects := statement_objects w ++ [s];
                  interest_objects := interest_objects w;
                  date_calls := date_calls w;
                  uuid_calls := uuid_calls w |}).

Definition new_interest (i : interest) : M loc :=
  fun w => Ok (length (interest_objects w),
               {| statement_objects := statement_objects w;
                  interest_objects := interest_objects w ++ [i];
                  date_calls := date_calls w;
                  uuid_calls := uuid_calls w |}).

Definition load (l : loc) : M statement :=
  fun w => match statement_objects w !! l with
           | Some s => Ok (s, w)
           | None => Throw Unallocated
           end.

(** Assignment to properties of the statement object at [l]. *)
Definition update (l : loc) (f : statement -> statement) : M unit :=
  fun w => match statement_objects w !! l with
           | Some s => Ok (tt, {| statement_objects := <[l := f s]> (statement_objects w);
                                  interest_objects := interest_objects w;
                                  date_calls := date_calls w;
                                  uuid_calls := uuid_calls w |})
           | None => Throw Unallocated
           end.

Definition update_interest (l : loc) (f : interest -> interest) : M unit :=
  fun w => match interest_objects w !! l with
           | Some i => Ok (tt, {| statement_objects := statement_objects w;
                                  interest_objects := <[l := f i]> (interest_objects w);
                                  date_calls := date_calls w;
                                  uuid_calls := uuid_calls w |})
           | None => Throw Unallocated
           end.

(** The objects an array of references points to, as they are now. *)
Fixpoint load_all (ls : list loc) : M (list statement) :=
  match ls with
  | [] => ret []
  | l :: ls' => let* s := load l in let* ss := load_all ls' in ret (s :: ss)
  end.

(** [xs.forEach(f)], with the variables [f] assigns to as the state [S]. *)
Fixpoint forEach {A S} (f : S -> A -> M S) (xs : list A) (s : S) : M S :=
  match xs with
  | [] => ret s
  | x :: xs' => let* s' := f s x in forEach f xs' s'
  end.

(** ** Matching on identifiers *)

(** [oldId.scheme === id.scheme && oldId.id === id.id] *)
Definition same_identifier (oldId i : identifier) : bool :=
  String.eqb (scheme oldId) (scheme i) && JS.strict_eq (ident_id oldId) (ident_id i).

(** [matchingIdentifiers(newStatement, oldStatement)]; [oldStatement] is
    [None] when [find] gave [undefined]. [some] calls its function on the
    first element only when there is one, and that call reads
    [oldStatement.identifiers.some]. *)
Definition matchingIdentifiers (newStatement : statement) (oldStatement : option statement)
  : result bool :=
  match st_identifiers newStatement with
  | None => Throw (TypeError "newStatement.identifiers is undefined")
  | Some [] => Ok false
  | Some (i :: ids) =>
      match oldStatement with
      | None => Throw (TypeError "oldStatement is undefined")
      | Some old =>
          match st_identifiers old with
          | None => Throw (TypeError "oldStatement.identifiers is undefined")
          | Some oldIds =>
              Ok (existsb (fun i' => existsb (fun oldId => same_identifier oldId i') oldIds)
                          (i :: ids))
          end
      end
  end.

(** [xs.filter(p)] with a predicate that may throw. *)
Fixpoint filter_result {A} (p : A -> result bool) (xs : list A) : result (list A) :=
  match xs with
  | [] => Ok []
  | x :: xs' =>
      match p x with
      | Throw e => Throw e
      | Ok b =>
          match filter_result p xs' with
          | Throw e => Throw e
          | Ok ys => Ok (if b then x :: ys else ys)
          end
      end
  end.

Definition map_result {A B} (f : A -> B) (r : result A) : result B :=
  match r with Ok a => Ok (f a) | Throw e => Throw e end.

(** [replacedStatements(newStatement, oldStatements)] *)
Definition replacedStatements (newStatement : statement) (oldStatements : list statement)
  : result (list string) :=
  map_result (List.map st_statementID)
    (filter_result
       (fun oldStatement =>
          if statementType_eqb (st_statementType oldStatement) (st_statementType newStatement)
          then matchingIdentifiers newStatement (Some oldStatement)
          else Ok false)
       oldStatements).

(** [oldStatements.find(sp => sp.statementID === i)] *)
Definition find_statement (i : string) (oldStatements : list statement) : option statement :=
  List.find (fun sp => String.eqb (st_statementID sp) i) oldStatements.

(** [replacedOwnershipStatements(newStatement, newInterestedParty, newSubject,
    oldStatements)] *)
Definition replacedOwnershipStatements
    (newStatement newInterestedParty newSubject : statement)
    (oldStatements : list statement) : result (list string) :=
  map_result (List.map st_statementID)
    (filter_result
       (fun s =>
          if statementType_eqb (st_statementType s) (st_statementType newStatement)
          then
            match st_shape s with
            | Ownership o =>
                let oldInterestedParty := find_statement (interestedParty o) oldStatements in
                let oldSubject := find_statement (subject o) oldStatements in
                match matchingIdentifiers newInterestedParty oldInterestedParty with
                | Throw e => Throw e
                | Ok false => Ok false
                | Ok true => matchingIdentifiers newSubject oldSubject
                end
            | _ => Throw (TypeError "s.interestedParty is undefined")
            end
          else Ok false)
       oldStatements).

(** ** The program *)

(** The libraries the program calls. [toISOString n] is what the [n]-th
    evaluation of [new Date().toISOString()] returns and [uuidv4 n] what the
    [n]-th call of [uuidv4()] returns. *)
Class Libraries : Type := {
  XXHash_hash : string -> Z -> Z;
  JSON_stringify : value -> string;
  String_trim : string -> string;
  getAlpha2Code : string -> string -> value;
  toISOString : nat -> string;
  uuidv4 : nat -> string
}.

Section Program.

Context `{Libraries}.

Definition new_Date_toISOString : M string :=
  fun w => Ok (toISOString (date_calls w),
               {| statement_objects := statement_objects w;
                  interest_objects := interest_objects w;
                  date_calls := S (date_calls w);
                  uuid_calls := uuid_calls w |}).

Definition call_uuidv4 : M string :=
  fun w => Ok (uuidv4 (uuid_calls w),
               {| statement_objects := statement_objects w;
                  interest_objects := interest_objects w;
                  date_calls := date_calls w;
                  uuid_calls := S (uuid_calls w) |}).

Definition statementID (data : value) : string :=
  "openownership-indonesia-" +:+ pretty (XXHash_hash (JSON_stringify data) 3405691582).

Definition publicationDetails : M publication :=
  let* now := new_Date_toISOString in
  ret {| publicationDate := JS.before_T now;
         bodsVersion := "0.2";
         publisher_name := "Indonesia Ministry for Law and Human Rights" |}.

Definition source (data : JS.copy) : M source_info :=
  let korporasi := JS.strict_eq (JS.read data "jenis_pelapor") (VStr "KORPORASI") in
  let* now := new_Date_toISOString in
  ret {| source_type := [if korporasi then "thirdParty" else "selfDeclaration"];
         retrievedAt := now;
         url := "https://bo.ahu.go.id/service/getReportBo";
         assertedBy := [if korporasi then JS.read data "nama_pelapor"
                        else JS.read data "nama_pic"] |}.

(** [[...].filter((obj) => obj).join(", ")] *)
Definition join_present (vs : list value) : result string :=
  JS.join_values ", " (List.filter JS.truthy vs).

Definition mapAddress (data : JS.copy) (foreign : bool) (country_code : value)
  : result address :=
  if foreign then
    map_result
      (fun joined =>
         {| address_type := "residence";
            address_address := VStr joined;
            address_country :=
              if JS.truthy country_code then country_code else VStr EmptyString |})
      (join_present [JS.read data "alamat"; JS.read data "negara"])
  else
    map_result
      (fun joined =>
         {| address_type := "residence";
            address_address := VStr joined;
            address_country := VStr "ID" |})
      (join_present [JS.read data "alamat"; JS.read data "rt"; JS.read data "rw";
                     JS.read data "kelurahan"; JS.read data "kecamatan";
                     JS.read data "kabupaten"; JS.read data "provinisi";
                     VStr "Indonesia"]).

Definition companyIdentifier (data : object) : identifier :=
  {| scheme := "ID-KHH";
     schemeName := VStr "Ministry of Justice & Human Rights";
     ident_id := JS.get data "nama_korporasi" |}.

Definition mapCompanyStatement (data : object) (companyLocation : value)
    (sourceData : JS.copy) : M loc :=
  let sid := statementID (VArr [VObj data; companyLocation]) in
  let* src := source sourceData in
  let* pub := publicationDetails in
  new_statement
    {| st_statementID := sid;
       st_isComponent := false;
       st_shape := Entity
         {| entityType := "registeredEntity";
            name := JS.get data "nama_korporasi";
            incorporatedInJurisdiction := ("Indonesia", "ID");
            entity_identifiers := [companyIdentifier data];
            entity_addresses :=
              [{| address_type := "registered";
                  address_address := companyLocation;
                  address_country := VStr "ID" |}] |};
       st_source := src;
       st_publicationDetails := pub;
       st_replacesStatements := None |}.

(** [data['negara'].trim()]: only a string has a [trim] to call. *)
Definition negara_trim (data : JS.copy) : result string :=
  match JS.read data "negara" with
  | VStr s => Ok (String_trim s)
  | _ => Throw (TypeError "data.negara.trim is not a function")
  end.

(** The object literal evaluates its properties in order: the template
    literal of the second identifier and then [mapAddress] convert field
    values to strings, and either can raise. *)
Definition mapPersonStatement (data : JS.copy) (sourceData : JS.copy) : M loc :=
  let wna := JS.strict_eq (JS.read data "kewarganegaraan") (VStr "WNA") in
  let* country_code :=
    if wna
    then let* n := lift (negara_trim data) in ret (getAlpha2Code n "en")
    else ret (VStr "ID") in
  let sid := statementID (VArr [VObj (JS.own data); VObj (JS.own sourceData)]) in
  let* jenis_identitas := lift (JS.to_string (JS.read data "jenis_identitas")) in
  let* addr := lift (mapAddress data wna country_code) in
  let* src := source sourceData in
  let* pub := publicationDetails in
  new_statement
    {| st_statementID := sid;
       st_isComponent := false;
       st_shape := Person
         {| personType := "knownPerson";
            names := [("individual", JS.read data "nama_lengkap")];
            birthDate := JS.read data "tanggal_lahir";
            placeOfBirth := ("placeOfBirth", JS.read data "tempat_lahir");
            nationalities :=
              [(if JS.strict_eq (JS.read data "kewarganegaraan") (VStr "WNI")
                then VStr "Indonesia" else JS.read data "negara",
                country_code)];
            person_identifiers :=
              [{| scheme := "ID-DJP";
                  schemeName := VStr "Director General of Taxes";
                  ident_id := JS.read data "npwp" |};
               {| scheme := "MISC-ID-" +:+ jenis_identitas;
                  schemeName := JS.read data "jenis_identitas";
                  ident_id := JS.read data "nomor_identitas" |}];
            person_addresses := [addr] |};
       st_source := src;
       st_publicationDetails := pub;
       st_replacesStatements := None |}.

(** [data['hubungan_bo']] on an element of [data_bo]: the element is any
    parsed value, and only [null] and [undefined] have no properties to
    read; a string, a number, a boolean or an array has none of that name. *)
Definition hubungan_bo (data : value) : result value :=
  match data with
  | VObj o => Ok (JS.get o "hubungan_bo")
  | VUndefined | VNull => Throw (TypeError "cannot read properties of null")
  | _ => Ok VUndefined
  end.

Definition mapOwnershipOrControlStatement (companyStatement personStatement : loc)
    (data : value) (sourceData : JS.copy) : M loc :=
  let* c := load companyStatement in
  let* p := load personStatement in
  let sid := statementID (VArr [VStr (st_statementID c); VStr (st_statementID p);
                                data; VObj (JS.own sourceData)]) in
  let* d := lift (hubungan_bo data) in
  let* i := new_interest {| interest_type := "other-influence-or-control";
                            details := d;
                            interestLevel := "direct";
                            beneficialOwnershipOrControl := true;
                            endDate := None |} in
  let* src := source sourceData in
  let* pub := publicationDetails in
  new_statement
    {| st_statementID := sid;
       st_isComponent := false;
       st_shape := Ownership
         {| subject := st_statementID c;
            interestedParty := st_statementID p;
            interests := [i] |};
       st_source := src;
       st_publicationDetails := pub;
       st_replacesStatements := None |}.

(** *** [statements] *)

(** The variables the body of the [flatMap] callback assigns to. *)
Record locals : Type := Locals {
  seenStatementIds : gset string;
  transactionStatements : list loc;
  newStatements : list loc
}.

(** The block the callback repeats for the company, the person and the
    ownership statement:
    [transactionStatements.push(x);
     if (!seenStatementIds.has(x.statementID)) {
       seenStatementIds.add(x.statementID);
       x.replacesStatements = replaced(x, prevTransactionStatements);
       newStatements.push(x) }] *)
Definition push_candidate (prevTransactionStatements : list loc)
    (replaced : statement -> list statement -> result (list string))
    (x : loc) (st : locals) : M locals :=
  let* s := load x in
  let txs := transactionStatements st ++ [x] in
  if bool_decide (st_statementID s ∈ seenStatementIds st)
  then ret {| seenStatementIds := seenStatementIds st;
              transactionStatements := txs;
              newStatements := newStatements st |}
  else
    let* olds := load_all prevTransactionStatements in
    let* r := lift (replaced s olds) in
    let* _ := update x (set_replacesStatements r) in
    ret {| seenStatementIds := {[st_statementID s]} ∪ seenStatementIds st;
           transactionStatements := txs;
           newStatements := newStatements st ++ [x] |}.

(** The function given to [transaction['data_bo'].forEach]. *)
Definition owner_step (prevTransactionStatements : list loc) (companyStatement : loc)
    (sourceData : JS.copy) (st : locals) (bo_datum : value) : M locals :=
  let personData := JS.delete_own (JS.assign JS.empty_object bo_datum) "hubungan_bo" in
  let* personStatement := mapPersonStatement personData sourceData in
  let* st := push_candidate prevTransactionStatements replacedStatements
               personStatement st in
  let* ownershipOrControlStatement :=
    mapOwnershipOrControlStatement companyStatement personStatement bo_datum sourceData in
  let* p := load personStatement in
  let* c := load companyStatement in
  push_candidate prevTransactionStatements
    (fun s olds => replacedOwnershipStatements s p c olds)
    ownershipOrControlStatement st.

(** [s.replacesStatements && s.replacesStatements.includes(i)] *)
Definition replaces (i : string) (s : statement) : bool :=
  match st_replacesStatements s with
  | Some r => existsb (String.eqb i) r
  | None => false
  end.

(** The function given to [forEach] in the closure pass; it assigns to
    [newStatements] only. *)
Definition close_if_ended (transactionStatements : list loc)
    (newStatements : list loc) (ps : loc) : M (list loc) :=
  let* p := load ps in
  let* ts := load_all transactionStatements in
  if existsb (fun s => String.eqb (st_statementID s) (st_statementID p)) ts
     || existsb (replaces (st_statementID p)) ts
  then ret newStatements
  else
    let* endingStatement := new_statement p in
    let* u := call_uuidv4 in
    let* _ := update endingStatement (set_statementID u) in
    let* e := load endingStatement in
    let* _ :=
      match st_shape e with
      | Ownership o =>
          match interests o with
          | i :: _ =>
              let* now := new_Date_toISOString in
              update_interest i (set_endDate (JS.before_T now))
          | [] => throw (TypeError "endingStatement.interests[0] is undefined")
          end
      | _ => throw (TypeError "endingStatement.interests is undefined")
      end in
    let* _ := update endingStatement (set_replacesStatements [st_statementID p]) in
    ret (newStatements ++ [endingStatement]).

(** [xs.filter(ps => ps.statementType === 'ownershipOrControlStatement')] *)
Fixpoint ownerships (xs : list loc) : M (list loc) :=
  match xs with
  | [] => ret []
  | x :: xs' =>
      let* s := load x in
      let* ys := ownerships xs' in
      ret (if statementType_eqb (st_statementType s) OwnershipOrControlStatement
           then x :: ys else ys)
  end.

(** What one call of the [flatMap] callback leaves behind. *)
Record step : Type := Step {
  step_seen : gset string;
  step_transactionStatements : list loc;
  step_newStatements : list loc
}.

(** The body of the [flatMap] callback. A [transaction] that is not an
    object, or whose [data_bo] is not an array, ends in a TypeError at
    [transaction['nama_korporasi']] or at [.forEach]. *)
Definition transaction_step (companyLocation : value) (seen : gset string)
    (prevTransactionStatements : list loc) (transaction : value) : M step :=
  match transaction with
  | VObj t =>
      let sourceData :=
        JS.delete_own
          (JS.delete_own (JS.delete_own (JS.assign JS.empty_object transaction) "data_bo")
                         "nama_korporasi") "jenis_transaksi" in
      let companyData := [("nama_korporasi", JS.get t "nama_korporasi")] in
      let* companyStatement := mapCompanyStatement companyData companyLocation sourceData in
      let* st := push_candidate prevTransactionStatements replacedStatements
                   companyStatement
                   {| seenStatementIds := seen;
                      transactionStatements := [];
                      newStatements := [] |} in
      match JS.get t "data_bo" with
      | VArr data_bo =>
          let* st := forEach (owner_step prevTransactionStatements companyStatement
                                         sourceData) data_bo st in
          let* ended := ownerships prevTransactionStatements in
          let* news := forEach (close_if_ended (transactionStatements st))
                               ended (newStatements st) in
          ret {| step_seen := seenStatementIds st;
                 step_transactionStatements := transactionStatements st;
                 step_newStatements := news |}
      | _ => throw (TypeError "transaction.data_bo.forEach is not a function")
      end
  | _ => throw (TypeError "transaction is not an object")
  end.

(** [data_transaksi.flatMap(...)] with the two variables it closes over. *)
Fixpoint flatMap_transactions (companyLocation : value) (seen : gset string)
    (prevTransactionStatements : list loc) (data_transaksi : list value)
  : M (list loc) :=
  match data_transaksi with
  | [] => ret []
  | transaction :: rest =>
      let* r := transaction_step companyLocation seen prevTransactionStatements
                                 transaction in
      let* out := flatMap_transactions companyLocation (step_seen r)
                    (step_transactionStatements r) rest in
      ret (step_newStatements r ++ out)
  end.

(** [data['data']] must be an object for [data['data']['kedudukan']] and
    [data['data']['data_transaksi'].flatMap] to evaluate. *)
Definition statements (data : value) : M (list loc) :=
  match data with
  | VObj d =>
      match JS.get d "data" with
      | VObj dd =>
          let companyLocation := JS.get dd "kedudukan" in
          match JS.get dd "data_transaksi" with
          | VArr data_transaksi =>
              flatMap_transactions companyLocation ∅ [] data_transaksi
          | _ => throw (TypeError "data.data.data_transaksi.flatMap is not a function")
          end
      | _ => throw (TypeError "data.data has no data_transaksi array")
      end
  | _ => throw (TypeError "data.data is undefined")
  end.

(** The same run, keeping what each call of the callback left behind. *)
Fixpoint trace_transactions (companyLocation : value) (seen : gset string)
    (prevTransactionStatements : list loc) (data_transaksi : list value)
  : M (list step) :=
  match data_transaksi with
  | [] => ret []
  | transaction :: rest =>
      let* r := transaction_step companyLocation seen prevTransactionStatements
                                 transaction in
      let* tr := trace_transactions companyLocation (step_seen r)
                   (step_transactionStatements r) rest in
      ret (r :: tr)
  end.

End Program.

Arguments seenStatementIds : clear implicits.
Arguments transactionStatements : clear implicits.
Arguments newStatements : clear implicits.

(** ** Reference instances of the libraries

    Concrete functions for the parameters of [Program], used to run the
    program on concrete registry data: the XXH32 hash the [xxhash] package
    binds, a printer that follows [JSON.stringify] on values made of strings
    and integers, and fixed oracles for the clock and for [uuidv4]. *)

Module Reference.

Definition mask32 (x : Z) : Z := Z.land x 4294967295.
Definition add32 (x y : Z) : Z := mask32 (x + y).
Definition mul32 (x y : Z) : Z := mask32 (x * y).
Definition rotl32 (x : Z) (r : Z) : Z :=
  mask32 (Z.lor (Z.shiftl x r) (Z.shiftr x (32 - r))).

Definition PRIME32_1 : Z := 2654435761.
Definition PRIME32_2 : Z := 2246822519.
Definition PRIME32_3 : Z := 3266489917.
Definition PRIME32_4 : Z := 668265263.
Definition PRIME32_5 : Z := 374761393.

Definition read32le (b0 b1 b2 b3 : Z) : Z :=
  Z.lor b0 (Z.lor (Z.shiftl b1 8) (Z.lor (Z.shiftl b2 16) (Z.shiftl b3 24))).

Definition xxh_round (acc lane : Z) : Z :=
  mul32 (rotl32 (add32 acc (mul32 lane PRIME32_2)) 13) PRIME32_1.

(** The 16-byte stripes; returns the accumulators and the unread tail. *)
Fixpoint stripes (v1 v2 v3 v4 : Z) (bs : list Z) : Z * Z * Z * Z * list Z :=
  match bs with
  | a0 :: a1 :: a2 :: a3 :: b0 :: b1 :: b2 :: b3 ::
    c0 :: c1 :: c2 :: c3 :: d0 :: d1 :: d2 :: d3 :: rest =>
      stripes (xxh_round v1 (read32le a0 a1 a2 a3))
              (xxh_round v2 (read32le b0 b1 b2 b3))
              (xxh_round v3 (read32le c0 c1 c2 c3))
              (xxh_round v4 (read32le d0 d1 d2 d3)) rest
  | _ => (v1, v2, v3, v4, bs)
  end.

Fixpoint finalize_bytes (h : Z) (bs : list Z) : Z :=
  match bs with
  | b :: rest =>
      finalize_bytes (mul32 (rotl32 (add32 h (mul32 b PRIME32_5)) 11) PRIME32_1) rest
  | [] => h
  end.

Fixpoint finalize (h : Z) (bs : list Z) : Z :=
  match bs with
  | b0 :: b1 :: b2 :: b3 :: rest =>
      finalize (mul32 (rotl32 (add32 h (mul32 (read32le b0 b1 b2 b3) PRIME32_3)) 17)
                      PRIME32_4) rest
  | _ => finalize_bytes h bs
  end.

Definition avalanche (h : Z) : Z :=
  let h := Z.lxor h (Z.shiftr h 15) in
  let h := mul32 h PRIME32_2 in
  let h := Z.lxor h (Z.shiftr h 13) in
  let h := mul32 h PRIME32_3 in
  Z.lxor h (Z.shiftr h 16).

Definition bytes_of (s : string) : list Z :=
  List.map (fun c => Z.of_N (N_of_ascii c)) (String.list_ascii_of_string s).

(** XXH32 of the bytes of [s] with seed [seed]. *)
Definition xxh32 (s : string) (seed : Z) : Z :=
  let bs := bytes_of s in
  let len := Z.of_nat (length bs) in
  let '(h, tail) :=
    if Z.leb 16 len then
      let '(v1, v2, v3, v4, tail) :=
        stripes (add32 (add32 seed PRIME32_1) PRIME32_2) (add32 seed PRIME32_2)
                (mask32 seed) (mask32 (seed - PRIME32_1)) bs in
      (add32 (add32 (rotl32 v1 1) (rotl32 v2 7)) (add32 (rotl32 v3 12) (rotl32 v4 18)),
       tail)
    else (add32 seed PRIME32_5, bs) in
  avalanche (finalize (add32 h len) tail).

Definition quote_char : ascii := ascii_of_nat 34.
Definition backslash : ascii := ascii_of_nat 92.

Definition hex_digit (n : nat) : ascii :=
  ascii_of_nat (if Nat.ltb n 10 then 48 + n else 87 + n).

Definition escape_char (c : ascii) : string :=
  let n := nat_of_ascii c in
  if Nat.eqb n 34 then String backslash (String quote_char EmptyString)
  else if Nat.eqb n 92 then String backslash (String backslash EmptyString)
  else if Nat.eqb n 8 then String backslash "b"
  else if Nat.eqb n 12 then String backslash "f"
  else if Nat.eqb n 10 then String backslash "n"
  else if Nat.eqb n 13 then String backslash "r"
  else if Nat.eqb n 9 then String backslash "t"
  else if Nat.ltb n 32
       then String backslash
              (String.append "u00"
                 (String (hex_digit (n / 16)) (String (hex_digit (n mod 16)) EmptyString)))
  else String c EmptyString.

(** A surrogate that stands alone, as the properties copied from a string
    have them, is printed as its escape. Its three bytes start with [0xED]
    and a byte from [0xA0] on, which no character of UTF-8 does. *)
Definition lone_surrogate (c0 c1 : ascii) : bool :=
  Nat.eqb (nat_of_ascii c0) 237 && Nat.leb 160 (nat_of_ascii c1).

Definition surrogate_escape (c1 c2 : ascii) : string :=
  let u := (53248 + (N_of_ascii c1 mod 64) * 64 + N_of_ascii c2 mod 64)%N in
  let digit (n : N) := hex_digit (N.to_nat (n mod 16)) in
  String backslash
    (String "u"
       (String (digit (N.div u 4096))
          (String (digit (N.div u 256))
             (String (digit (N.div u 16)) (String (digit u) EmptyString))))).

Fixpoint escape (s : string) : string :=
  match s with
  | EmptyString => EmptyString
  | String c0 rest =>
      match rest with
      | String c1 (String c2 s') =>
          if lone_surrogate c0 c1 then surrogate_escape c1 c2 +:+ escape s'
          else escape_char c0 +:+ escape rest
      | _ => escape_char c0 +:+ escape rest
      end
  end.

Definition quote (s : string) : string :=
  String quote_char (escape s +:+ String quote_char EmptyString).

(** [JSON.stringify] below the top level: an [undefined] array element
    prints as [null] and a property whose value is [undefined] is left
    out. *)
Fixpoint json_stringify (v : value) : string :=
  match v with
  | VUndefined | VNull => "null"
  | VBool true => "true"
  | VBool false => "false"
  | VNum n => JS.number_to_string n
  | VStr s => quote s
  | VArr l => "[" +:+ JS.join "," (List.map json_stringify l) +:+ "]"
  | VObj o =>
      "{" +:+
      JS.join ","
        (List.concat
           (List.map (fun kv => match snd kv with
                                | VUndefined => []
                                | _ => [quote (fst kv) +:+ ":" +:+ json_stringify (snd kv)]
                                end) o))
      +:+ "}"
  end.

Fixpoint trim_left (s : string) : string :=
  match s with
  | String c s' => if Ascii.is_space c then trim_left s' else s
  | EmptyString => EmptyString
  end.

Definition trim (s : string) : string :=
  String.rev (trim_left (String.rev (trim_left s))).

(** A few rows of the English table of [i18n-iso-countries]. *)
Definition alpha2 (name lang : string) : value :=
  if negb (String.eqb lang "en") then VUndefined
  else if String.eqb name "Singapore" then VStr "SG"
  else if String.eqb name "Malaysia" then VStr "MY"
  else if String.eqb name "Japan" then VStr "JP"
  else if String.eqb name "Indonesia" then VStr "ID"
  else VUndefined.

Definition clock (n : nat) : string := "2021-03-09T08:15:30.000Z".

Definition uuid (n : nat) : string := "3f2b8c1e-5d47-4a90-8e21-" +:+ pretty n.

#[export] Instance libraries : Libraries := {|
  XXHash_hash := xxh32;
  JSON_stringify := json_stringify;
  String_trim := trim;
  getAlpha2Code := alpha2;
  toISOString := clock;
  uuidv4 := uuid
|}.

Definition empty_world : world :=
  {| statement_objects := []; interest_objects := []; date_calls := 0; uuid_calls := 0 |}.

End Reference.

(** ** Sample registry data *)

Module Sample.

Definition owner (nama npwp nik hubungan : string) : value :=
  VObj [("nama_lengkap", VStr nama);
        ("kewarganegaraan", VStr "WNI");
        ("tempat_lahir", VStr "Bandung");
        ("tanggal_lahir", VStr "1975-04-12");
        ("npwp", VStr npwp);
        ("jenis_identitas", VStr "KTP");
        ("nomor_identitas", VStr nik);
        ("alamat", VStr "Jl. Merdeka 10");
        ("kabupaten", VStr "Bandung");
        ("provinisi", VStr "Jawa Barat");
        ("hubungan_bo", VStr hubungan)].

Definition transaction_fields (nomor : string) (owners : list value) : object :=
  [("nomor_transaksi", VStr nomor);
   ("nama_korporasi", VStr "PT Maju Bersama");
   ("jenis_transaksi", VStr "Perubahan");
   ("jenis_pelapor", VStr "NOTARIS");
   ("nama_pic", VStr "Dewi Lestari");
   ("data_bo", VArr owners)].

Definition transaction (nomor : string) (owners : list value) : value :=
  VObj (transaction_fields nomor owners).

Definition report (data_transaksi : list value) : value :=
  VObj [("status", VStr "success");
        ("data", VObj [("kedudukan", VStr "Jakarta Selatan");
                       ("data_transaksi", VArr data_transaksi)])].

(** An owner record without the [npwp] field. *)
Definition owner_without_npwp (nama nik hubungan : string) : value :=
  VObj [("nama_lengkap", VStr nama);
        ("kewarganegaraan", VStr "WNI");
        ("tempat_lahir", VStr "Medan");
        ("tanggal_lahir", VStr "1980-01-01");
        ("jenis_identitas", VStr "KTP");
        ("nomor_identitas", VStr nik);
        ("alamat", VStr "Jl. Sudirman 5");
        ("hubungan_bo", VStr hubungan)].

Definition rina : value := owner_without_npwp "Rina Wijaya" "1271010101800001" "Komisaris".
Definition joko : value := owner_without_npwp "Joko Santoso" "3578020202790002" "Direktur".

Definition siti : value := owner "Siti Rahayu" "09.254.294.3-407.000" "3273015204750001" "Pemegang saham".
Definition agus : value := owner "Agus Salim" "01.123.456.7-891.000" "3171010101800002" "Direktur".

(** Statement objects written out by hand, for the functions that take
    statements. *)
Definition a_source : source_info :=
  {| source_type := ["selfDeclaration"];
     retrievedAt := "2021-03-09T08:15:30.000Z";
     url := "https://bo.ahu.go.id/service/getReportBo";
     assertedBy := [VStr "Dewi Lestari"] |}.

Definition a_publication : publication :=
  {| publicationDate := "2021-03-09";
     bodsVersion := "0.2";
     publisher_name := "Indonesia Ministry for Law and Human Rights" |}.

Definition statement_of (sid : string) (sh : shape) : statement :=
  {| st_statementID := sid;
     st_isComponent := false;
     st_shape := sh;
     st_source := a_source;
     st_publicationDetails := a_publication;
     st_replacesStatements := None |}.

Definition company_statement (sid nama : string) : statement :=
  statement_of sid
    (Entity {| entityType := "registeredEntity";
               name := VStr nama;
               incorporatedInJurisdiction := ("Indonesia", "ID");
               entity_identifiers :=
                 [{| scheme := "ID-KHH";
                     schemeName := VStr "Ministry of Justice & Human Rights";
                     ident_id := VStr nama |}];
               entity_addresses :=
                 [{| address_type := "registered";
                     address_address := VStr "Jakarta Selatan";
                     address_country := VStr "ID" |}] |}).

Definition person_statement (sid nama : string) (npwp nik : value) : statement :=
  statement_of sid
    (Person {| personType := "knownPerson";
               names := [("individual", VStr nama)];
               birthDate := VStr "1975-04-12";
               placeOfBirth := ("placeOfBirth", VStr "Bandung");
               nationalities := [(VStr "Indonesia", VStr "ID")];
               person_identifiers :=
                 [{| scheme := "ID-DJP";
                     schemeName := VStr "Director General of Taxes";
                     ident_id := npwp |};
                  {| scheme := "MISC-ID-KTP";
                     schemeName := VStr "KTP";
                     ident_id := nik |}];
               person_addresses :=
                 [{| address_type := "residence";
                     address_address := VStr "Jl. Merdeka 10, Bandung, Jawa Barat, Indonesia";
                     address_country := VStr "ID" |}] |}).

Definition ownership_statement (sid subj party : string) (i : loc) : statement :=
  statement_of sid
    (Ownership {| subject := subj; interestedParty := party; interests := [i] |}).

Definition old_company := company_statement "c-1" "PT Maju Bersama".
Definition old_person := person_statement "p-1" "Siti Rahayu" (VStr "09.254") (VStr "3273").
Definition old_ownership := ownership_statement "o-1" "c-1" "p-1" 0.
Definition new_company := company_statement "c-2" "PT Maju Bersama".
Definition new_person := person_statement "p-2" "Siti R." (VStr "09.254") (VStr "9999").
Definition new_ownership := ownership_statement "o-2" "c-2" "p-2" 1.

(** A prior ownership statement whose interested party is in no statement
    of the list it comes with. *)
Definition dangling_ownership := ownership_statement "o-9" "c-1" "p-404" 0.

(** Another person, and a second prior ownership statement that carries the
    statementID of [old_ownership] but points to this person. *)
Definition other_person := person_statement "p-3" "Bambang" (VStr "77.000") (VStr "5555").
Definition twin_ownership := ownership_statement "o-1" "c-1" "p-3" 2.


End Sample.

(** ** Specification-level definitions used to state the properties *)

(** The positions, counted from [base], of the identifiers of [ids] that are
    neither in [seen] nor earlier in [ids]: the candidates the three
    [if (!seenStatementIds.has(...))] blocks let through. *)
Fixpoint fresh_positions (seen : gset string) (ids : list string) (base : nat) : list nat :=
  match ids with
  | [] => []
  | i :: ids' =>
      if bool_decide (i ∈ seen) then fresh_positions seen ids' (S base)
      else base :: fresh_positions ({[i]} ∪ seen) ids' (S base)
  end.

Section Candidates.

Context `{Libraries}.

Definition sourceData_of (transaction : value) : JS.copy :=
  JS.delete_own
    (JS.delete_own (JS.delete_own (JS.assign JS.empty_object transaction) "data_bo")
                   "nama_korporasi") "jenis_transaksi".

Definition company_id (companyLocation : value) (t : object) : string :=
  statementID (VArr [VObj [("nama_korporasi", JS.get t "nama_korporasi")]; companyLocation]).

Definition personData_of (bo_datum : value) : JS.copy :=
  JS.delete_own (JS.assign JS.empty_object bo_datum) "hubungan_bo".

Definition person_id (sourceData : JS.copy) (bo_datum : value) : string :=
  statementID (VArr [VObj (JS.own (personData_of bo_datum));
                     VObj (JS.own sourceData)]).

Definition ownership_id (cid : string) (sourceData : JS.copy) (bo_datum : value) : string :=
  statementID (VArr [VStr cid; VStr (person_id sourceData bo_datum); bo_datum;
                     VObj (JS.own sourceData)]).

Definition owner_ids (cid : string) (sourceData : JS.copy) (data_bo : list value)
  : list string :=
  List.concat (List.map (fun bo => [person_id sourceData bo;
                                   ownership_id cid sourceData bo]) data_bo).

(** The statementIDs of the candidates of a transaction, in the order the
    callback pushes them on [transactionStatements]. *)
Definition candidate_ids (companyLocation : value) (t : object) : list string :=
  match JS.get t "data_bo" with
  | VArr data_bo =>
      company_id companyLocation t
      :: owner_ids (company_id companyLocation t) (sourceData_of (VObj t)) data_bo
  | _ => []
  end.

Definition owner_types (data_bo : list value) : list statementType :=
  List.concat (List.map (fun _ => [PersonStatement; OwnershipOrControlStatement]) data_bo).

End Candidates.

(** Matching as the specification words it: two statements match when some
    [(scheme, id)] pair of the one is a pair of the other. *)
Definition identifiers_match (a b : statement) : bool :=
  match st_identifiers a, st_identifiers b with
  | Some ia, Some ib =>
      existsb (fun i => existsb (fun j => same_identifier j i) ib) ia
  | _, _ => false
  end.

(** The prior ownership statements the relational match keeps: both
    references resolve in [oldStatements] and both resolved statements match
    the new ones. *)
Definition both_sides_match (newInterestedParty newSubject : statement)
    (oldStatements : list statement) (s : statement) : bool :=
  match st_shape s with
  | Ownership o =>
      match find_statement (interestedParty o) oldStatements,
            find_statement (subject o) oldStatements with
      | Some oldInterestedParty, Some oldSubject =>
          identifiers_match newInterestedParty oldInterestedParty
          && identifiers_match newSubject oldSubject
      | _, _ => false
      end
  | _ => false
  end.

(** The statement a reference of the output points to, in the final store. *)
Definition statement_at (w : world) (l : loc) : option statement :=
  statement_objects w !! l.

Definition id_at (w : world) (l : loc) : option string :=
  st_statementID <$> statement_at w l.

Definition ids_at (w : world) (ls : list loc) : list (option string) :=
  List.map (id_at w) ls.

(** The seen set and the previous statements the [n]-th transaction of a run
    starts from, the run having started from [seen0] and [prev0]. *)
Fixpoint seen_before (seen0 : gset string) (tr : list step) (n : nat) {struct n}
  : gset string :=
  match n, tr with
  | S k, r :: tr' => seen_before (step_seen r) tr' k
  | _, _ => seen0
  end.

Fixpoint prev_before (prev0 : list loc) (tr : list step) (n : nat) {struct n}
  : list loc :=
  match n, tr with
  | S k, r :: tr' => prev_before (step_transactionStatements r) tr' k
  | _, _ => prev0
  end.

(** The array [flatMap] returns. *)
Definition output (tr : list step) : list loc :=
  List.concat (List.map step_newStatements tr).

(** [data['data']['data_transaksi']] and [data['data']['kedudukan']], for the
    inputs on which [statements] reaches its [flatMap]. *)
Definition data_transaksi_of (data : value) : list value :=
  match data with
  | VObj d =>
      match JS.get d "data" with
      | VObj dd =>
          match JS.get dd "data_transaksi" with
          | VArr data_transaksi => data_transaksi
          | _ => []
          end
      | _ => []
      end
  | _ => []
  end.

Definition companyLocation_of (data : value) : value :=
  match data with
  | VObj d =>
      match JS.get d "data" with
      | VObj dd => JS.get dd "kedudukan"
      | _ => VUndefined
      end
  | _ => VUndefined
  end.

(** [statements], keeping what each call of the callback left behind. *)
Definition statements_trace `{Libraries} (data : value) : M (list step) :=
  match data with
  | VObj d =>
      match JS.get d "data" with
      | VObj dd =>
          match JS.get dd "data_transaksi" with
          | VArr data_transaksi =>
              trace_transactions (JS.get dd "kedudukan") ∅ [] data_transaksi
          | _ => throw (TypeError "data.data.data_transaksi.flatMap is not a function")
          end
      | _ => throw (TypeError "data.data has no data_transaksi array")
      end
  | _ => throw (TypeError "data.data is undefined")
  end.

(** A closing statement of a run: emitted, and no candidate of any
    transaction. *)
Definition is_candidate (tr : list step) (l : loc) : Prop :=
  Exists (fun r => l ∈ step_transactionStatements r) tr.

(** The hypothesis of global uniqueness, as a check that runs: every emitted
    statement that is no candidate has a statementID no other emitted
    statement has. *)
Definition is_candidate_b (tr : list step) (l : loc) : bool :=
  existsb (fun r => existsb (Nat.eqb l) (step_transactionStatements r)) tr.

Definition same_id_b (a b : option string) : bool :=
  match a, b with
  | Some x, Some y => String.eqb x y
  | None, None => true
  | _, _ => false
  end.

Definition closing_ids_fresh_b (tr : list step) (w : world) : bool :=
  forallb (fun x =>
             forallb (fun y => Nat.eqb x y || is_candidate_b tr x
                               || negb (same_id_b (id_at w x) (id_at w y)))
                     (output tr))
          (output tr).

(** ** Invariants of the callback

    The predicates the proofs below carry through the body of the [flatMap]
    callback. *)

(** A filter callback accepts [x]. *)
Definition accepts {A} (p : A -> result bool) (x : A) : bool :=
  match p x with Ok true => true | _ => false end.

(** [w'] is [w] with one more statement object [s], at [l]; assignments to
    interest objects and the oracles are left aside. *)
Definition allocated (w : world) (l : loc) (s : statement) (w' : world) : Prop :=
  l = length (statement_objects w)
  /\ statement_objects w' = statement_objects w ++ [s]
  /\ uuid_calls w' = uuid_calls w.

(** A reference is on one of the arrays of a step. *)
Definition touches (r : step) (x : loc) : Prop :=
  In x (step_transactionStatements r) \/ In x (step_newStatements r).

(** Every reference of an ownership statement of [cs] is the statementID of
    a statement of [cs]. *)
Definition references_resolve (cs : list statement) : Prop :=
  forall s o, In s cs -> st_shape s = Ownership o ->
              In (subject o) (List.map st_statementID cs)
              /\ In (interestedParty o) (List.map st_statementID cs).

(** The ways a run can go: it ends in a state that satisfies [post], or it
    raises a TypeError. The store error of the embedding is not among them. *)
Definition js_error (e : error) : Prop := exists msg, e = TypeError msg.

Definition outcome {A} (r : result (A * world)) (post : A -> world -> Prop) : Prop :=
  match r with
  | Ok (a, w') => post a w'
  | Throw e => js_error e
  end.

(** [w'] comes after [w]: the statement objects of [w] are still there, with
    their shape, and no interest object is gone. *)
Definition extends (w w' : world) : Prop :=
  (forall l s, statement_objects w !! l = Some s ->
               exists s', statement_objects w' !! l = Some s'
                          /\ st_shape s' = st_shape s)
  /\ length (interest_objects w) <= length (interest_objects w').

Definition interests_allocated (w : world) (s : statement) : Prop :=
  forall o, st_shape s = Ownership o ->
            Forall (fun i => i < length (interest_objects w)) (interests o).

(** The references of [ls] point to statement objects whose interests are
    in the store. *)
Definition usable (w : world) (ls : list loc) : Prop :=
  Forall (fun l => exists s, statement_objects w !! l = Some s
                             /\ interests_allocated w s) ls.

Section Invariants.

Context `{Libraries}.

(** What holds of the callback's variables while it stages candidates.
    [objs0] is the store when the callback starts, [cands] the candidates
    created since, [prevIDs] the statementIDs of the previous transaction. *)
Record staging (seen0 : gset string) (prevIDs : list string) (objs0 : list statement)
    (cands : list statement) (st : locals) (w : world) : Prop := Staging {
  sg_objects : statement_objects w = objs0 ++ cands;
  sg_txs : transactionStatements st = seq (length objs0) (length cands);
  sg_news : newStatements st =
            fresh_positions seen0 (List.map st_statementID cands) (length objs0);
  sg_seen : seenStatementIds st = seen0 ∪ list_to_set (List.map st_statementID cands);
  sg_replaces : forall k s, cands !! k = Some s ->
      match st_replacesStatements s with
      | Some r => In (length objs0 + k) (newStatements st)
                  /\ forall i, In i r -> In i prevIDs
      | None => ~ In (length objs0 + k) (newStatements st)
      end
}.

(** A closing statement made from the previous statement [p]. *)
Definition closes (p : statement) (c : statement) : Prop :=
  exists k, c = set_replacesStatements [st_statementID p]
                  (set_statementID (uuidv4 k) p).

(** What holds of [newStatements] and of the store during the closure
    pass: [objsM] and [newsM] are the store and [newStatements] when the
    pass starts, [closings] the statements it has made so far. *)
Record closing (olds cands objsM : list statement) (newsM : list loc)
    (closings : list statement) (news : list loc) (w : world) : Prop := Closing {
  cl_objects : statement_objects w = objsM ++ closings;
  cl_news : news = newsM ++ seq (length objsM) (length closings);
  cl_each : Forall (fun c => exists p,
               In p olds
               /\ st_statementType p = OwnershipOrControlStatement
               /\ closes p c
               /\ ~ In (st_statementID p) (List.map st_statementID cands)
               /\ forall s, In s cands -> replaces (st_statementID p) s = false)
            closings
}.

(** The previous ownership statement [p] is accounted for. *)
Definition covered (p : statement) (cands closings : list statement) : Prop :=
  In (st_statementID p) (List.map st_statementID cands)
  \/ (exists s, In s cands /\ replaces (st_statementID p) s = true)
  \/ (exists c, In c closings /\ closes p c).

(** What one call of the callback does, for a transaction [t] started in
    the store [w] with [seen] and with previous statements [olds]:
    [cands] are the candidates it creates and [closings] the closing
    statements, in this order at the end of the store. *)
Record step_facts (companyLocation : value) (seen : gset string)
    (olds : list statement) (t : object) (w : world) (r : step) (w' : world)
    (cands closings : list statement) : Prop := StepFacts {
  sf_objects : statement_objects w' = statement_objects w ++ cands ++ closings;
  sf_txs : step_transactionStatements r =
           seq (length (statement_objects w)) (length cands);
  sf_news : step_newStatements r =
            fresh_positions seen (List.map st_statementID cands)
                            (length (statement_objects w))
            ++ seq (length (statement_objects w) + length cands) (length closings);
  sf_seen : step_seen r = seen ∪ list_to_set (List.map st_statementID cands);
  sf_ids : List.map st_statementID cands = candidate_ids companyLocation t;
  sf_types : exists data_bo,
      JS.get t "data_bo" = VArr data_bo
      /\ List.map st_statementType cands = EntityStatement :: owner_types data_bo;
  sf_replaces : forall k s, cands !! k = Some s ->
      match st_replacesStatements s with
      | Some rr =>
          In (length (statement_objects w) + k)
             (fresh_positions seen (List.map st_statementID cands)
                              (length (statement_objects w)))
          /\ forall i, In i rr -> In i (List.map st_statementID olds)
      | None =>
          ~ In (length (statement_objects w) + k)
               (fresh_positions seen (List.map st_statementID cands)
                                (length (statement_objects w)))
      end;
  sf_closings : Forall (fun c => exists p,
                   In p olds
                   /\ st_statementType p = OwnershipOrControlStatement
                   /\ closes p c
                   /\ ~ In (st_statementID p) (List.map st_statementID cands)
                   /\ forall s, In s cands -> replaces (st_statementID p) s = false)
                closings;
  sf_covered : forall p, In p olds ->
               st_statementType p = OwnershipOrControlStatement ->
               covered p cands closings;
  sf_references : references_resolve cands
}.

End Invariants.

(** ** Definitions for the further properties *)

(** *** What the program needs of its input *)

(** A value that converts to a string: no object in it, at any depth of
    arrays, has an own [toString]. *)
Fixpoint printable (v : value) : bool :=
  match v with
  | VObj o => negb (JS.has_own o "toString")
  | VArr l => forallb printable l
  | _ => true
  end.

(** The fields [mapAddress] reads for an address in Indonesia and for one
    abroad. *)
Definition domestic_fields (data : JS.copy) : list value :=
  [JS.read data "alamat"; JS.read data "rt"; JS.read data "rw";
   JS.read data "kelurahan"; JS.read data "kecamatan"; JS.read data "kabupaten";
   JS.read data "provinisi"].

Definition foreign_fields (data : JS.copy) : list value :=
  [JS.read data "alamat"; JS.read data "negara"].

Definition address_fields (data : JS.copy) (foreign : bool) : list value :=
  if foreign then foreign_fields data else domestic_fields data.

(** What [mapPersonStatement] needs of [personData]: it calls [trim] on the
    [negara] of a foreign national, so this is a string, and it converts
    [jenis_identitas] and the truthy fields of the address to strings. *)
Definition person_ok (data : JS.copy) : bool :=
  let wna := JS.strict_eq (JS.read data "kewarganegaraan") (VStr "WNA") in
  (if wna then match JS.read data "negara" with VStr _ => true | _ => false end
   else true)
  && printable (JS.read data "jenis_identitas")
  && forallb printable (List.filter JS.truthy (address_fields data wna)).

(** What the callback of [forEach] needs of an element of [data_bo]: it
    reads a property of it, so it is neither [null] nor [undefined], and the
    copy of it is fit for [mapPersonStatement]. *)
Definition owner_ok (bo_datum : value) : bool :=
  match bo_datum with
  | VUndefined | VNull => false
  | _ => person_ok (personData_of bo_datum)
  end.

(** What the callback of [flatMap] needs of a transaction. *)
Definition transaction_ok (transaction : value) : bool :=
  match transaction with
  | VObj t =>
      match JS.get t "data_bo" with
      | VArr data_bo => forallb owner_ok data_bo
      | _ => false
      end
  | _ => false
  end.

(** What [statements] needs of its input. *)
Definition input_ok (data : value) : bool :=
  match data with
  | VObj d =>
      match JS.get d "data" with
      | VObj dd =>
          match JS.get dd "data_transaksi" with
          | VArr data_transaksi => forallb transaction_ok data_transaksi
          | _ => false
          end
      | _ => false
      end
  | _ => false
  end.

(** No ownership statement of the transaction gets the statementID of one
    of its person statements. *)
Definition ownership_ids_apart `{Libraries} (companyLocation : value) (transaction : value)
  : bool :=
  match transaction with
  | VObj t =>
      match JS.get t "data_bo" with
      | VArr data_bo =>
          let cid := company_id companyLocation t in
          let sourceData := sourceData_of (VObj t) in
          forallb (fun bo =>
                     forallb (fun bo' =>
                                negb (String.eqb (ownership_id cid sourceData bo)
                                                 (person_id sourceData bo')))
                             data_bo)
                  data_bo
      | _ => true
      end
  | _ => true
  end.

(** *** What the callback needs of the previous statements *)

(** Both references of every ownership statement of [olds] resolve in
    [olds], to statements that have identifiers. *)
Definition parties_identified (olds : list statement) : Prop :=
  forall s o, In s olds -> st_shape s = Ownership o ->
    (exists a, find_statement (interestedParty o) olds = Some a
               /\ is_Some (st_identifiers a))
    /\ (exists b, find_statement (subject o) olds = Some b
                  /\ is_Some (st_identifiers b)).

(** The closure pass can end the statement at [ps]: its interests are in
    the store and there is a first one. *)
Definition closable (w : world) (ps : loc) : Prop :=
  usable w [ps]
  /\ forall s o, statement_objects w !! ps = Some s -> st_shape s = Ownership o ->
                 interests o <> [].

(** *** What one call of the callback makes, in detail *)

(** The person and ownership statements of the owners, as the callback
    pushes them. *)
Definition flat (pairs : list (statement * statement)) : list statement :=
  List.concat (List.map (fun po => [fst po; snd po]) pairs).

(** The [replacesStatements] of [s], when it has one, is what [replaced]
    returned for [s]. *)
Definition as_returned (replaced : statement -> result (list string)) (s : statement)
  : Prop :=
  forall rr, st_replacesStatements s = Some rr -> replaced s = Ok rr.

Section Details.

Context `{Libraries}.

Record owner_pair (sourceData : JS.copy) (olds : list statement) (c : statement)
    (bo_datum : value) (po : statement * statement) : Prop := OwnerPair {
  op_person_id : st_statementID (fst po) = person_id sourceData bo_datum;
  op_person_type : st_statementType (fst po) = PersonStatement;
  op_person_replaces : as_returned (fun s => replacedStatements s olds) (fst po);
  op_ownership_id :
    st_statementID (snd po) = ownership_id (st_statementID c) sourceData bo_datum;
  op_ownership : exists f i,
      st_shape (snd po) = Ownership f
      /\ subject f = st_statementID c
      /\ interestedParty f = st_statementID (fst po)
      /\ interests f = [i];
  op_ownership_replaces :
    as_returned (fun s => replacedOwnershipStatements s (fst po) c olds) (snd po)
}.

Record step_detail (companyLocation : value) (olds : list statement) (t : object)
    (w w' : world) (cands closings : list statement) : Prop := StepDetail {
  sd_candidates : exists c pairs data_bo,
      JS.get t "data_bo" = VArr data_bo
      /\ cands = c :: flat pairs
      /\ st_statementID c = company_id companyLocation t
      /\ st_identifiers c
         = Some [companyIdentifier [("nama_korporasi", JS.get t "nama_korporasi")]]
      /\ as_returned (fun s => replacedStatements s olds) c
      /\ Forall2 (owner_pair (sourceData_of (VObj t)) olds c) data_bo pairs;
  sd_uuids : List.map st_statementID closings
             = List.map uuidv4 (seq (uuid_calls w) (length closings));
  sd_uuid_calls : uuid_calls w' = uuid_calls w + length closings
}.

End Details.

(** *** The output *)

(** The closing statements among the statements a call of the callback
    returned: the ones that are not on [transactionStatements]. *)
Definition closings_of (r : step) : list loc :=
  List.filter (fun x => negb (existsb (Nat.eqb x) (step_transactionStatements r)))
              (step_newStatements r).

Definition closing_locs (tr : list step) : list loc :=
  List.concat (List.map closings_of tr).

(** A list of locations in the order of their creation. *)
Definition increasing (l : list loc) : Prop :=
  forall j k a b, l !! j = Some a -> l !! k = Some b -> j < k -> a < b.

(** A statement at a position of the output before [k] carries [i] as its
    statementID. *)
Definition emitted_earlier (tr : list step) (w : world) (k : nat) (i : string) : Prop :=
  exists j y, j < k /\ output tr !! j = Some y /\ id_at w y = Some i.

(** *** Objects and strings *)

(** The properties of a transaction that [sourceData] keeps as its own. *)
Definition kept_in_sourceData (kv : string * value) : bool :=
  negb (String.eqb (fst kv) "__proto__")
  && negb (String.eqb (fst kv) "data_bo")
  && negb (String.eqb (fst kv) "nama_korporasi")
  && negb (String.eqb (fst kv) "jenis_transaksi").

(** The prototype of a copy of an object whose own [__proto__] is [v]
    ([undefined] when it has none). *)
Definition prototype_from (v : value) : JS.prototype :=
  match v with
  | VObj p => JS.Object_of p
  | VArr l => JS.Array_of l
  | VNull => JS.Null_prototype
  | _ => JS.Object_prototype
  end.

(** No character of [s] is a [T]. *)
Definition no_T (s : string) : bool :=
  forallb (fun c => negb (Ascii.eqb c "T"%char)) (String.list_ascii_of_string s).

(** ** Sample runs *)

Module Example.

Import Sample.

Definition run (data : value) : result (list step * world) :=
  statements_trace (H := Reference.libraries) data Reference.empty_world.

Definition trace_of (data : value) : list step :=
  match run data with Ok (tr, _) => tr | Throw _ => [] end.

Definition store_of (data : value) : world :=
  match run data with Ok (_, w) => w | Throw _ => Reference.empty_world end.

(** Two owners, then a transaction with another number that lists only the
    first of them. *)
Definition owner_leaves : value :=
  report [transaction "1" [siti; agus]; transaction "2" [siti]].
Definition owner_leaves_trace : list step := Eval vm_compute in trace_of owner_leaves.
Definition owner_leaves_store : world := Eval vm_compute in store_of owner_leaves.

(** The same company and the same owner under two transaction numbers. *)
Definition renumbered : value :=
  report [transaction "1" [siti]; transaction "2" [siti]].
Definition renumbered_trace : list step := Eval vm_compute in trace_of renumbered.
Definition renumbered_store : world := Eval vm_compute in store_of renumbered.

(** The same transaction twice. *)
Definition repeated : value :=
  report [transaction "1" [siti]; transaction "1" [siti]].
Definition repeated_trace : list step := Eval vm_compute in trace_of repeated.
Definition repeated_store : world := Eval vm_compute in store_of repeated.

(** One transaction that lists the same owner twice. *)
Definition listed_twice : value := report [transaction "1" [siti; siti]].
Definition listed_twice_trace : list step := Eval vm_compute in trace_of listed_twice.
Definition listed_twice_store : world := Eval vm_compute in store_of listed_twice.

(** Two unrelated owners, neither with a tax number, in two transactions. *)
Definition unrelated_owners : value :=
  report [transaction "1" [rina]; transaction "2" [joko]].
Definition unrelated_owners_store : world := Eval vm_compute in store_of unrelated_owners.

(** The first transaction of [owner_leaves] alone. *)
Definition two_owners : value := report [transaction "1" [siti; agus]].
Definition two_owners_store : world := Eval vm_compute in store_of two_owners.

Definition no_step : step :=
  {| step_seen := ∅; step_transactionStatements := []; step_newStatements := [] |}.

(** The [n]-th step of a sample trace and the statement at a location of a
    sample store. *)
Definition step_at (tr : list step) (n : nat) : step := nth n tr no_step.

Definition statement_in (w : world) (l : loc) : statement :=
  nth l (statement_objects w) Sample.old_company.

(** The properties of the ownership statement at a location of a sample
    store. *)
Definition ownership_in (w : world) (l : loc) : ownership_fields :=
  match st_shape (statement_in w l) with
  | Ownership o => o
  | _ => {| subject := EmptyString; interestedParty := EmptyString; interests := [] |}
  end.

(** One transaction whose second owner record is [null]. *)
Definition null_owner : value := report [transaction "1" [siti; VNull]].

(** An owner record that has its nationality in an own [__proto__]
    property, and no country. *)
Definition inherits_nationality : value :=
  report [transaction "1"
            [VObj [("nama_lengkap", VStr "Kenji Sato");
                   ("__proto__", VObj [("kewarganegaraan", VStr "WNA")]);
                   ("hubungan_bo", VStr "Direktur")]]].

(** A foreign national whose country is in an own [__proto__] property. *)
Definition inherits_country : value :=
  report [transaction "1"
            [VObj [("nama_lengkap", VStr "Kenji Sato");
                   ("kewarganegaraan", VStr "WNA");
                   ("__proto__", VObj [("negara", VStr " Japan ")]);
                   ("hubungan_bo", VStr "Direktur")]]].
Definition inherits_country_store : world := Eval vm_compute in store_of inherits_country.

(** An owner record whose kind of identity document is an object with an
    own [toString]. *)
Definition unprintable_identity : value :=
  report [transaction "1"
            [VObj [("nama_lengkap", VStr "Kenji Sato");
                   ("jenis_identitas", VObj [("toString", VNum 1)]);
                   ("hubungan_bo", VStr "Direktur")]]].

(** The two bytes of a letter with an accent and the four bytes of a
    character outside the basic plane. *)
Definition e_acute : string :=
  String (ascii_of_nat 195) (String (ascii_of_nat 169) EmptyString).
Definition grinning_face : string :=
  String (ascii_of_nat 240)
    (String (ascii_of_nat 159)
       (String (ascii_of_nat 152) (String (ascii_of_nat 128) EmptyString))).

End Example.

(** ** Properties *)

(** *** The reference hash

    Published XXH32 values: the empty input, [abc], and an input longer
    than one stripe, all with seed 0. *)

Example xxh32_empty : Reference.xxh32 EmptyString 0 = 46947589%Z.
Proof. reflexivity. Qed.

Example xxh32_abc : Reference.xxh32 "abc" 0 = 852579327%Z.
Proof. reflexivity. Qed.

Example xxh32_long :
  Reference.xxh32 "Nobody inspects the spammish repetition" 0 = 3794352943%Z.
Proof. vm_compute. reflexivity. Qed.

Example json_stringify_payload :
  Reference.json_stringify
    (VArr [VObj [("nama_korporasi", VStr "PT Maju Bersama"); ("x", VUndefined)];
           VUndefined; VNum 7])
  = String.append (String.append "[{" (String Reference.quote_char "nama_korporasi"))
      (String.append (String Reference.quote_char ":")
         (String.append (String Reference.quote_char "PT Maju Bersama")
            (String.append (String Reference.quote_char "}") ",null,7]"))).
Proof. vm_compute. reflexivity. Qed.

(** *** The monad *)

Lemma bind_Ok {A B} (m : M A) (k : A -> M B) w b w' :
  bind m k w = Ok (b, w') ->
  exists a w1, m w = Ok (a, w1) /\ k a w1 = Ok (b, w').
Proof.
  unfold bind. destruct (m w) as [[a w1]|e]; [|discriminate].
  intros Hk. by exists a, w1.
Qed.

Lemma ret_Ok {A} (a b : A) w w' : ret a w = Ok (b, w') -> a = b /\ w = w'.
Proof. unfold ret. by intros [= -> ->]. Qed.

Lemma lift_Ok {A} (r : result A) a w w' : lift r w = Ok (a, w') -> r = Ok a /\ w' = w.
Proof. unfold lift. destruct r; [|discriminate]. by intros [= -> ->]. Qed.

Lemma load_Ok l s w w' :
  load l w = Ok (s, w') -> statement_objects w !! l = Some s /\ w' = w.
Proof.
  unfold load. destruct (statement_objects w !! l); [|discriminate].
  by intros [= -> ->].
Qed.

Lemma load_all_Ok ls ss w w' :
  load_all ls w = Ok (ss, w') ->
  Forall2 (fun l s => statement_objects w !! l = Some s) ls ss /\ w' = w.
Proof.
  revert ss w'. induction ls as [|l ls IH]; intros ss w' Hl; simpl in Hl.
  - apply ret_Ok in Hl as [<- <-]. by split; [constructor|].
  - apply bind_Ok in Hl as (s & w1 & Hs & Hl).
    apply load_Ok in Hs as [Hs ->].
    apply bind_Ok in Hl as (ss' & w2 & Hss & Hl).
    apply IH in Hss as [Hss ->].
    apply ret_Ok in Hl as [<- <-]. split; [by constructor|done].
Qed.

Lemma load_all_total ls ss w :
  Forall2 (fun l s => statement_objects w !! l = Some s) ls ss ->
  load_all ls w = Ok (ss, w).
Proof.
  induction 1 as [|l s ls ss Hs _ IH]; simpl; [done|].
  unfold bind, load. rewrite Hs. by rewrite IH.
Qed.

(** *** Conversion to strings *)

Lemma value_array_ind (P : value -> Prop) :
  P VUndefined -> P VNull -> (forall b, P (VBool b)) -> (forall n, P (VNum n)) ->
  (forall s, P (VStr s)) ->
  (forall l, Forall P l -> P (VArr l)) ->
  (forall o, P (VObj o)) ->
  forall v, P v.
Proof.
  intros Hu Hn Hb Hz Hs Ha Ho. fix IH 1.
  intros [| |b|n|s|l|o]; [exact Hu|exact Hn|apply Hb|apply Hz|apply Hs| |apply Ho].
  apply Ha. induction l as [|e l IHl]; constructor; [apply IH|apply IHl].
Qed.

Lemma to_string_VArr l : JS.to_string (VArr l) = JS.join_values "," l.
Proof.
  unfold JS.join_values. simpl.
  match goal with
  | |- match ?f l with _ => _ end = _ => assert (Heq : f l = JS.element_strings l)
  end.
  { induction l as [|e l IH]; [done|]. simpl. rewrite IH. by destruct e. }
  by rewrite Heq.
Qed.

(** ToString returns on a printable value and raises a TypeError on
    another. *)
Lemma to_string_total v :
  if printable v then exists s, JS.to_string v = Ok s
  else exists msg, JS.to_string v = Throw (TypeError msg).
Proof.
  induction v as [| |b|n|s|l IH|o] using value_array_ind; simpl printable;
    try (by eexists).
  - by destruct b; eexists.
  - rewrite to_string_VArr. unfold JS.join_values.
    assert (Hl : if forallb printable l
                 then exists ss, JS.element_strings l = Ok ss
                 else exists msg, JS.element_strings l = Throw (TypeError msg)).
    { induction IH as [|e l He _ IHl]; simpl; [by eexists|].
      assert (Hes : if printable e then exists s, JS.element_string e = Ok s
                    else exists msg, JS.element_string e = Throw (TypeError msg)).
      { destruct e; try done; simpl; by eexists. }
      destruct (printable e); simpl.
      - destruct Hes as [s ->]. destruct (forallb printable l).
        + destruct IHl as [ss ->]. by eexists.
        + destruct IHl as [msg ->]. by eexists.
      - destruct Hes as [msg ->]. by eexists. }
    destruct (forallb printable l).
    + destruct Hl as [ss ->]. by eexists.
    + destruct Hl as [msg ->]. by eexists.
  - simpl. destruct (JS.has_own o "toString"); simpl; by eexists.
Qed.

Lemma to_string_printable v :
  printable v = true -> exists s, JS.to_string v = Ok s.
Proof. intros Hp. pose proof (to_string_total v) as Ht. by rewrite Hp in Ht. Qed.

Lemma to_string_unprintable v :
  printable v = false -> exists msg, JS.to_string v = Throw (TypeError msg).
Proof. intros Hp. pose proof (to_string_total v) as Ht. by rewrite Hp in Ht. Qed.

Lemma to_string_js_error v e : JS.to_string v = Throw e -> js_error e.
Proof.
  intros Hv. pose proof (to_string_total v) as Ht. destruct (printable v).
  - destruct Ht as [s Hs]. congruence.
  - destruct Ht as [msg Hmsg]. exists msg. congruence.
Qed.

Lemma join_values_total sep l :
  if forallb printable l then exists s, JS.join_values sep l = Ok s
  else exists msg, JS.join_values sep l = Throw (TypeError msg).
Proof.
  pose proof (to_string_total (VArr l)) as Ht. rewrite to_string_VArr in Ht.
  simpl in Ht. unfold JS.join_values in *.
  destruct (forallb printable l);
    destruct (JS.element_strings l) as [ss|e]; try by eexists.
  - by destruct Ht as [? [=]].
  - by destruct Ht as [? [=]].
  - destruct Ht as [msg [= ->]]. by eexists.
Qed.

Lemma join_present_total vs :
  if forallb printable (List.filter JS.truthy vs)
  then exists s, join_present vs = Ok s
  else exists msg, join_present vs = Throw (TypeError msg).
Proof. apply join_values_total. Qed.

Lemma filter_truthy_Indonesia vs :
  List.filter JS.truthy (vs ++ [VStr "Indonesia"])
  = List.filter JS.truthy vs ++ [VStr "Indonesia"].
Proof. by rewrite List.filter_app. Qed.

Lemma forallb_printable_snoc vs :
  forallb printable (vs ++ [VStr "Indonesia"]) = forallb printable vs.
Proof. rewrite forallb_app. simpl. by rewrite andb_true_r. Qed.

Lemma mapAddress_total data foreign country_code :
  if forallb printable (List.filter JS.truthy (address_fields data foreign))
  then exists a, mapAddress data foreign country_code = Ok a
  else exists msg, mapAddress data foreign country_code = Throw (TypeError msg).
Proof.
  unfold mapAddress, address_fields. destruct foreign.
  - pose proof (join_present_total (foreign_fields data)) as Hj.
    fold (foreign_fields data).
    destruct (forallb printable _).
    + destruct Hj as [s ->]. by eexists.
    + destruct Hj as [msg ->]. by eexists.
  - pose proof (join_present_total (domestic_fields data ++ [VStr "Indonesia"])) as Hj.
    rewrite filter_truthy_Indonesia, forallb_printable_snoc in Hj.
    change [JS.read data "alamat"; JS.read data "rt"; JS.read data "rw";
            JS.read data "kelurahan"; JS.read data "kecamatan";
            JS.read data "kabupaten"; JS.read data "provinisi"; VStr "Indonesia"]
      with (domestic_fields data ++ [VStr "Indonesia"]).
    destruct (forallb printable _).
    + destruct Hj as [s ->]. by eexists.
    + destruct Hj as [msg ->]. by eexists.
Qed.

Lemma mapAddress_js_error data foreign country_code e :
  mapAddress data foreign country_code = Throw e -> js_error e.
Proof.
  intros Hm. pose proof (mapAddress_total data foreign country_code) as Ht.
  destruct (forallb printable _).
  - destruct Ht as [a Ha]. congruence.
  - destruct Ht as [msg Hmsg]. exists msg. congruence.
Qed.

(** *** Filters that may throw *)

Lemma filter_result_Ok {A} (p : A -> result bool) xs ys :
  filter_result p xs = Ok ys ->
  ys = List.filter (accepts p) xs /\ Forall (fun x => exists b, p x = Ok b) xs.
Proof.
  revert ys. induction xs as [|x xs IH]; intros ys Hf; simpl in Hf.
  - injection Hf as <-. by split.
  - unfold accepts; simpl. destruct (p x) as [b|e] eqn:Hp; [|discriminate].
    destruct (filter_result p xs) as [zs|e]; [|discriminate].
    destruct (IH zs eq_refl) as [-> Hall]. injection Hf as <-.
    split; [by destruct b|]. constructor; eauto.
Qed.

Lemma filter_result_total {A} (p : A -> result bool) xs :
  Forall (fun x => exists b, p x = Ok b) xs ->
  filter_result p xs = Ok (List.filter (accepts p) xs).
Proof.
  induction 1 as [|x xs [b Hb] _ IH]; simpl; [done|].
  unfold accepts at 1. rewrite Hb, IH. by destruct b.
Qed.

Lemma filter_result_Throw {A} (p : A -> result bool) xs x e :
  In x xs -> p x = Throw e -> exists e', filter_result p xs = Throw e'.
Proof.
  induction xs as [|y xs IH]; intros Hin Hp; simpl in *; [done|].
  destruct Hin as [->|Hin].
  - rewrite Hp. eauto.
  - destruct (p y); [|eauto].
    destruct (IH Hin Hp) as [e' ->]. eauto.
Qed.

Lemma filter_result_first_Throw {A} (p : A -> result bool) xs x e :
  In x xs -> p x = Throw e ->
  exists y e', In y xs /\ p y = Throw e' /\ filter_result p xs = Throw e'.
Proof.
  induction xs as [|z xs IH]; intros Hin Hp; simpl in *; [done|].
  destruct (p z) as [b|e1] eqn:Hz.
  - destruct Hin as [->|Hin]; [congruence|].
    destruct (IH Hin Hp) as (y & e' & Hy & Hpy & ->). exists y, e'. auto.
  - exists z, e1. auto.
Qed.

Lemma map_result_Ok {A B} (f : A -> B) r b :
  map_result f r = Ok b -> exists a, r = Ok a /\ b = f a.
Proof. destruct r; simpl; [|discriminate]. intros [= <-]. eauto. Qed.

(** *** Identifier matching *)

Lemma matchingIdentifiers_Ok newStatement o b :
  matchingIdentifiers newStatement o = Ok b ->
  b = match o with
      | Some old => identifiers_match newStatement old
      | None => false
      end.
Proof.
  unfold matchingIdentifiers, identifiers_match.
  destruct (st_identifiers newStatement) as [[|i ids]|]; [| |discriminate].
  - intros [= <-]. destruct o as [old|]; [|done]. by destruct (st_identifiers old).
  - destruct o as [old|]; [|discriminate].
    destruct (st_identifiers old); [|discriminate]. by intros [= <-].
Qed.

Lemma matchingIdentifiers_true newStatement o :
  matchingIdentifiers newStatement o = Ok true <->
  exists old, o = Some old /\ identifiers_match newStatement old = true.
Proof.
  split.
  - intros Hm. pose proof (matchingIdentifiers_Ok _ _ _ Hm) as Hb.
    destruct o as [old|]; [eauto|discriminate].
  - intros (old & -> & Hm). revert Hm. unfold matchingIdentifiers, identifiers_match.
    destruct (st_identifiers newStatement) as [[|i ids]|]; simpl; [| |done].
    { by destruct (st_identifiers old). }
    destruct (st_identifiers old); [|done]. by intros ->.
Qed.

Lemma matchingIdentifiers_TypeError a o e :
  matchingIdentifiers a o = Throw e -> exists msg, e = TypeError msg.
Proof.
  unfold matchingIdentifiers.
  destruct (st_identifiers a) as [[|i ids]|]; [done| |intros [= <-]; eauto].
  destruct o as [old|]; [|intros [= <-]; eauto].
  destruct (st_identifiers old); [done|intros [= <-]; eauto].
Qed.

Lemma same_type_identifiers a b :
  st_statementType a = st_statementType b ->
  is_Some (st_identifiers a) -> is_Some (st_identifiers b).
Proof.
  unfold st_statementType, st_identifiers.
  destruct (st_shape a), (st_shape b); intros Ht [x Hx]; try discriminate; eauto.
Qed.

Lemma statementType_eqb_eq a b : statementType_eqb a b = true <-> a = b.
Proof. destruct a, b; simpl; split; (done || discriminate). Qed.

Lemma matchingIdentifiers_same_type a b :
  st_statementType b = st_statementType a ->
  is_Some (st_identifiers a) ->
  matchingIdentifiers a (Some b) = Ok (identifiers_match a b).
Proof.
  intros Ht [ia Hia].
  destruct (same_type_identifiers a b (eq_sym Ht)) as [ib Hib]; [by eauto|].
  unfold matchingIdentifiers, identifiers_match. rewrite Hia, Hib.
  by destruct ia.
Qed.

Lemma replacedStatements_Ok newStatement oldStatements r :
  replacedStatements newStatement oldStatements = Ok r ->
  r = List.map st_statementID
        (List.filter
           (fun old => statementType_eqb (st_statementType old) (st_statementType newStatement)
                       && identifiers_match newStatement old)
           oldStatements).
Proof.
  unfold replacedStatements. intros Hr.
  apply map_result_Ok in Hr as (kept & Hf & ->).
  apply filter_result_Ok in Hf as [-> Hall]. f_equal.
  apply List.filter_ext_in. intros old Hin. unfold accepts.
  rewrite Forall_forall in Hall.
  destruct (Hall old) as [b Hb]; [by apply list_elem_of_In|].
  rewrite Hb. revert Hb.
  destruct (statementType_eqb _ _); simpl; [|by intros [= <-]].
  intros Hm. apply matchingIdentifiers_Ok in Hm as ->.
  by destruct (identifiers_match _ _).
Qed.

Lemma replacedStatements_total newStatement oldStatements :
  is_Some (st_identifiers newStatement) ->
  exists r, replacedStatements newStatement oldStatements = Ok r.
Proof.
  intros Hids. unfold replacedStatements.
  rewrite filter_result_total; [simpl; eauto|].
  apply Forall_forall. intros old _.
  destruct (statementType_eqb _ _) eqn:Ht; [|eauto].
  apply statementType_eqb_eq in Ht.
  rewrite matchingIdentifiers_same_type; eauto.
Qed.

Lemma replaced_ids_in_old (r : list string) kept (oldStatements : list statement)
    (f : statement -> bool) :
  kept = List.filter f oldStatements ->
  r = List.map st_statementID kept ->
  forall i, In i r -> exists old, In old oldStatements /\ st_statementID old = i.
Proof.
  intros -> -> i Hi. apply in_map_iff in Hi as (old & <- & Hin).
  apply filter_In in Hin as [Hin _]. eauto.
Qed.

(** *** The relational match *)

Lemma replacedOwnershipStatements_Ok newStatement newInterestedParty newSubject
    oldStatements r :
  st_statementType newStatement = OwnershipOrControlStatement ->
  replacedOwnershipStatements newStatement newInterestedParty newSubject oldStatements
    = Ok r ->
  r = List.map st_statementID
        (List.filter (both_sides_match newInterestedParty newSubject oldStatements)
                     oldStatements).
Proof.
  intros Hty Hr. unfold replacedOwnershipStatements in Hr. rewrite Hty in Hr.
  apply map_result_Ok in Hr as (kept & Hf & ->).
  apply filter_result_Ok in Hf as [-> Hall]. f_equal.
  apply List.filter_ext_in. intros s Hin. unfold accepts.
  rewrite Forall_forall in Hall.
  destruct (Hall s) as [b Hb]; [by apply list_elem_of_In|].
  rewrite Hb. revert Hb. unfold both_sides_match, st_statementType.
  destruct (st_shape s) as [e|p|o]; simpl; [by intros [= <-]..|].
  destruct (matchingIdentifiers newInterestedParty _) as [[|]|e] eqn:Hip;
    [| |discriminate].
  - apply matchingIdentifiers_true in Hip as (oldIP & -> & ->).
    intros Hsub. apply matchingIdentifiers_Ok in Hsub as ->.
    destruct (find_statement (subject o) oldStatements); simpl; [|done].
    by destruct (identifiers_match newSubject _).
  - intros [= <-]. apply matchingIdentifiers_Ok in Hip.
    destruct (find_statement (interestedParty o) oldStatements); [|done].
    rewrite <- Hip. by destruct (find_statement (subject o) oldStatements).
Qed.

Lemma replacedOwnershipStatements_Throw newStatement newInterestedParty newSubject
    oldStatements s o e :
  st_statementType newStatement = OwnershipOrControlStatement ->
  In s oldStatements ->
  st_shape s = Ownership o ->
  match matchingIdentifiers newInterestedParty
          (find_statement (interestedParty o) oldStatements) with
  | Throw e' => e' = e
  | Ok true => matchingIdentifiers newSubject
                 (find_statement (subject o) oldStatements) = Throw e
  | Ok false => False
  end ->
  exists e', replacedOwnershipStatements newStatement newInterestedParty newSubject
               oldStatements = Throw e'.
Proof.
  intros Hty Hin Hsh Hthrow. unfold replacedOwnershipStatements.
  destruct (filter_result_Throw
              (fun s =>
                 if statementType_eqb (st_statementType s) (st_statementType newStatement)
                 then
                   match st_shape s with
                   | Ownership o =>
                       match matchingIdentifiers newInterestedParty
                               (find_statement (interestedParty o) oldStatements) with
                       | Throw e => Throw e
                       | Ok false => Ok false
                       | Ok true => matchingIdentifiers newSubject
                                      (find_statement (subject o) oldStatements)
                       end
                   | _ => Throw (TypeError "s.interestedParty is undefined")
                   end
                 else Ok false) oldStatements s e Hin) as [e' ->]; [|simpl; eauto].
  rewrite Hty. unfold st_statementType. rewrite Hsh. simpl.
  destruct (matchingIdentifiers newInterestedParty _) as [[|]|e1]; [done..|by subst].
Qed.

(** *** The store *)

Lemma update_last_Ok (f : statement -> statement) objs s w w' u :
  statement_objects w = objs ++ [s] ->
  update (length objs) f w = Ok (u, w') ->
  statement_objects w' = objs ++ [f s]
  /\ interest_objects w' = interest_objects w
  /\ uuid_calls w' = uuid_calls w
  /\ date_calls w' = date_calls w.
Proof.
  intros Hobjs. unfold update. rewrite Hobjs.
  rewrite lookup_app_r, Nat.sub_diag by lia. simpl.
  intros [= _ <-]. simpl. split; [|done].
  rewrite insert_app_r_alt, Nat.sub_diag by lia. done.
Qed.

Lemma lookup_stable (objs ext : list statement) (ls : list loc) (ss ss' : list statement) :
  Forall2 (fun l s => objs !! l = Some s) ls ss ->
  Forall2 (fun l s => (objs ++ ext) !! l = Some s) ls ss' ->
  ss' = ss.
Proof.
  intros H1. revert ss'. induction H1 as [|l s ls ss Hl _ IH]; intros ss' H2.
  - by inversion H2.
  - inversion H2 as [|? s' ? ss2 Hl' H2']; subst. f_equal; [|by apply IH].
    rewrite (lookup_app_l_Some _ _ _ _ Hl) in Hl'. congruence.
Qed.

Section Deriver_facts.

Context `{Libraries}.

Lemma mapCompanyStatement_Ok data companyLocation sourceData w l w' :
  mapCompanyStatement data companyLocation sourceData w = Ok (l, w') ->
  exists s,
    allocated w l s w'
    /\ st_statementID s = statementID (VArr [VObj data; companyLocation])
    /\ st_statementType s = EntityStatement
    /\ st_replacesStatements s = None.
Proof.
  unfold mapCompanyStatement, source, publicationDetails, new_Date_toISOString,
    new_statement, bind, ret. simpl.
  intros [= <- <-]. eexists. by repeat split.
Qed.

Lemma mapPersonStatement_Ok data sourceData w l w' :
  mapPersonStatement data sourceData w = Ok (l, w') ->
  exists s,
    allocated w l s w'
    /\ st_statementID s
       = statementID (VArr [VObj (JS.own data); VObj (JS.own sourceData)])
    /\ st_statementType s = PersonStatement
    /\ st_replacesStatements s = None.
Proof.
  unfold mapPersonStatement. intros Hm.
  apply bind_Ok in Hm as (country_code & w1 & Hcc & Hm).
  assert (w1 = w) as ->.
  { destruct (JS.strict_eq _ _).
    - apply bind_Ok in Hcc as (n & w2 & Hn & Hcc).
      apply lift_Ok in Hn as [_ ->]. by apply ret_Ok in Hcc as [_ ->].
    - by apply ret_Ok in Hcc as [_ ->]. }
  apply bind_Ok in Hm as (jenis_identitas & w1 & Hji & Hm).
  apply lift_Ok in Hji as [_ ->].
  apply bind_Ok in Hm as (addr & w1 & Haddr & Hm).
  apply lift_Ok in Haddr as [_ ->].
  revert Hm.
  unfold source, publicationDetails, new_Date_toISOString, new_statement, bind, ret.
  simpl. intros [= <- <-]. eexists. by repeat split.
Qed.

Lemma mapOwnershipOrControlStatement_Ok companyStatement personStatement data
    sourceData w l w' :
  mapOwnershipOrControlStatement companyStatement personStatement data sourceData w
    = Ok (l, w') ->
  exists s c p o,
    allocated w l s w'
    /\ statement_objects w !! companyStatement = Some c
    /\ statement_objects w !! personStatement = Some p
    /\ st_statementID s =
         statementID (VArr [VStr (st_statementID c); VStr (st_statementID p);
                            data; VObj (JS.own sourceData)])
    /\ st_shape s = Ownership o
    /\ subject o = st_statementID c
    /\ interestedParty o = st_statementID p
    /\ st_replacesStatements s = None.
Proof.
  unfold mapOwnershipOrControlStatement. intros Hm.
  apply bind_Ok in Hm as (c & w1 & Hc & Hm). apply load_Ok in Hc as [Hc ->].
  apply bind_Ok in Hm as (p & w1 & Hp & Hm). apply load_Ok in Hp as [Hp ->].
  apply bind_Ok in Hm as (d & w1 & Hd & Hm). apply lift_Ok in Hd as [_ ->].
  revert Hm.
  unfold source, publicationDetails, new_Date_toISOString, new_statement,
    new_interest, bind, ret.
  simpl. intros [= <- <-]. eexists _, c, p, _. by repeat split.
Qed.

End Deriver_facts.

(** *** Deduplication *)

Lemma fresh_positions_snoc seen ids i base :
  fresh_positions seen (ids ++ [i]) base =
  fresh_positions seen ids base
  ++ (if bool_decide (i ∈ seen ∪ list_to_set ids) then [] else [base + length ids]).
Proof.
  revert seen base. induction ids as [|a ids IH]; intros seen base; simpl.
  - rewrite Nat.add_0_r.
    rewrite (bool_decide_ext (i ∈ seen ∪ ∅) (i ∈ seen)) by set_solver.
    by destruct (bool_decide (i ∈ seen)).
  - destruct (bool_decide (a ∈ seen)) eqn:Ha.
    + apply bool_decide_eq_true in Ha. rewrite IH.
      rewrite (bool_decide_ext (i ∈ seen ∪ ({[a]} ∪ list_to_set ids))
                               (i ∈ seen ∪ list_to_set ids)) by set_solver.
      by rewrite Nat.add_succ_r.
    + rewrite IH. simpl.
      rewrite (bool_decide_ext (i ∈ seen ∪ ({[a]} ∪ list_to_set ids))
                               (i ∈ {[a]} ∪ seen ∪ list_to_set ids)) by set_solver.
      by rewrite Nat.add_succ_r.
Qed.

Lemma fresh_positions_bounds seen ids base n :
  In n (fresh_positions seen ids base) -> base <= n < base + length ids.
Proof.
  revert seen base. induction ids as [|a ids IH]; intros seen base; simpl; [done|].
  destruct (bool_decide (a ∈ seen)).
  - intros Hn%IH. lia.
  - intros [<-|Hn%IH]; lia.
Qed.

(** A position is let through exactly when its identifier is neither seen
    nor carried by an earlier position. *)
Lemma fresh_positions_spec seen ids base k i :
  ids !! k = Some i ->
  In (base + k) (fresh_positions seen ids base) <->
  ((i ∉ seen) /\ forall j, j < k -> ids !! j <> Some i).
Proof.
  revert seen base k. induction ids as [|a ids IH]; intros seen base k Hk; [done|].
  simpl. destruct k as [|k]; simpl in Hk.
  - injection Hk as ->. rewrite Nat.add_0_r.
    destruct (bool_decide (i ∈ seen)) eqn:Hi.
    + apply bool_decide_eq_true in Hi. split; [|tauto].
      intros Hin%fresh_positions_bounds. lia.
    + apply bool_decide_eq_false in Hi. split; [|by left].
      intros _. split; [done|]. intros j Hj. lia.
  - assert (base + S k = S base + k) as -> by lia.
    destruct (bool_decide (a ∈ seen)) eqn:Ha.
    + apply bool_decide_eq_true in Ha. rewrite (IH seen (S base) k Hk).
      split; intros [Hi Hj]; (split; [done|]).
      * intros [|j] Hlt; simpl; [congruence|]. apply Hj. lia.
      * intros j Hlt. apply (Hj (S j)). lia.
    + apply bool_decide_eq_false in Ha. simpl.
      rewrite (IH ({[a]} ∪ seen) (S base) k Hk). split.
      * intros [Heq|[Hi Hj]]; [lia|]. split; [set_solver|].
        intros [|j] Hlt; simpl; [intros [= ->]; set_solver|]. apply Hj. lia.
      * intros [Hi Hj]. right. split.
        -- assert (a <> i) by (intros ->; by apply (Hj 0); [lia|]). set_solver.
        -- intros j Hlt. apply (Hj (S j)). lia.
Qed.

Lemma fresh_positions_NoDup seen ids base : NoDup (fresh_positions seen ids base).
Proof.
  revert seen base. induction ids as [|a ids IH]; intros seen base; simpl.
  - constructor.
  - destruct (bool_decide (a ∈ seen)); [apply IH|].
    constructor; [|apply IH].
    intros Hin%list_elem_of_In%fresh_positions_bounds. lia.
Qed.

(** *** The candidates of one transaction *)

Lemma push_candidate_staging seen0 prevIDs objs0 cands st w prev olds replaced s x w1
    st' w2 :
  staging seen0 prevIDs objs0 cands st w ->
  allocated w x s w1 ->
  st_replacesStatements s = None ->
  Forall2 (fun l o => objs0 !! l = Some o) prev olds ->
  (forall r, replaced s olds = Ok r -> forall i, In i r -> In i prevIDs) ->
  push_candidate prev replaced x st w1 = Ok (st', w2) ->
  exists s',
    staging seen0 prevIDs objs0 (cands ++ [s']) st' w2
    /\ st_statementID s' = st_statementID s
    /\ st_shape s' = st_shape s
    /\ uuid_calls w2 = uuid_calls w1.
Proof.
  intros [Hobjs Htxs Hnews Hseen Hrep] (-> & Hobjs1 & Huuid) Hnone Hprev Hreplaced Hpush.
  unfold push_candidate in Hpush.
  apply bind_Ok in Hpush as (s0 & w' & Hload & Hpush). apply load_Ok in Hload as [Hs0 ->].
  rewrite Hobjs1, lookup_app_r, Nat.sub_diag in Hs0 by lia. injection Hs0 as <-.
  assert (Hlen : length (statement_objects w) = length objs0 + length cands)
    by (by rewrite Hobjs, length_app).
  assert (Htxs' : transactionStatements st ++ [length (statement_objects w)]
                  = seq (length objs0) (length (cands ++ [s]))).
  { rewrite Htxs, Hlen, length_app. simpl. by rewrite Nat.add_1_r, seq_S. }
  assert (Hold : forall k s1, k < length cands -> (cands ++ [s]) !! k = Some s1 ->
                 cands !! k = Some s1).
  { intros k s1 Hk. by rewrite lookup_app_l. }
  destruct (bool_decide (st_statementID s ∈ seenStatementIds st)) eqn:Hdec.
  - apply bool_decide_eq_true in Hdec. apply ret_Ok in Hpush as [<- <-].
    exists s. split; [|done]. rewrite Hseen in Hdec.
    assert (Hnews' : newStatements st =
              fresh_positions seen0 (List.map st_statementID (cands ++ [s])) (length objs0)).
    { rewrite map_app. simpl. rewrite fresh_positions_snoc.
      rewrite bool_decide_eq_true_2 by done. by rewrite app_nil_r. }
    split; simpl.
    + by rewrite Hobjs1, Hobjs, <- app_assoc.
    + done.
    + done.
    + rewrite Hseen, map_app, list_to_set_app_L. simpl. set_solver.
    + intros k s1 Hk. destruct (decide (k < length cands)) as [Hlt|Hge].
      * by apply Hrep, Hold.
      * rewrite lookup_app_r in Hk by lia.
        destruct (k - length cands) as [|n] eqn:Hn; [|by destruct n].
        injection Hk as <-. rewrite Hnone, Hnews.
        intros Hin%fresh_positions_bounds. rewrite length_map in Hin. lia.
  - apply bool_decide_eq_false in Hdec.
    apply bind_Ok in Hpush as (olds' & w' & Holds & Hpush).
    apply load_all_Ok in Holds as [Holds ->].
    rewrite Hobjs1, Hobjs, <- app_assoc in Holds.
    apply (lookup_stable _ _ _ _ _ Hprev) in Holds as ->.
    apply bind_Ok in Hpush as (r & w' & Hr & Hpush). apply lift_Ok in Hr as [Hr ->].
    apply bind_Ok in Hpush as ([] & w' & Hupd & Hpush).
    apply (update_last_Ok _ _ _ _ _ _ Hobjs1) in Hupd as (Hobjs2 & _ & Huuid2 & _).
    apply ret_Ok in Hpush as [<- <-].
    exists (set_replacesStatements r s). split; [|by rewrite Huuid2].
    rewrite Hseen in Hdec.
    assert (Hnews' : newStatements st ++ [length (statement_objects w)] =
              fresh_positions seen0
                (List.map st_statementID (cands ++ [set_replacesStatements r s]))
                (length objs0)).
    { rewrite map_app. simpl. rewrite fresh_positions_snoc.
      rewrite bool_decide_eq_false_2 by done. by rewrite Hnews, Hlen, length_map. }
    split; simpl.
    + by rewrite Hobjs2, Hobjs, <- app_assoc.
    + rewrite !length_app in Htxs' |- *. exact Htxs'.
    + exact Hnews'.
    + rewrite Hseen, map_app, list_to_set_app_L. simpl. set_solver.
    + intros k s1 Hk. destruct (decide (k < length cands)) as [Hlt|Hge].
      * rewrite lookup_app_l in Hk by done. specialize (Hrep k s1 Hk).
        destruct (st_replacesStatements s1).
        -- destruct Hrep as [Hin Hsub]. split; [|done]. apply in_or_app. by left.
        -- intros [Hin|[Heq|[]]]%in_app_or; [done|lia].
      * rewrite lookup_app_r in Hk by lia.
        destruct (k - length cands) as [|n] eqn:Hn; [|by destruct n].
        injection Hk as <-. simpl. split; [|by eapply Hreplaced].
        apply in_or_app. right. left. lia.
Qed.

Section Transaction_facts.

Context `{Libraries}.

Lemma owner_step_staging seen0 prevIDs objs0 cands st w prev olds companyStatement c
    sourceData bo_datum st' w' :
  staging seen0 prevIDs objs0 cands st w ->
  Forall2 (fun l o => objs0 !! l = Some o) prev olds ->
  prevIDs = List.map st_statementID olds ->
  companyStatement = length objs0 ->
  cands !! 0 = Some c ->
  owner_step prev companyStatement sourceData st bo_datum w = Ok (st', w') ->
  exists p o fields,
    staging seen0 prevIDs objs0 (cands ++ [p; o]) st' w'
    /\ st_statementID p = person_id sourceData bo_datum
    /\ st_statementType p = PersonStatement
    /\ st_statementID o = ownership_id (st_statementID c) sourceData bo_datum
    /\ st_shape o = Ownership fields
    /\ subject fields = st_statementID c
    /\ interestedParty fields = st_statementID p
    /\ uuid_calls w' = uuid_calls w.
Proof.
  intros Hst Hprev -> -> Hc Hstep. unfold owner_step in Hstep.
  apply bind_Ok in Hstep as (personStatement & w1 & Hmap & Hstep).
  apply mapPersonStatement_Ok in Hmap as (p0 & Halloc & Hpid & Hpty & Hpnone).
  pose proof Halloc as (_ & _ & Hu1).
  apply bind_Ok in Hstep as (st1 & w2 & Hpush & Hstep).
  eapply push_candidate_staging in Hpush as (p & Hst1 & Hpid' & Hpsh & Hu2); eauto;
    cycle 1.
  { intros r Hr%replacedStatements_Ok i Hi.
    eapply replaced_ids_in_old in Hi as (old & Hold & <-); eauto.
    by apply in_map. }
  apply bind_Ok in Hstep as (ownershipOrControlStatement & w3 & Hmap & Hstep).
  apply mapOwnershipOrControlStatement_Ok in Hmap
    as (o0 & c' & p' & fields & Halloc' & Hc' & Hp' & Hoid & Hosh & Hsubj & Hip & Honone).
  pose proof Halloc' as (_ & Hobjs3 & Hu3).
  pose proof (sg_objects _ _ _ _ _ _ Hst1) as Hobjs2.
  destruct Halloc as (-> & Hobjs1 & _).
  pose proof (sg_objects _ _ _ _ _ _ Hst) as Hobjs.
  assert (c' = c) as ->.
  { rewrite Hobjs2 in Hc'. rewrite lookup_app_r in Hc' by lia.
    rewrite Nat.sub_diag in Hc'. rewrite lookup_app_l in Hc'; [congruence|].
    apply lookup_lt_Some in Hc. lia. }
  assert (p' = p) as ->.
  { rewrite Hobjs2, Hobjs in Hp'. rewrite length_app in Hp'.
    rewrite lookup_app_r in Hp' by lia.
    rewrite lookup_app_r in Hp' by lia.
    replace (length objs0 + length cands - length objs0 - length cands) with 0 in Hp'
      by lia.
    by injection Hp' as <-. }
  apply bind_Ok in Hstep as (p1 & w4 & Hl1 & Hstep). apply load_Ok in Hl1 as [_ ->].
  apply bind_Ok in Hstep as (c1 & w4 & Hl2 & Hstep). apply load_Ok in Hl2 as [_ ->].
  eapply push_candidate_staging in Hstep as (o & Hst2 & Hoid' & Hosh' & Hu4); eauto;
    cycle 1.
  { intros r Hr i Hi.
    apply replacedOwnershipStatements_Ok in Hr;
      [|by unfold st_statementType; rewrite Hosh].
    eapply replaced_ids_in_old in Hi as (old & Hold & <-); eauto.
    by apply in_map. }
  exists p, o, fields. rewrite <- app_assoc in Hst2. simpl in Hst2.
  split; [done|]. unfold person_id, ownership_id, personData_of.
  split; [congruence|]. split; [by unfold st_statementType in *; rewrite Hpsh|].
  split; [by rewrite Hoid', Hoid, Hpid', Hpid|].
  split; [congruence|]. split; [done|]. split; [done|]. congruence.
Qed.

Lemma owners_staging seen0 prevIDs objs0 prev olds companyStatement c sourceData
    data_bo :
  Forall2 (fun l o => objs0 !! l = Some o) prev olds ->
  prevIDs = List.map st_statementID olds ->
  companyStatement = length objs0 ->
  forall cands st w st' w',
    staging seen0 prevIDs objs0 cands st w ->
    cands !! 0 = Some c ->
    references_resolve cands ->
    forEach (owner_step prev companyStatement sourceData) data_bo st w = Ok (st', w') ->
    exists added,
      staging seen0 prevIDs objs0 (cands ++ added) st' w'
      /\ List.map st_statementID added = owner_ids (st_statementID c) sourceData data_bo
      /\ List.map st_statementType added = owner_types data_bo
      /\ references_resolve (cands ++ added)
      /\ uuid_calls w' = uuid_calls w.
Proof.
  intros Hprev HprevIDs Hcomp.
  induction data_bo as [|bo data_bo IH]; intros cands st w st' w' Hst Hc Hrefs Hloop;
    simpl in Hloop.
  - apply ret_Ok in Hloop as [<- <-]. exists []. by rewrite app_nil_r.
  - apply bind_Ok in Hloop as (st1 & w1 & Hstep & Hloop).
    eapply owner_step_staging in Hstep
      as (p & o & fields & Hst1 & Hpid & Hpty & Hoid & Hosh & Hsubj & Hip & Hu1); eauto.
    eapply IH in Hloop as (added & Hst2 & Hids & Htys & Hrefs2 & Hu2); eauto; cycle 1.
    { by rewrite lookup_app_l by (apply lookup_lt_Some in Hc; done). }
    { intros s fs [Hs|[<-|[<-|[]]]]%in_app_or Hsh; rewrite map_app, !in_app_iff.
      - destruct (Hrefs s fs Hs Hsh). auto.
      - unfold st_statementType in Hpty. by rewrite Hsh in Hpty.
      - rewrite Hosh in Hsh. injection Hsh as <-. rewrite Hsubj, Hip. split.
        + left. apply in_map. apply list_elem_of_In, list_elem_of_lookup. eauto.
        + right. by left. }
    exists (p :: o :: added). rewrite <- app_assoc in Hst2, Hrefs2. simpl in Hst2, Hrefs2.
    split; [done|]. unfold owner_ids, owner_types. simpl.
    split; [by rewrite Hpid, Hoid; f_equal; f_equal|].
    split; [|split; [done|congruence]].
    rewrite Hpty. f_equal. unfold st_statementType. rewrite Hosh. by f_equal.
Qed.

(** *** The closure pass *)

Lemma call_uuidv4_Ok u w w' :
  call_uuidv4 w = Ok (u, w') ->
  u = uuidv4 (uuid_calls w)
  /\ statement_objects w' = statement_objects w
  /\ uuid_calls w' = S (uuid_calls w).
Proof. unfold call_uuidv4. by intros [= <- <-]. Qed.

Lemma end_interest_Ok (e : statement) u w w' :
  match st_shape e with
  | Ownership o =>
      match interests o with
      | i :: _ =>
          let* now := new_Date_toISOString in
          update_interest i (set_endDate (JS.before_T now))
      | [] => throw (TypeError "endingStatement.interests[0] is undefined")
      end
  | _ => throw (TypeError "endingStatement.interests is undefined")
  end w = Ok (u, w') ->
  statement_objects w' = statement_objects w /\ uuid_calls w' = uuid_calls w.
Proof.
  destruct (st_shape e) as [| |o]; [done..|]. destruct (interests o) as [|i ?]; [done|].
  unfold bind, new_Date_toISOString, update_interest. simpl.
  destruct (interest_objects w !! i); [|done]. by intros [= _ <-].
Qed.

Lemma ownerships_Ok xs ys w w' :
  ownerships xs w = Ok (ys, w') ->
  w' = w
  /\ forall l, In l ys <->
               (In l xs /\ exists s, statement_objects w !! l = Some s
                                    /\ st_statementType s = OwnershipOrControlStatement).
Proof.
  revert ys w'. induction xs as [|x xs IH]; intros ys w' Ho; simpl in Ho.
  - apply ret_Ok in Ho as [<- <-]. split; [done|]. intros l. simpl. tauto.
  - apply bind_Ok in Ho as (s & w1 & Hs & Ho). apply load_Ok in Hs as [Hs ->].
    apply bind_Ok in Ho as (zs & w1 & Hzs & Ho). apply IH in Hzs as [-> Hzs].
    apply ret_Ok in Ho as [<- <-]. split; [done|]. intros l.
    destruct (statementType_eqb _ _) eqn:Hty; simpl; rewrite Hzs.
    + apply statementType_eqb_eq in Hty. split.
      * intros [<-|[Hin Hex]]; [|by auto]. split; [by left|eauto].
      * intros [[<-|Hin] Hex]; [by left|by right].
    + split; [intros [Hin Hex]; by auto|].
      intros [[<-|Hin] (s' & Hs' & Hty')]; [|by eauto].
      rewrite Hs in Hs'. injection Hs' as <-. rewrite Hty' in Hty. done.
Qed.

Lemma load_candidates objs0 (cands ext ts : list statement) :
  Forall2 (fun l s => (objs0 ++ cands ++ ext) !! l = Some s)
          (seq (length objs0) (length cands)) ts ->
  ts = cands.
Proof.
  intros Hts. apply list_eq. intros k.
  destruct (decide (k < length cands)) as [Hlt|Hge].
  - destruct (lookup_lt_is_Some_2 cands k Hlt) as [s Hs].
    pose proof (Forall2_length _ _ _ Hts) as Hlen. rewrite length_seq in Hlen.
    destruct (lookup_lt_is_Some_2 ts k) as [t Ht]; [lia|].
    pose proof (Forall2_lookup_lr _ _ _ k (length objs0 + k) t Hts) as Hk.
    rewrite lookup_seq in Hk. specialize (Hk (conj eq_refl Hlt) Ht).
    rewrite lookup_app_r in Hk by lia.
    replace (length objs0 + k - length objs0) with k in Hk by lia.
    rewrite lookup_app_l in Hk by done. congruence.
  - pose proof (Forall2_length _ _ _ Hts) as Hlen. rewrite length_seq in Hlen.
    rewrite !lookup_ge_None_2; [done|lia..].
Qed.

Lemma close_if_ended_closing olds cands objs0 newsM closings news w ps p news' w' :
  closing olds cands (objs0 ++ cands) newsM closings news w ->
  objs0 !! ps = Some p ->
  In p olds ->
  st_statementType p = OwnershipOrControlStatement ->
  close_if_ended (seq (length objs0) (length cands)) news ps w = Ok (news', w') ->
  exists added,
    closing olds cands (objs0 ++ cands) newsM (closings ++ added) news' w'
    /\ (In (st_statementID p) (List.map st_statementID cands)
        \/ (exists s, In s cands /\ replaces (st_statementID p) s = true)
        \/ (exists c, In c added /\ closes p c)).
Proof.
  intros [Hobjs Hnews Heach] Hps Hin Hty Hclose. unfold close_if_ended in Hclose.
  apply bind_Ok in Hclose as (p' & w1 & Hp & Hclose). apply load_Ok in Hp as [Hp ->].
  rewrite Hobjs, <- app_assoc in Hp.
  rewrite (lookup_app_l_Some _ _ _ _ Hps) in Hp. injection Hp as <-.
  apply bind_Ok in Hclose as (ts & w1 & Hts & Hclose).
  apply load_all_Ok in Hts as [Hts ->].
  rewrite Hobjs, <- app_assoc in Hts. apply load_candidates in Hts as ->.
  destruct (existsb _ cands || existsb _ cands) eqn:Hcov.
  - apply ret_Ok in Hclose as [<- <-]. exists []. rewrite app_nil_r.
    split; [done|]. apply orb_true_iff in Hcov as [Hc|Hc];
      apply existsb_exists in Hc as (s & Hs & Hc).
    + left. apply String.eqb_eq in Hc as <-. by apply in_map.
    + right. left. eauto.
  - apply orb_false_iff in Hcov as [Hid Hrep].
    apply bind_Ok in Hclose as (x & w1 & Hnew & Hclose).
    unfold new_statement in Hnew. injection Hnew as <- <-.
    apply bind_Ok in Hclose as (u & w2 & Hu & Hclose).
    apply call_uuidv4_Ok in Hu as (-> & Hobjs2 & _). simpl in Hobjs2.
    apply bind_Ok in Hclose as ([] & w3 & Hupd & Hclose).
    apply (update_last_Ok _ _ _ _ _ _ Hobjs2) in Hupd as (Hobjs3 & _).
    apply bind_Ok in Hclose as (e & w4 & He & Hclose). apply load_Ok in He as [_ ->].
    apply bind_Ok in Hclose as ([] & w4 & Hend & Hclose).
    apply end_interest_Ok in Hend as [Hobjs4 _]. rewrite Hobjs3 in Hobjs4.
    apply bind_Ok in Hclose as ([] & w5 & Hupd & Hclose).
    apply (update_last_Ok _ _ _ _ _ _ Hobjs4) in Hupd as (Hobjs5 & _).
    apply ret_Ok in Hclose as [<- <-].
    set (c := set_replacesStatements _ _) in Hobjs5.
    assert (Hc : closes p c) by (by eexists).
    exists [c]. split; [|right; right; exists c; split; [by left|done]].
    split.
    + by rewrite Hobjs5, Hobjs, <- app_assoc.
    + rewrite Hnews, Hobjs, <- app_assoc, (length_app closings). simpl.
      rewrite Nat.add_1_r, seq_S. by rewrite (length_app (objs0 ++ cands)).
    + apply Forall_app. split; [done|]. constructor; [|done].
      exists p. split; [done|]. split; [done|]. split; [done|]. split.
      * intros (s & Hs & Hs')%in_map_iff.
        assert (existsb (fun s => String.eqb (st_statementID s) (st_statementID p))
                        cands = true) as Hex; [|congruence].
        apply existsb_exists. exists s. split; [done|]. by apply String.eqb_eq.
      * intros s Hs. destruct (replaces (st_statementID p) s) eqn:Hr; [|done].
        assert (existsb (replaces (st_statementID p)) cands = true) as Hex;
          [|congruence].
        apply existsb_exists. eauto.
Qed.

Lemma closure_loop olds cands objs0 newsM ended :
  forall closings news w news' w',
    closing olds cands (objs0 ++ cands) newsM closings news w ->
    Forall (fun ps => exists p, objs0 !! ps = Some p /\ In p olds
                                /\ st_statementType p = OwnershipOrControlStatement)
           ended ->
    forEach (close_if_ended (seq (length objs0) (length cands))) ended news w
      = Ok (news', w') ->
    exists added,
      closing olds cands (objs0 ++ cands) newsM (closings ++ added) news' w'
      /\ forall ps p, In ps ended -> objs0 !! ps = Some p ->
                      covered p cands (closings ++ added).
Proof.
  induction ended as [|ps ended IH]; intros closings news w news' w' Hcl Hended Hloop;
    simpl in Hloop.
  - apply ret_Ok in Hloop as [<- <-]. exists []. rewrite app_nil_r. by split.
  - apply bind_Ok in Hloop as (news1 & w1 & Hstep & Hloop).
    inversion Hended as [|? ? (p & Hp & Hin & Hty) Hended']; subst.
    eapply close_if_ended_closing in Hstep as (added1 & Hcl1 & Hcov1); eauto.
    eapply IH in Hloop as (added2 & Hcl2 & Hcov2); eauto.
    exists (added1 ++ added2). rewrite app_assoc. split; [done|].
    intros ps' p' [<-|Hin'] Hp'.
    + rewrite Hp in Hp'. injection Hp' as <-.
      destruct Hcov1 as [?|[?|(c & Hc & Hcl')]]; [by left|by right; left|].
      right. right. exists c. split; [|done].
      apply in_or_app. left. apply in_or_app. by right.
    + by eapply Hcov2.
Qed.

Lemma Forall2_lookup_In (objs : list statement) prev olds :
  Forall2 (fun l o => objs !! l = Some o) prev olds ->
  (forall l, In l prev -> exists o, objs !! l = Some o /\ In o olds)
  /\ (forall o, In o olds -> exists l, In l prev /\ objs !! l = Some o).
Proof.
  induction 1 as [|l o prev olds Hl _ [IH1 IH2]]; [by split|]. split.
  - intros l' [<-|Hin]; [exists o; split; [done|by left]|].
    destruct (IH1 l' Hin) as (o' & ? & ?). exists o'. split; [done|by right].
  - intros o' [<-|Hin]; [exists l; split; [by left|done]|].
    destruct (IH2 o' Hin) as (l' & ? & ?). exists l'. split; [by right|done].
Qed.

Lemma transaction_step_facts companyLocation seen prev olds transaction w r w' :
  Forall2 (fun l o => statement_objects w !! l = Some o) prev olds ->
  transaction_step companyLocation seen prev transaction w = Ok (r, w') ->
  exists t cands closings,
    transaction = VObj t
    /\ step_facts companyLocation seen olds t w r w' cands closings.
Proof.
  intros Hprev Hstep. unfold transaction_step in Hstep.
  destruct transaction as [| | | | | |t]; try discriminate Hstep.
  fold (sourceData_of (VObj t)) in Hstep.
  apply bind_Ok in Hstep as (companyStatement & w1 & Hmap & Hstep).
  apply mapCompanyStatement_Ok in Hmap as (c0 & Halloc & Hcid & Hcty & Hcnone).
  pose proof Halloc as (Hx & _ & _).
  apply bind_Ok in Hstep as (st1 & w2 & Hpush & Hstep).
  eapply (push_candidate_staging seen (List.map st_statementID olds)
            (statement_objects w) [] _ w) in Hpush
    as (c & Hst1 & Hcid' & Hcsh & _); eauto; cycle 1.
  { split; simpl.
    - by rewrite app_nil_r.
    - done.
    - done.
    - by rewrite union_empty_r_L.
    - done. }
  { intros rr Hr%replacedStatements_Ok i Hi.
    eapply replaced_ids_in_old in Hi as (old & Hold & <-); eauto.
    by apply in_map. }
  simpl in Hst1.
  destruct (JS.get t "data_bo") as [| | | | |data_bo|] eqn:Hbo; try discriminate Hstep.
  apply bind_Ok in Hstep as (st2 & w3 & Hloop & Hstep).
  eapply (owners_staging seen _ _ prev olds companyStatement c) in Hloop
    as (added & Hst2 & Hids & Htys & Hrefs & _); eauto; cycle 1.
  { intros s fs [<-|[]] Hsh. unfold st_statementType in Hcty.
    rewrite <- Hcsh in Hcty. by rewrite Hsh in Hcty. }
  apply bind_Ok in Hstep as (ended & w4 & Hended & Hstep).
  apply ownerships_Ok in Hended as [-> Hended].
  apply bind_Ok in Hstep as (news & w4 & Hclose & Hstep).
  apply ret_Ok in Hstep as [<- <-].
  destruct Hst2 as [Hobjs Htxs Hnews Hseen Hrep].
  destruct (Forall2_lookup_In _ _ _ Hprev) as [Hprev1 Hprev2].
  rewrite Htxs in Hclose.
  eapply (closure_loop olds ([c] ++ added) (statement_objects w) (newStatements st2)
            ended []) in Hclose as (closings & [Hobjs' Hnews' Heach] & Hcov); cycle 1.
  { split; simpl; [by rewrite app_nil_r|by rewrite app_nil_r|done]. }
  { apply Forall_forall. intros ps (Hin & s & Hs & Hty)%list_elem_of_In%Hended.
    destruct (Hprev1 ps Hin) as (p & Hp & Hp').
    rewrite Hobjs, (lookup_app_l_Some _ _ _ _ Hp) in Hs. injection Hs as <-. eauto. }
  simpl in Hobjs', Hnews', Hcov.
  exists t, ([c] ++ added), closings. split; [done|].
  split; simpl.
  - by rewrite Hobjs', <- app_assoc.
  - done.
  - by rewrite Hnews', Hnews, length_app.
  - done.
  - assert (st_statementID c = company_id companyLocation t) as Hc
      by (unfold company_id; congruence).
    unfold candidate_ids. by rewrite Hbo, Hids, Hc.
  - exists data_bo. split; [done|]. rewrite Htys. f_equal.
    unfold st_statementType in *. by rewrite Hcsh.
  - intros k s Hk. specialize (Hrep k s Hk). by rewrite Hnews in Hrep.
  - done.
  - intros p Hin Hty. destruct (Hprev2 p Hin) as (ps & Hps & Hp).
    apply (Hcov ps p); [|done]. apply Hended. split; [done|].
    exists p. split; [|done]. rewrite Hobjs. by apply lookup_app_l_Some.
  - done.
Qed.

(** *** Runs *)

Lemma seq_lookup_app (objs0 cands ext : list statement) :
  Forall2 (fun l o => (objs0 ++ cands ++ ext) !! l = Some o)
          (seq (length objs0) (length cands)) cands.
Proof.
  apply Forall2_same_length_lookup_2; [by rewrite length_seq|].
  intros k l o Hl Ho. apply lookup_seq in Hl as [-> Hlt].
  rewrite lookup_app_r by lia.
  replace (length objs0 + k - length objs0) with k by lia.
  by rewrite lookup_app_l.
Qed.

Lemma step_facts_next companyLocation seen olds t w r w' cands closings :
  step_facts companyLocation seen olds t w r w' cands closings ->
  Forall2 (fun l o => statement_objects w' !! l = Some o)
          (step_transactionStatements r) cands.
Proof. intros [Hobjs Htxs _ _ _ _ _ _ _ _]. rewrite Hobjs, Htxs. apply seq_lookup_app. Qed.

Lemma trace_prefix companyLocation data_transaksi :
  forall seen prev olds w tr w',
    Forall2 (fun l o => statement_objects w !! l = Some o) prev olds ->
    trace_transactions companyLocation seen prev data_transaksi w = Ok (tr, w') ->
    statement_objects w `prefix_of` statement_objects w'.
Proof.
  induction data_transaksi as [|t ts IH]; intros seen prev olds w tr w' Hprev Htr;
    simpl in Htr.
  - by apply ret_Ok in Htr as [_ <-].
  - apply bind_Ok in Htr as (r & w1 & Hstep & Htr).
    apply bind_Ok in Htr as (tr' & w2 & Hrest & Htr). apply ret_Ok in Htr as [_ <-].
    eapply transaction_step_facts in Hstep as (t' & cands & closings & _ & Hf); eauto.
    pose proof (step_facts_next _ _ _ _ _ _ _ _ _ Hf) as Hnext.
    etrans; [|by eapply IH]. rewrite (sf_objects _ _ _ _ _ _ _ _ _ Hf).
    by apply prefix_app_r.
Qed.

Lemma trace_split companyLocation data_transaksi :
  forall seen prev olds w tr w' n r,
    Forall2 (fun l o => statement_objects w !! l = Some o) prev olds ->
    trace_transactions companyLocation seen prev data_transaksi w = Ok (tr, w') ->
    tr !! n = Some r ->
    exists t wn wn' oldsn cands closings,
      data_transaksi !! n = Some (VObj t)
      /\ transaction_step companyLocation (seen_before seen tr n) (prev_before prev tr n)
           (VObj t) wn = Ok (r, wn')
      /\ Forall2 (fun l o => statement_objects wn !! l = Some o)
                 (prev_before prev tr n) oldsn
      /\ step_facts companyLocation (seen_before seen tr n) oldsn t wn r wn'
                    cands closings
      /\ statement_objects w `prefix_of` statement_objects wn
      /\ statement_objects wn' `prefix_of` statement_objects w'
      /\ seen ⊆ seen_before seen tr n
      /\ trace_transactions companyLocation (step_seen r)
           (step_transactionStatements r) (drop (S n) data_transaksi) wn'
         = Ok (drop (S n) tr, w').
Proof.
  induction data_transaksi as [|t ts IH]; intros seen prev olds w tr w' n r Hprev Htr Hn;
    simpl in Htr.
  - apply ret_Ok in Htr as [<- _]. done.
  - apply bind_Ok in Htr as (r0 & w1 & Hstep & Htr).
    apply bind_Ok in Htr as (tr' & w2 & Hrest & Htr). apply ret_Ok in Htr as [<- <-].
    pose proof Hstep as Hstep'.
    eapply transaction_step_facts in Hstep' as (t' & cands & closings & -> & Hf); eauto.
    pose proof (step_facts_next _ _ _ _ _ _ _ _ _ Hf) as Hnext.
    destruct n as [|n]; simpl in Hn.
    + injection Hn as <-. exists t', w, w1, olds, cands, closings. simpl.
      split_and!; try done. by eapply trace_prefix.
    + destruct (IH _ _ _ _ _ _ _ _ Hnext Hrest Hn)
        as (tn & wn & wn' & oldsn & candsn & closingsn & Htn & Hstepn & Hprevn & Hfn
            & Hpre1 & Hpre2 & Hsub & Hsuffix).
      exists tn, wn, wn', oldsn, candsn, closingsn. simpl.
      split_and!; try done.
      * etrans; [|done]. rewrite (sf_objects _ _ _ _ _ _ _ _ _ Hf).
        by apply prefix_app_r.
      * etrans; [|done]. rewrite (sf_seen _ _ _ _ _ _ _ _ _ Hf).
        apply union_subseteq_l.
Qed.

Lemma flatMap_transactions_trace companyLocation data_transaksi :
  forall seen prev w,
    flatMap_transactions companyLocation seen prev data_transaksi w =
    match trace_transactions companyLocation seen prev data_transaksi w with
    | Ok (tr, w') => Ok (output tr, w')
    | Throw e => Throw e
    end.
Proof.
  induction data_transaksi as [|t ts IH]; intros seen prev w; simpl; [done|].
  unfold bind. destruct (transaction_step _ _ _ _ _) as [[r w1]|e]; [|done].
  rewrite IH. by destruct (trace_transactions _ _ _ _ _) as [[tr w2]|e].
Qed.

(** [statements] returns the concatenation of what the calls of the
    callback returned. *)
Lemma statements_output data w out w' :
  statements data w = Ok (out, w') <->
  exists tr, statements_trace data w = Ok (tr, w') /\ out = output tr.
Proof.
  unfold statements, statements_trace.
  destruct data as [| | | | | |d]; try (split; [done|by intros (? & ? & ?)]).
  destruct (JS.get d "data") as [| | | | | |dd]; try (split; [done|by intros (? & ? & ?)]).
  destruct (JS.get dd "data_transaksi") as [| | | | |ts|];
    try (split; [done|by intros (? & ? & ?)]).
  rewrite flatMap_transactions_trace.
  destruct (trace_transactions _ _ _ _ _) as [[tr w1]|e].
  - split; [intros [= <- <-]; eauto|]. by intros (tr' & [= <- <-] & ->).
  - split; [done|by intros (? & ? & ?)].
Qed.

Lemma statements_trace_inv data w tr w' :
  statements_trace data w = Ok (tr, w') ->
  exists companyLocation data_transaksi,
    companyLocation = companyLocation_of data
    /\ data_transaksi = data_transaksi_of data
    /\ trace_transactions companyLocation ∅ [] data_transaksi w = Ok (tr, w').
Proof.
  unfold statements_trace, companyLocation_of, data_transaksi_of.
  destruct data as [| | | | | |d]; try done.
  destruct (JS.get d "data") as [| | | | | |dd]; try done.
  destruct (JS.get dd "data_transaksi") as [| | | | |ts|]; try done. eauto.
Qed.

(** *** Reading the final store *)

Section Final_store.

Variables (companyLocation : value) (seen : gset string) (olds : list statement)
          (t : object) (w : world) (r : step) (w1 wf : world)
          (cands closings : list statement).
Hypothesis Hfacts : step_facts companyLocation seen olds t w r w1 cands closings.
Hypothesis Hfinal : statement_objects w1 `prefix_of` statement_objects wf.

Lemma final_candidate k s :
  cands !! k = Some s ->
  statement_at wf (length (statement_objects w) + k) = Some s.
Proof using Hfacts Hfinal.
  intros Hk. unfold statement_at. eapply prefix_lookup_Some; [|done].
  rewrite (sf_objects _ _ _ _ _ _ _ _ _ Hfacts).
  rewrite lookup_app_r by lia.
  replace (length (statement_objects w) + k - length (statement_objects w)) with k
    by lia.
  by apply lookup_app_l_Some.
Qed.

Lemma final_closing j c :
  closings !! j = Some c ->
  statement_at wf (length (statement_objects w) + length cands + j) = Some c.
Proof using Hfacts Hfinal.
  intros Hj. unfold statement_at. eapply prefix_lookup_Some; [|done].
  rewrite (sf_objects _ _ _ _ _ _ _ _ _ Hfacts).
  rewrite lookup_app_r by lia. rewrite lookup_app_r by lia.
  replace (length (statement_objects w) + length cands + j
           - length (statement_objects w) - length cands) with j by lia.
  done.
Qed.

Lemma final_candidate_ids :
  ids_at wf (step_transactionStatements r) =
  List.map Some (List.map st_statementID cands).
Proof using Hfacts Hfinal.
  rewrite (sf_txs _ _ _ _ _ _ _ _ _ Hfacts). unfold ids_at.
  apply list_eq. intros k. rewrite !list_lookup_fmap.
  destruct (decide (k < length cands)) as [Hlt|Hge].
  - rewrite lookup_seq_lt by done. simpl.
    destruct (lookup_lt_is_Some_2 cands k Hlt) as [s Hs].
    unfold id_at. rewrite (final_candidate k s Hs). by rewrite Hs.
  - rewrite lookup_seq_ge by lia. by rewrite lookup_ge_None_2 by lia.
Qed.

(** An emitted reference is a candidate that was let through or a
    closing statement. *)
Lemma emitted_cases x :
  In x (step_newStatements r) ->
  (exists k s, x = length (statement_objects w) + k
               /\ cands !! k = Some s
               /\ In x (fresh_positions seen (List.map st_statementID cands)
                                        (length (statement_objects w))))
  \/ (exists j c, x = length (statement_objects w) + length cands + j
                  /\ closings !! j = Some c).
Proof using Hfacts.
  rewrite (sf_news _ _ _ _ _ _ _ _ _ Hfacts).
  intros [Hin|Hin]%in_app_or.
  - left. pose proof (fresh_positions_bounds _ _ _ _ Hin) as Hb.
    rewrite length_map in Hb.
    destruct (lookup_lt_is_Some_2 cands (x - length (statement_objects w)))
      as [s Hs]; [lia|].
    exists (x - length (statement_objects w)), s. split; [lia|]. by split.
  - right. apply in_seq in Hin.
    destruct (lookup_lt_is_Some_2 closings
                (x - length (statement_objects w) - length cands))
      as [c Hc]; [lia|].
    exists (x - length (statement_objects w) - length cands), c. split; [lia|done].
Qed.

Lemma candidate_locs x :
  In x (step_transactionStatements r) <->
  length (statement_objects w) <= x < length (statement_objects w) + length cands.
Proof using Hfacts. rewrite (sf_txs _ _ _ _ _ _ _ _ _ Hfacts). apply in_seq. Qed.

Lemma emitted_locs x :
  In x (step_newStatements r) ->
  length (statement_objects w) <= x < length (statement_objects w1).
Proof using Hfacts.
  intros Hx. rewrite (sf_objects _ _ _ _ _ _ _ _ _ Hfacts), !length_app.
  destruct (emitted_cases x Hx) as [(k & s & -> & Hk%lookup_lt_Some & _)
                                   |(j & c & -> & Hj%lookup_lt_Some)]; lia.
Qed.

End Final_store.

Lemma final_previous objs (wf : world) prev oldsn :
  Forall2 (fun l o => objs !! l = Some o) prev oldsn ->
  objs `prefix_of` statement_objects wf ->
  (forall ps p, In ps prev -> statement_at wf ps = Some p -> In p oldsn)
  /\ (forall p, In p oldsn -> exists ps, In ps prev /\ statement_at wf ps = Some p).
Proof.
  intros Hprev Hpre. destruct (Forall2_lookup_In _ _ _ Hprev) as [H1 H2]. split.
  - intros ps p Hin Hp. destruct (H1 ps Hin) as (o & Ho & Hin').
    pose proof (prefix_lookup_Some _ _ _ _ Ho Hpre) as Ho'.
    unfold statement_at in Hp. congruence.
  - intros p Hin. destruct (H2 p Hin) as (ps & Hin' & Hps).
    exists ps. split; [done|]. unfold statement_at. by eapply prefix_lookup_Some.
Qed.

Lemma prev_before_S prev tr n a :
  tr !! n = Some a -> prev_before prev tr (S n) = step_transactionStatements a.
Proof.
  revert prev n. induction tr as [|r tr IH]; intros prev n Hn; [done|].
  destruct n as [|n]; simpl in *; [by injection Hn as ->|]. by apply IH.
Qed.

Lemma seen_before_S seen tr n a :
  tr !! n = Some a -> seen_before seen tr (S n) = step_seen a.
Proof.
  revert seen n. induction tr as [|r tr IH]; intros seen n Hn; [done|].
  destruct n as [|n]; simpl in *; [by injection Hn as ->|]. by apply IH.
Qed.

End Transaction_facts.

Section Run_facts.

Context `{Libraries}.

Lemma seen_before_drop seen tr n m rn :
  tr !! n = Some rn -> n < m ->
  seen_before seen tr m = seen_before (step_seen rn) (drop (S n) tr) (m - S n).
Proof.
  revert seen n m. induction tr as [|r tr IH]; intros seen n m Hn Hlt; [done|].
  destruct m as [|m]; [lia|]. destruct n as [|n]; simpl in Hn.
  - injection Hn as ->. simpl. by rewrite Nat.sub_0_r, drop_0.
  - simpl. apply IH; [done|lia].
Qed.

Lemma output_In tr x :
  In x (output tr) <-> exists n r, tr !! n = Some r /\ In x (step_newStatements r).
Proof.
  unfold output. rewrite in_concat. split.
  - intros (l & Hl & Hx). apply in_map_iff in Hl as (r & <- & Hr).
    apply list_elem_of_In, list_elem_of_lookup in Hr as [n Hn]. eauto.
  - intros (n & r & Hn & Hx). exists (step_newStatements r). split; [|done].
    apply in_map. apply list_elem_of_In, list_elem_of_lookup. eauto.
Qed.

(** Two transactions of one run: the later one starts in a store that
    extends the store the earlier one ended in, and with a seen set that
    contains the one the earlier one left. *)
Lemma two_steps companyLocation data_transaksi seen prev olds w tr w' n m rn rm :
  Forall2 (fun l o => statement_objects w !! l = Some o) prev olds ->
  trace_transactions companyLocation seen prev data_transaksi w = Ok (tr, w') ->
  n < m -> tr !! n = Some rn -> tr !! m = Some rm ->
  exists tn wn wn' oldsn candsn closingsn tm wm wm' oldsm candsm closingsm,
    step_facts companyLocation (seen_before seen tr n) oldsn tn wn rn wn'
               candsn closingsn
    /\ step_facts companyLocation (seen_before seen tr m) oldsm tm wm rm wm'
                  candsm closingsm
    /\ statement_objects wn' `prefix_of` statement_objects wm
    /\ statement_objects wm' `prefix_of` statement_objects w'
    /\ step_seen rn ⊆ seen_before seen tr m.
Proof.
  intros Hprev Htr Hlt Hn Hm.
  destruct (trace_split _ _ _ _ _ _ _ _ _ _ Hprev Htr Hn)
    as (tn & wn & wn' & oldsn & candsn & closingsn & _ & _ & _ & Hfn & _ & _ & _ & Hsuffix).
  assert (Hm' : drop (S n) tr !! (m - S n) = Some rm).
  { rewrite lookup_drop. by replace (S n + (m - S n)) with m by lia. }
  destruct (trace_split _ _ _ _ _ _ _ _ _ _ (step_facts_next _ _ _ _ _ _ _ _ _ Hfn)
              Hsuffix Hm')
    as (tm & wm & wm' & oldsm & candsm & closingsm & _ & _ & _ & Hfm & Hpre & Hfin & Hsub
        & _).
  rewrite <- (seen_before_drop seen tr n m rn Hn Hlt) in Hfm, Hsub.
  by exists tn, wn, wn', oldsn, candsn, closingsn, tm, wm, wm', oldsm, candsm, closingsm.
Qed.

Lemma prefix_length_le (l1 l2 : list statement) :
  l1 `prefix_of` l2 -> length l1 <= length l2.
Proof. intros [k ->]. rewrite length_app. lia. Qed.

Lemma output_bounds companyLocation data_transaksi :
  forall seen prev olds w tr w' x,
    Forall2 (fun l o => statement_objects w !! l = Some o) prev olds ->
    trace_transactions companyLocation seen prev data_transaksi w = Ok (tr, w') ->
    In x (output tr) ->
    length (statement_objects w) <= x < length (statement_objects w').
Proof.
  intros seen prev olds w tr w' x Hprev Htr (n & r & Hn & Hx)%output_In.
  destruct (trace_split _ _ _ _ _ _ _ _ _ _ Hprev Htr Hn)
    as (t & wn & wn' & oldsn & cands & closings & _ & _ & _ & Hf & Hpre & Hfin & _ & _).
  pose proof (emitted_locs _ _ _ _ _ _ _ _ _ Hf x Hx).
  apply prefix_length_le in Hpre, Hfin. lia.
Qed.

Lemma output_NoDup companyLocation data_transaksi :
  forall seen prev olds w tr w',
    Forall2 (fun l o => statement_objects w !! l = Some o) prev olds ->
    trace_transactions companyLocation seen prev data_transaksi w = Ok (tr, w') ->
    NoDup (output tr).
Proof.
  induction data_transaksi as [|t ts IH]; intros seen prev olds w tr w' Hprev Htr;
    simpl in Htr.
  - apply ret_Ok in Htr as [<- _]. constructor.
  - apply bind_Ok in Htr as (r & w1 & Hstep & Htr).
    apply bind_Ok in Htr as (tr' & w2 & Hrest & Htr). apply ret_Ok in Htr as [<- <-].
    eapply transaction_step_facts in Hstep as (t' & cands & closings & -> & Hf); eauto.
    pose proof (step_facts_next _ _ _ _ _ _ _ _ _ Hf) as Hnext.
    unfold output. simpl. apply NoDup_app. split_and!.
    + rewrite (sf_news _ _ _ _ _ _ _ _ _ Hf). apply NoDup_app. split_and!.
      * apply fresh_positions_NoDup.
      * intros x Hx%list_elem_of_In%fresh_positions_bounds Hx'%list_elem_of_In%in_seq.
        rewrite length_map in Hx. lia.
      * apply NoDup_seq.
    + intros x Hx%list_elem_of_In Hx'%list_elem_of_In.
      pose proof (emitted_locs _ _ _ _ _ _ _ _ _ Hf x Hx).
      pose proof (output_bounds _ _ _ _ _ _ _ _ x Hnext Hrest Hx'). lia.
    + by eapply IH.
Qed.

(** *** Where the references of a run point *)

Section One_run.

Variables (companyLocation : value) (data_transaksi : list value)
          (seen : gset string) (prev : list loc) (olds : list statement)
          (w : world) (tr : list step) (w' : world).
Hypothesis Hprev : Forall2 (fun l o => statement_objects w !! l = Some o) prev olds.
Hypothesis Htrace :
  trace_transactions companyLocation seen prev data_transaksi w = Ok (tr, w').

(** The facts of the [n]-th transaction, read in the final store. *)
Lemma step_of_run n r :
  tr !! n = Some r ->
  exists t wn wn' oldsn cands closings,
    data_transaksi !! n = Some (VObj t)
    /\ Forall2 (fun l o => statement_objects wn !! l = Some o)
               (prev_before prev tr n) oldsn
    /\ step_facts companyLocation (seen_before seen tr n) oldsn t wn r wn'
                  cands closings
    /\ statement_objects wn `prefix_of` statement_objects w'
    /\ statement_objects wn' `prefix_of` statement_objects w'.
Proof using Hprev Htrace.
  intros Hn.
  destruct (trace_split _ _ _ _ _ _ _ _ _ _ Hprev Htrace Hn)
    as (t & wn & wn' & oldsn & cands & closings & Ht & _ & Hprevn & Hf & _ & Hfin & _ & _).
  exists t, wn, wn', oldsn, cands, closings. split_and!; try done.
  etrans; [|exact Hfin]. rewrite (sf_objects _ _ _ _ _ _ _ _ _ Hf). by apply prefix_app_r.
Qed.

Lemma touches_range seen0 olds0 t w0 r w1 cands closings x :
  step_facts companyLocation seen0 olds0 t w0 r w1 cands closings ->
  touches r x ->
  length (statement_objects w0) <= x < length (statement_objects w1).
Proof.
  intros Hf [Hx|Hx]; [|by eapply emitted_locs].
  apply (candidate_locs _ _ _ _ _ _ _ _ _ Hf) in Hx.
  rewrite (sf_objects _ _ _ _ _ _ _ _ _ Hf), !length_app. lia.
Qed.

(** A reference belongs to one transaction only. *)
Lemma touches_one_step n m rn rm x :
  tr !! n = Some rn -> tr !! m = Some rm ->
  touches rn x -> touches rm x -> n = m.
Proof using Hprev Htrace.
  assert (Hlt : forall n m rn rm, n < m -> tr !! n = Some rn -> tr !! m = Some rm ->
                  touches rn x -> touches rm x -> False).
  { clear n m rn rm. intros n m rn rm Hlt Hn Hm Hxn Hxm.
    destruct (two_steps _ _ _ _ _ _ _ _ _ _ _ _ Hprev Htrace Hlt Hn Hm)
      as (tn & wn & wn' & oldsn & candsn & closingsn & tm & wm & wm' & oldsm & candsm
          & closingsm & Hfn & Hfm & Hpre & _ & _).
    pose proof (touches_range _ _ _ _ _ _ _ _ _ Hfn Hxn).
    pose proof (touches_range _ _ _ _ _ _ _ _ _ Hfm Hxm).
    apply prefix_length_le in Hpre. lia. }
  intros Hn Hm Hxn Hxm. destruct (Nat.lt_trichotomy n m) as [Hnm|[->|Hnm]]; [|done|].
  - destruct (Hlt n m rn rm); done.
  - destruct (Hlt m n rm rn); done.
Qed.

Lemma is_candidate_lookup x :
  is_candidate tr x <->
  exists m rm, tr !! m = Some rm /\ In x (step_transactionStatements rm).
Proof.
  unfold is_candidate. rewrite Exists_exists. split.
  - intros (rm & [m Hm]%list_elem_of_lookup & Hx%list_elem_of_In). eauto.
  - intros (m & rm & Hm & Hx). exists rm. split; [|by apply list_elem_of_In].
    apply list_elem_of_lookup. eauto.
Qed.

(** An emitted candidate carries an identifier that was not seen when its
    transaction started and is seen when it ends. *)
Lemma emitted_candidate n r x t wn wn' oldsn cands closings :
  tr !! n = Some r ->
  step_facts companyLocation (seen_before seen tr n) oldsn t wn r wn' cands closings ->
  In x (step_newStatements r) ->
  is_candidate tr x ->
  exists k s,
    x = length (statement_objects wn) + k
    /\ cands !! k = Some s
    /\ In x (fresh_positions (seen_before seen tr n) (List.map st_statementID cands)
                             (length (statement_objects wn))).
Proof using Hprev Htrace.
  intros Hn Hf Hx (m & rm & Hm & Hxm)%is_candidate_lookup.
  destruct (emitted_cases _ _ _ _ _ _ _ _ _ Hf x Hx)
    as [(k & s & -> & Hk & Hfresh)|(j & c & -> & Hj)]; [by eauto|].
  assert (m = n) as -> by (eapply touches_one_step; eauto; [by left|by right]).
  rewrite Hn in Hm. injection Hm as <-.
  apply (candidate_locs _ _ _ _ _ _ _ _ _ Hf) in Hxm. lia.
Qed.

End One_run.

End Run_facts.

Lemma no_previous (w : world) :
  Forall2 (fun (l : loc) o => statement_objects w !! l = Some o) [] [].
Proof. constructor. Qed.

(** ** The claims about a run of [statements] *)

Section Run_claims.

Context `{Libraries}.

(** C1. No silent loss: an ownership statement [p] of transaction [n] whose
    statementID no candidate of transaction [n + 1] carries is answered in
    the output of transaction [n + 1], either by an emitted candidate whose
    [replacesStatements] includes the statementID of [p], or by a closing
    statement, which is no candidate and whose [replacesStatements] is
    exactly that statementID. *)
Theorem no_silent_loss data w tr w' n a b ps p :
  statements_trace data w = Ok (tr, w') ->
  tr !! n = Some a ->
  tr !! S n = Some b ->
  In ps (step_transactionStatements a) ->
  statement_at w' ps = Some p ->
  st_statementType p = OwnershipOrControlStatement ->
  ~ In (Some (st_statementID p)) (ids_at w' (step_transactionStatements b)) ->
  exists x s,
    In x (step_newStatements b)
    /\ statement_at w' x = Some s
    /\ ((In x (step_transactionStatements b) /\ replaces (st_statementID p) s = true)
        \/ (~ In x (step_transactionStatements b)
            /\ st_replacesStatements s = Some [st_statementID p])).
Proof.
  intros Htr Ha Hb Hps Hp Hty Habsent.
  apply statements_trace_inv in Htr as (companyLocation & ts & _ & _ & Htr).
  destruct (trace_split _ _ _ _ [] _ _ _ _ _ (no_previous w) Htr Hb)
    as (t & wn & wn' & oldsn & cands & closings & _ & _ & Hprev & Hf & _ & Hfinal & _ & _).
  rewrite (prev_before_S _ _ _ _ Ha) in Hprev.
  assert (Hpre : statement_objects wn `prefix_of` statement_objects w').
  { etrans; [|exact Hfinal]. rewrite (sf_objects _ _ _ _ _ _ _ _ _ Hf).
    by apply prefix_app_r. }
  destruct (final_previous _ _ _ _ Hprev Hpre) as [Hold _].
  specialize (Hold ps p Hps Hp).
  rewrite (final_candidate_ids _ _ _ _ _ _ _ _ _ _ Hf Hfinal) in Habsent.
  destruct (sf_covered _ _ _ _ _ _ _ _ _ Hf p Hold Hty)
    as [Hin|[(s & Hs & Hrep)|(c & Hc & k & ->)]].
  - destruct Habsent. by apply in_map.
  - apply list_elem_of_In, list_elem_of_lookup in Hs as [k Hk].
    exists (length (statement_objects wn) + k), s.
    pose proof (sf_replaces _ _ _ _ _ _ _ _ _ Hf k s Hk) as Hk'.
    unfold replaces in Hrep. destruct (st_replacesStatements s) as [rr|] eqn:Hrr; [|done].
    destruct Hk' as [Hfresh _]. split_and!.
    + rewrite (sf_news _ _ _ _ _ _ _ _ _ Hf). apply in_or_app. by left.
    + by eapply final_candidate.
    + left. split; [|by unfold replaces; rewrite Hrr].
      apply (candidate_locs _ _ _ _ _ _ _ _ _ Hf). apply lookup_lt_Some in Hk. lia.
  - apply list_elem_of_In, list_elem_of_lookup in Hc as [j Hj].
    eexists (length (statement_objects wn) + length cands + j), _. split_and!.
    + rewrite (sf_news _ _ _ _ _ _ _ _ _ Hf). apply in_or_app. right.
      apply in_seq. apply lookup_lt_Some in Hj. lia.
    + by eapply final_closing.
    + right. split; [|done].
      rewrite (candidate_locs _ _ _ _ _ _ _ _ _ Hf). lia.
Qed.

(** C6. Replacement locality: every identifier in the [replacesStatements]
    of an emitted statement of transaction [n] is the statementID of a
    statement the previous transaction left on [transactionStatements]; the
    first transaction has no previous statement, so its emitted statements
    replace nothing. *)
Theorem replacement_locality data w tr w' n r x s i :
  statements_trace data w = Ok (tr, w') ->
  tr !! n = Some r ->
  In x (step_newStatements r) ->
  statement_at w' x = Some s ->
  replaces i s = true ->
  exists y, In y (prev_before [] tr n) /\ id_at w' y = Some i.
Proof.
  intros Htr Hr Hx Hs Hrep.
  apply statements_trace_inv in Htr as (companyLocation & ts & _ & _ & Htr).
  destruct (trace_split _ _ _ _ [] _ _ _ _ _ (no_previous w) Htr Hr)
    as (t & wn & wn' & oldsn & cands & closings & _ & _ & Hprev & Hf & _ & Hfinal & _ & _).
  assert (Hpre : statement_objects wn `prefix_of` statement_objects w').
  { etrans; [|exact Hfinal]. rewrite (sf_objects _ _ _ _ _ _ _ _ _ Hf).
    by apply prefix_app_r. }
  destruct (final_previous _ _ _ _ Hprev Hpre) as [_ Hold].
  assert (Hfrom : exists p, In p oldsn /\ st_statementID p = i).
  { destruct (emitted_cases _ _ _ _ _ _ _ _ _ Hf x Hx)
      as [(k & s' & -> & Hk & Hfresh)|(j & c & -> & Hj)].
    - rewrite (final_candidate _ _ _ _ _ _ _ _ _ _ Hf Hfinal k s' Hk) in Hs.
      injection Hs as ->.
      pose proof (sf_replaces _ _ _ _ _ _ _ _ _ Hf k s Hk) as Hk'.
      unfold replaces in Hrep. destruct (st_replacesStatements s) as [rr|]; [|done].
      destruct Hk' as [_ Hsub]. apply existsb_exists in Hrep as (i' & Hi' & Heq).
      apply String.eqb_eq in Heq as <-.
      apply Hsub, in_map_iff in Hi' as (p & Hp & Hin). eauto.
    - rewrite (final_closing _ _ _ _ _ _ _ _ _ _ Hf Hfinal j c Hj) in Hs.
      injection Hs as ->.
      pose proof (sf_closings _ _ _ _ _ _ _ _ _ Hf) as Hcl.
      rewrite Forall_forall in Hcl.
      destruct (Hcl s) as (p & Hp & _ & (k & ->) & _).
      { apply list_elem_of_lookup. eauto. }
      unfold replaces in Hrep. simpl in Hrep. rewrite orb_false_r in Hrep.
      apply String.eqb_eq in Hrep as ->. eauto. }
  destruct Hfrom as (p & Hp & <-). destruct (Hold p Hp) as (y & Hy & Hat).
  exists y. split; [done|]. unfold id_at. by rewrite Hat.
Qed.

(** Emitted candidates of one run carry pairwise different statementIDs. *)
Lemma emitted_candidates_differ companyLocation data_transaksi w tr w' x y :
  trace_transactions companyLocation ∅ [] data_transaksi w = Ok (tr, w') ->
  In x (output tr) -> In y (output tr) ->
  is_candidate tr x -> is_candidate tr y ->
  id_at w' x = id_at w' y -> x = y.
Proof.
  intros Htr (n & rn & Hn & Hx)%output_In (m & rm & Hm & Hy)%output_In Hcx Hcy Hid.
  pose proof (no_previous w) as Hnil.
  assert (Hlt : forall n m rn rm x y,
            n < m -> tr !! n = Some rn -> tr !! m = Some rm ->
            In x (step_newStatements rn) -> In y (step_newStatements rm) ->
            is_candidate tr x -> is_candidate tr y ->
            id_at w' x = id_at w' y -> False).
  { clear n m rn rm x y Hn Hm Hx Hy Hcx Hcy Hid.
    intros n m rn rm x y Hlt Hn Hm Hx Hy Hcx Hcy Hid.
    destruct (two_steps _ _ _ _ _ _ _ _ _ _ _ _ Hnil Htr Hlt Hn Hm)
      as (tn & wn & wn' & oldsn & candsn & closingsn & tm & wm & wm' & oldsm & candsm
          & closingsm & Hfn & Hfm & Hpre & Hfin & Hsub).
    assert (Hfin' : statement_objects wn' `prefix_of` statement_objects w').
    { etrans; [exact Hpre|]. etrans; [|exact Hfin].
      rewrite (sf_objects _ _ _ _ _ _ _ _ _ Hfm). by apply prefix_app_r. }
    destruct (emitted_candidate _ _ _ _ _ _ _ _ Hnil Htr _ _ _ _ _ _ _ _ _ Hn Hfn Hx Hcx)
      as (kx & sx & -> & Hkx & _).
    destruct (emitted_candidate _ _ _ _ _ _ _ _ Hnil Htr _ _ _ _ _ _ _ _ _ Hm Hfm Hy Hcy)
      as (ky & sy & -> & Hky & Hfresh).
    unfold id_at in Hid.
    rewrite (final_candidate _ _ _ _ _ _ _ _ _ _ Hfn Hfin' kx sx Hkx) in Hid.
    rewrite (final_candidate _ _ _ _ _ _ _ _ _ _ Hfm Hfin ky sy Hky) in Hid.
    simpl in Hid. injection Hid as Hid.
    apply (fresh_positions_spec _ _ _ ky (st_statementID sy)) in Hfresh as [Hnew _];
      [|by rewrite list_lookup_fmap, Hky].
    apply Hnew, Hsub. rewrite (sf_seen _ _ _ _ _ _ _ _ _ Hfn), <- Hid.
    apply elem_of_union_r, elem_of_list_to_set, list_elem_of_In, in_map.
    apply list_elem_of_In, list_elem_of_lookup. eauto. }
  destruct (Nat.lt_trichotomy n m) as [Hnm|[->|Hnm]].
  - destruct (Hlt n m rn rm x y); done.
  - rewrite Hn in Hm. injection Hm as <-.
    destruct (step_of_run _ _ _ _ _ _ _ _ Hnil Htr _ _ Hn)
      as (t & wn & wn' & oldsn & cands & closings & _ & _ & Hf & _ & Hfin).
    destruct (emitted_candidate _ _ _ _ _ _ _ _ Hnil Htr _ _ _ _ _ _ _ _ _ Hn Hf Hx Hcx)
      as (kx & sx & -> & Hkx & Hfx).
    destruct (emitted_candidate _ _ _ _ _ _ _ _ Hnil Htr _ _ _ _ _ _ _ _ _ Hn Hf Hy Hcy)
      as (ky & sy & -> & Hky & Hfy).
    unfold id_at in Hid.
    rewrite (final_candidate _ _ _ _ _ _ _ _ _ _ Hf Hfin kx sx Hkx) in Hid.
    rewrite (final_candidate _ _ _ _ _ _ _ _ _ _ Hf Hfin ky sy Hky) in Hid.
    simpl in Hid. injection Hid as Hid.
    apply (fresh_positions_spec _ _ _ kx (st_statementID sx)) in Hfx as [_ Hfx];
      [|by rewrite list_lookup_fmap, Hkx].
    apply (fresh_positions_spec _ _ _ ky (st_statementID sy)) in Hfy as [_ Hfy];
      [|by rewrite list_lookup_fmap, Hky].
    destruct (Nat.lt_trichotomy kx ky) as [Hk|[->|Hk]]; [|done|].
    + destruct (Hfy kx Hk). rewrite list_lookup_fmap, Hkx. simpl. congruence.
    + destruct (Hfx ky Hk). rewrite list_lookup_fmap, Hky. simpl. congruence.
  - destruct (Hlt m n rm rn y x); done.
Qed.

(** C4. Global uniqueness: when the identifiers drawn for the closing
    statements differ from every other emitted identifier, no statementID
    occurs twice in the output; and a candidate whose statementID is in the
    seen set when it is considered (seen before its transaction, or carried
    by an earlier candidate of its transaction) is not emitted and gets no
    [replacesStatements]. *)
Theorem no_statementID_emitted_twice data w tr w' :
  statements_trace data w = Ok (tr, w') ->
  (forall x y, In x (output tr) -> In y (output tr) -> x <> y ->
               ~ is_candidate tr x -> id_at w' x <> id_at w' y) ->
  NoDup (ids_at w' (output tr))
  /\ forall n r k x s,
       tr !! n = Some r ->
       step_transactionStatements r !! k = Some x ->
       statement_at w' x = Some s ->
       (st_statementID s ∈ seen_before ∅ tr n
        \/ exists j y, j < k /\ step_transactionStatements r !! j = Some y
                       /\ id_at w' y = Some (st_statementID s)) ->
       ~ In x (output tr) /\ st_replacesStatements s = None.
Proof.
  intros Htr Hfresh.
  apply statements_trace_inv in Htr as (companyLocation & ts & _ & _ & Htr).
  pose proof (no_previous w) as Hnil. split.
  - apply (NoDup_fmap_2_strong (id_at w')); [|by eapply output_NoDup].
    intros x y Hx%list_elem_of_In Hy%list_elem_of_In Hid.
    destruct (decide (x = y)) as [|Hne]; [done|exfalso].
    destruct (decide (is_candidate tr x)) as [Hcx|Hcx]; [|by eapply (Hfresh x y)].
    destruct (decide (is_candidate tr y)) as [Hcy|Hcy]; [|by eapply (Hfresh y x)].
    apply Hne. by eapply emitted_candidates_differ.
  - intros n r k x s Hn Hk Hs Hseen.
    destruct (step_of_run _ _ _ _ _ _ _ _ Hnil Htr _ _ Hn)
      as (t & wn & wn' & oldsn & cands & closings & _ & _ & Hf & _ & Hfin).
    pose proof Hk as Hk'. rewrite (sf_txs _ _ _ _ _ _ _ _ _ Hf) in Hk'.
    apply lookup_seq in Hk' as [-> Hlt].
    destruct (lookup_lt_is_Some_2 cands k Hlt) as [s' Hs'].
    rewrite (final_candidate _ _ _ _ _ _ _ _ _ _ Hf Hfin k s' Hs') in Hs.
    injection Hs as ->.
    assert (Hnot : ~ In (length (statement_objects wn) + k)
                        (fresh_positions (seen_before ∅ tr n)
                           (List.map st_statementID cands)
                           (length (statement_objects wn)))).
    { intros [Hnew Hfirst]%(fresh_positions_spec _ _ _ k (st_statementID s));
        [|by rewrite list_lookup_fmap, Hs'].
      destruct Hseen as [Hseen|(j & y & Hj & Hy & Hid)]; [done|].
      rewrite (sf_txs _ _ _ _ _ _ _ _ _ Hf) in Hy. apply lookup_seq in Hy as [-> Hj'].
      destruct (lookup_lt_is_Some_2 cands j Hj') as [sj Hsj].
      unfold id_at in Hid.
      rewrite (final_candidate _ _ _ _ _ _ _ _ _ _ Hf Hfin j sj Hsj) in Hid.
      simpl in Hid. injection Hid as Hid.
      destruct (Hfirst j Hj). rewrite list_lookup_fmap, Hsj. simpl. congruence. }
    split.
    + intros (m & rm & Hm & Hx)%output_In.
      assert (m = n) as ->.
      { eapply (touches_one_step _ _ _ _ _ _ _ _ Hnil Htr); eauto; [by right|left].
        apply (candidate_locs _ _ _ _ _ _ _ _ _ Hf). lia. }
      rewrite Hn in Hm. injection Hm as <-.
      destruct (emitted_cases _ _ _ _ _ _ _ _ _ Hf _ Hx)
        as [(k' & s'' & Heq & _ & Hin)|(j & c & Heq & _)]; [done|lia].
    + pose proof (sf_replaces _ _ _ _ _ _ _ _ _ Hf k s Hs') as Hrep.
      destruct (st_replacesStatements s); [by destruct Hrep|done].
Qed.

(** Which candidates of a transaction are emitted. *)
Lemma candidate_emitted_iff companyLocation data_transaksi w tr w' n r k x s :
  trace_transactions companyLocation ∅ [] data_transaksi w = Ok (tr, w') ->
  tr !! n = Some r ->
  step_transactionStatements r !! k = Some x ->
  statement_at w' x = Some s ->
  (In x (output tr) <-> In x (step_newStatements r))
  /\ (In x (step_newStatements r) <->
      ((st_statementID s ∉ seen_before ∅ tr n)
       /\ forall h z, h < k -> step_transactionStatements r !! h = Some z ->
                      id_at w' z <> Some (st_statementID s))).
Proof.
  intros Htr Hn Hk Hs. pose proof (no_previous w) as Hnil.
  destruct (step_of_run _ _ _ _ _ _ _ _ Hnil Htr _ _ Hn)
    as (t & wn & wn' & oldsn & cands & closings & _ & _ & Hf & _ & Hfin).
  pose proof Hk as Hk'. rewrite (sf_txs _ _ _ _ _ _ _ _ _ Hf) in Hk'.
  apply lookup_seq in Hk' as [-> Hlt].
  destruct (lookup_lt_is_Some_2 cands k Hlt) as [s' Hs'].
  rewrite (final_candidate _ _ _ _ _ _ _ _ _ _ Hf Hfin k s' Hs') in Hs.
  injection Hs as ->. split.
  - split.
    + intros (m & rm & Hm & Hx)%output_In.
      assert (m = n) as ->.
      { eapply (touches_one_step _ _ _ _ _ _ _ _ Hnil Htr); eauto; [by right|left].
        apply (candidate_locs _ _ _ _ _ _ _ _ _ Hf). lia. }
      rewrite Hn in Hm. by injection Hm as <-.
    + intros Hx. apply output_In. eauto.
  - rewrite (sf_news _ _ _ _ _ _ _ _ _ Hf), in_app_iff, in_seq.
    rewrite (fresh_positions_spec _ _ _ k (st_statementID s))
      by (by rewrite list_lookup_fmap, Hs').
    split.
    + intros [[Hnew Hfirst]|Hrange]; [|lia]. split; [done|].
      intros h z Hh Hz Hid.
      rewrite (sf_txs _ _ _ _ _ _ _ _ _ Hf) in Hz. apply lookup_seq in Hz as [-> Hh'].
      destruct (lookup_lt_is_Some_2 cands h Hh') as [sh Hsh].
      unfold id_at in Hid.
      rewrite (final_candidate _ _ _ _ _ _ _ _ _ _ Hf Hfin h sh Hsh) in Hid.
      simpl in Hid. injection Hid as Hid.
      destruct (Hfirst h Hh). rewrite list_lookup_fmap, Hsh. simpl. congruence.
    + intros [Hnew Hfirst]. left. split; [done|].
      intros h Hh Hid. apply list_lookup_fmap_Some in Hid as (sh & Hid & Hsh).
      apply (Hfirst h (length (statement_objects wn) + h) Hh).
      * rewrite (sf_txs _ _ _ _ _ _ _ _ _ Hf). apply lookup_seq. split; [done|].
        by apply lookup_lt_Some in Hsh.
      * unfold id_at.
        rewrite (final_candidate _ _ _ _ _ _ _ _ _ _ Hf Hfin h sh Hsh). simpl. congruence.
Qed.

(** C9. Deduplication inside a transaction: of two candidates of one
    transaction that carry the same statementID, the later one is never
    emitted, and the earlier one is emitted exactly when the identifier was
    not seen before the transaction and no candidate before it carries it. *)
Theorem first_occurrence_only data w tr w' n r j k x y i :
  statements_trace data w = Ok (tr, w') ->
  tr !! n = Some r ->
  j < k ->
  step_transactionStatements r !! j = Some x ->
  step_transactionStatements r !! k = Some y ->
  id_at w' x = Some i ->
  id_at w' y = Some i ->
  ~ In y (output tr)
  /\ (In x (step_newStatements r) <->
      ((i ∉ seen_before ∅ tr n)
       /\ forall h z, h < j -> step_transactionStatements r !! h = Some z ->
                      id_at w' z <> Some i)).
Proof.
  intros Htr Hn Hjk Hx Hy Hix Hiy.
  apply statements_trace_inv in Htr as (companyLocation & ts & _ & _ & Htr).
  unfold id_at in Hix, Hiy.
  destruct (statement_at w' x) as [sx|] eqn:Hsx; [|done].
  destruct (statement_at w' y) as [sy|] eqn:Hsy; [|done].
  simpl in Hix, Hiy. injection Hix as <-. injection Hiy as Hiy.
  destruct (candidate_emitted_iff _ _ _ _ _ _ _ _ _ _ Htr Hn Hx Hsx) as [_ Hex].
  destruct (candidate_emitted_iff _ _ _ _ _ _ _ _ _ _ Htr Hn Hy Hsy) as [Hoy Hey].
  split; [|done].
  intros [_ Hfirst]%Hoy%Hey. apply (Hfirst j x Hjk Hx).
  unfold id_at. rewrite Hsx. simpl. congruence.
Qed.

Lemma final_candidate_types companyLocation seen olds t w0 r w1 wf cands closings :
  step_facts companyLocation seen olds t w0 r w1 cands closings ->
  statement_objects w1 `prefix_of` statement_objects wf ->
  List.map (fun x => st_statementType <$> statement_at wf x)
           (step_transactionStatements r)
  = List.map Some (List.map st_statementType cands).
Proof.
  intros Hf Hfin. rewrite (sf_txs _ _ _ _ _ _ _ _ _ Hf).
  apply list_eq. intros k. rewrite !list_lookup_fmap.
  destruct (decide (k < length cands)) as [Hlt|Hge].
  - rewrite lookup_seq_lt by done. simpl.
    destruct (lookup_lt_is_Some_2 cands k Hlt) as [s Hs].
    rewrite (final_candidate _ _ _ _ _ _ _ _ _ _ Hf Hfin k s Hs). by rewrite Hs.
  - rewrite lookup_seq_ge by lia. by rewrite lookup_ge_None_2 by lia.
Qed.

(** C10. Closing statements stay out of the state that is carried forward.
    For the [n]-th transaction [t] of a run: [transactionStatements] holds
    the company, person and ownership candidates of [t] and nothing else;
    the seen set grows by their statementIDs and by nothing else; the next
    call of the callback is made with this seen set and this array; and an
    emitted statement that is not on [transactionStatements] is a closing
    statement, which is on the [transactionStatements] of no transaction. *)
Theorem closing_statements_not_carried_forward data w tr w' n r :
  statements_trace data w = Ok (tr, w') ->
  tr !! n = Some r ->
  exists t data_bo,
    data_transaksi_of data !! n = Some (VObj t)
    /\ JS.get t "data_bo" = VArr data_bo
    /\ ids_at w' (step_transactionStatements r)
       = List.map Some (candidate_ids (companyLocation_of data) t)
    /\ List.map (fun x => st_statementType <$> statement_at w' x)
                (step_transactionStatements r)
       = List.map Some (EntityStatement :: owner_types data_bo)
    /\ step_seen r
       = seen_before ∅ tr n ∪ list_to_set (candidate_ids (companyLocation_of data) t)
    /\ (forall b, tr !! S n = Some b ->
          exists t' wn wn',
            transaction_step (companyLocation_of data) (step_seen r)
                             (step_transactionStatements r) t' wn = Ok (b, wn'))
    /\ (forall x, In x (step_newStatements r) ->
                  ~ In x (step_transactionStatements r) ->
          ~ is_candidate tr x
          /\ exists s ps p k,
               statement_at w' x = Some s
               /\ In ps (prev_before [] tr n)
               /\ statement_at w' ps = Some p
               /\ st_statementType p = OwnershipOrControlStatement
               /\ s = set_replacesStatements [st_statementID p]
                        (set_statementID (uuidv4 k) p)).
Proof.
  intros Htr Hn.
  apply statements_trace_inv in Htr as (companyLocation & ts & <- & <- & Htr).
  pose proof (no_previous w) as Hnil.
  destruct (trace_split _ _ _ _ _ _ _ _ _ _ Hnil Htr Hn)
    as (t & wn & wn' & oldsn & cands & closings & Ht & _ & Hprevn & Hf & _ & Hfin & _ & _).
  destruct (sf_types _ _ _ _ _ _ _ _ _ Hf) as (data_bo & Hbo & Htys).
  assert (Hpre : statement_objects wn `prefix_of` statement_objects w').
  { etrans; [|exact Hfin]. rewrite (sf_objects _ _ _ _ _ _ _ _ _ Hf).
    by apply prefix_app_r. }
  exists t, data_bo. split_and!; try done.
  - rewrite (final_candidate_ids _ _ _ _ _ _ _ _ _ _ Hf Hfin).
    by rewrite (sf_ids _ _ _ _ _ _ _ _ _ Hf).
  - rewrite (final_candidate_types _ _ _ _ _ _ _ _ _ _ Hf Hfin). by rewrite Htys.
  - rewrite (sf_seen _ _ _ _ _ _ _ _ _ Hf). by rewrite (sf_ids _ _ _ _ _ _ _ _ _ Hf).
  - intros b Hb.
    destruct (trace_split _ _ _ _ _ _ _ _ _ _ Hnil Htr Hb)
      as (t' & wm & wm' & _ & _ & _ & _ & Hstep & _).
    rewrite (seen_before_S _ _ _ _ Hn), (prev_before_S _ _ _ _ Hn) in Hstep. eauto.
  - intros x Hx Hnot. split.
    + intros (m & rm & Hm & Hxm)%is_candidate_lookup.
      assert (m = n) as ->.
      { eapply (touches_one_step _ _ _ _ _ _ _ _ Hnil Htr); eauto; [by left|by right]. }
      rewrite Hn in Hm. by injection Hm as <-.
    + destruct (emitted_cases _ _ _ _ _ _ _ _ _ Hf x Hx)
        as [(k & s & -> & Hk & _)|(j & c & -> & Hj)].
      * destruct Hnot. apply (candidate_locs _ _ _ _ _ _ _ _ _ Hf).
        apply lookup_lt_Some in Hk. lia.
      * pose proof (sf_closings _ _ _ _ _ _ _ _ _ Hf) as Hcl.
        rewrite Forall_forall in Hcl.
        destruct (Hcl c) as (p & Hp & Hty & (k & ->) & _).
        { apply list_elem_of_lookup. eauto. }
        destruct (final_previous _ _ _ _ Hprevn Hpre) as [_ Hold].
        destruct (Hold p Hp) as (ps & Hps & Hat).
        eexists _, ps, p, k. split_and!; try done.
        by eapply final_closing.
Qed.

End Run_claims.

(** ** A run fails with a TypeError or not at all *)

Lemma extends_refl w : extends w w.
Proof. split; [eauto|lia]. Qed.

Lemma extends_trans w1 w2 w3 : extends w1 w2 -> extends w2 w3 -> extends w1 w3.
Proof.
  intros [H1 L1] [H2 L2]. split; [|lia].
  intros l s Hs. destruct (H1 l s Hs) as (s' & Hs' & Hsh).
  destruct (H2 l s' Hs') as (s'' & Hs'' & Hsh'). exists s''. split; [done|congruence].
Qed.

Lemma usable_extends w w' ls : usable w ls -> extends w w' -> usable w' ls.
Proof.
  intros Hu [Hobjs Hlen]. eapply Forall_impl; [exact Hu|].
  intros l (s & Hs & Hi). destruct (Hobjs l s Hs) as (s' & Hs' & Hsh).
  exists s'. split; [done|]. intros o Ho. rewrite Hsh in Ho.
  eapply Forall_impl; [exact (Hi o Ho)|]. simpl. lia.
Qed.

Lemma usable_app w ls ls' : usable w ls -> usable w ls' -> usable w (ls ++ ls').
Proof. intros. by apply Forall_app. Qed.

Lemma outcome_ret {A} (a : A) w (post : A -> world -> Prop) :
  post a w -> outcome (ret a w) post.
Proof. done. Qed.

Lemma outcome_bind {A B} (m : M A) (k : A -> M B) w
    (mid : A -> world -> Prop) (post : B -> world -> Prop) :
  outcome (m w) mid ->
  (forall a w1, mid a w1 -> outcome (k a w1) post) ->
  outcome (bind m k w) post.
Proof.
  unfold bind, outcome at 1. destruct (m w) as [[a w1]|e]; [|done]. intros Hm Hk. by apply Hk.
Qed.

Lemma outcome_weaken {A} (r : result (A * world)) (post post' : A -> world -> Prop) :
  outcome r post -> (forall a w, post a w -> post' a w) -> outcome r post'.
Proof. destruct r as [[a w]|e]; simpl; auto. Qed.

Lemma outcome_load l s w :
  statement_objects w !! l = Some s ->
  outcome (load l w) (fun a w' => a = s /\ w' = w).
Proof. intros Hs. unfold load. by rewrite Hs. Qed.

Lemma outcome_load_all ls w :
  usable w ls ->
  outcome (load_all ls w)
          (fun ss w' => w' = w /\ Forall2 (fun l s => statement_objects w !! l = Some s) ls ss).
Proof.
  induction 1 as [|l ls (s & Hs & _) _ IH]; simpl.
  - split; [done|constructor].
  - eapply outcome_bind; [by apply outcome_load|]. intros ? ? [-> ->].
    eapply outcome_bind; [exact IH|]. intros ss ? [-> Hss].
    apply outcome_ret. split; [done|by constructor].
Qed.

Lemma outcome_update l f s w :
  statement_objects w !! l = Some s ->
  st_shape (f s) = st_shape s ->
  outcome (update l f w) (fun _ w' => extends w w').
Proof.
  intros Hs Hsh. unfold update. rewrite Hs. simpl. split; simpl; [|lia].
  intros l' s' Hl'. destruct (decide (l = l')) as [<-|Hne].
  - exists (f s). rewrite list_lookup_insert_eq by (by eapply lookup_lt_Some).
    split; [done|congruence].
  - exists s'. by rewrite list_lookup_insert_ne.
Qed.

Lemma extends_new_statement s w :
  extends w {| statement_objects := statement_objects w ++ [s];
               interest_objects := interest_objects w;
               date_calls := date_calls w;
               uuid_calls := uuid_calls w |}.
Proof.
  split; simpl; [|lia]. intros l s' Hl. exists s'. split; [|done].
  by apply lookup_app_l_Some.
Qed.

Lemma filter_result_js_error {A} (callback : A -> result bool) xs e :
  (forall x e1, callback x = Throw e1 -> js_error e1) ->
  filter_result callback xs = Throw e -> js_error e.
Proof.
  intros Hcb. revert e. induction xs as [|x xs IH]; intros e Hf; [done|].
  simpl in Hf. destruct (callback x) as [b|e1] eqn:Hx.
  - destruct (filter_result callback xs) as [ys|e2]; [done|].
    injection Hf as <-. by apply IH.
  - injection Hf as <-. by eapply Hcb.
Qed.

Lemma replacedStatements_js_error newStatement oldStatements e :
  replacedStatements newStatement oldStatements = Throw e -> js_error e.
Proof.
  unfold replacedStatements.
  set (callback := fun oldStatement => _).
  destruct (filter_result callback oldStatements) as [kept|e'] eqn:Hf; [done|].
  intros [= <-]. eapply filter_result_js_error; [|exact Hf].
  intros old e1. unfold callback.
  destruct (statementType_eqb _ _); [|done]. apply matchingIdentifiers_TypeError.
Qed.

Lemma replacedOwnershipStatements_js_error newStatement newInterestedParty newSubject
    oldStatements e :
  replacedOwnershipStatements newStatement newInterestedParty newSubject oldStatements
    = Throw e ->
  js_error e.
Proof.
  unfold replacedOwnershipStatements.
  set (callback := fun s => _).
  destruct (filter_result callback oldStatements) as [kept|e'] eqn:Hf; [done|].
  intros [= <-]. eapply filter_result_js_error; [|exact Hf].
  intros s e1. unfold callback. destruct (statementType_eqb _ _); [|done].
  destruct (st_shape s) as [| |o]; [intros [= <-]; by eexists..|].
  destruct (matchingIdentifiers newInterestedParty _) as [[|]|e2] eqn:H1.
  - apply matchingIdentifiers_TypeError.
  - done.
  - intros [= <-]. by eapply matchingIdentifiers_TypeError.
Qed.

Section Outcomes.

Context `{Libraries}.

Lemma usable_new w s :
  interests_allocated w s ->
  usable {| statement_objects := statement_objects w ++ [s];
            interest_objects := interest_objects w;
            date_calls := date_calls w;
            uuid_calls := uuid_calls w |}
         [length (statement_objects w)].
Proof.
  intros Hi. constructor; [|constructor]. exists s. simpl. split; [|done].
  by rewrite lookup_app_r, Nat.sub_diag by lia.
Qed.

Lemma outcome_mapCompanyStatement data companyLocation sourceData w :
  outcome (mapCompanyStatement data companyLocation sourceData w)
          (fun l w' => extends w w' /\ usable w' [l]).
Proof.
  unfold mapCompanyStatement, source, publicationDetails, new_Date_toISOString,
    new_statement, bind, ret. simpl. split.
  - split; simpl; [|lia]. intros l s Hs. exists s. split; [|done].
    by apply lookup_app_l_Some.
  - constructor; [|constructor]. eexists. simpl. split.
    + by rewrite lookup_app_r, Nat.sub_diag by lia.
    + intros o [=].
Qed.

Lemma outcome_mapPersonStatement data sourceData w :
  outcome (mapPersonStatement data sourceData w)
          (fun l w' => extends w w' /\ usable w' [l]).
Proof.
  unfold mapPersonStatement.
  eapply (outcome_bind _ _ _ (fun _ w1 => w1 = w)).
  { destruct (JS.strict_eq _ _); [|done].
    unfold bind, lift, negara_trim.
    destruct (JS.read data "negara"); simpl; try done; by eexists. }
  intros country_code ? ->.
  eapply (outcome_bind _ _ _ (fun _ w1 => w1 = w)).
  { unfold lift. destruct (JS.to_string _) eqn:Hs; simpl; [done|].
    by eapply to_string_js_error. }
  intros jenis_identitas ? ->.
  eapply (outcome_bind _ _ _ (fun _ w1 => w1 = w)).
  { unfold lift. destruct (mapAddress _ _ _) eqn:Hs; simpl; [done|].
    by eapply mapAddress_js_error. }
  intros addr ? ->.
  unfold source, publicationDetails, new_Date_toISOString, new_statement, bind, ret.
  simpl. split.
  - split; simpl; [|lia]. intros l s Hs. exists s. split; [|done].
    by apply lookup_app_l_Some.
  - constructor; [|constructor]. eexists. simpl. split.
    + by rewrite lookup_app_r, Nat.sub_diag by lia.
    + intros o [=].
Qed.

Lemma outcome_mapOwnershipOrControlStatement companyStatement personStatement data
    sourceData w :
  usable w [companyStatement] ->
  usable w [personStatement] ->
  outcome (mapOwnershipOrControlStatement companyStatement personStatement data
             sourceData w)
          (fun l w' => extends w w' /\ usable w' [l]).
Proof.
  intros Hc Hp. inversion Hc as [|? ? (c & Hcl & _) _]; subst.
  inversion Hp as [|? ? (p & Hpl & _) _]; subst.
  unfold mapOwnershipOrControlStatement, bind, load. rewrite Hcl, Hpl.
  unfold lift, hubungan_bo.
  assert (forall d,
    outcome
      ((let* i := new_interest
                    {| interest_type := "other-influence-or-control";
                       details := d;
                       interestLevel := "direct";
                       beneficialOwnershipOrControl := true;
                       endDate := None |} in
        let* src := source sourceData in
        let* pub := publicationDetails in
        new_statement
          {| st_statementID :=
               statementID (VArr [VStr (st_statementID c); VStr (st_statementID p);
                                  data; VObj (JS.own sourceData)]);
             st_isComponent := false;
             st_shape := Ownership {| subject := st_statementID c;
                                      interestedParty := st_statementID p;
                                      interests := [i] |};
             st_source := src;
             st_publicationDetails := pub;
             st_replacesStatements := None |}) w)
      (fun l w' => extends w w' /\ usable w' [l])) as Hrest.
  { intros d.
    unfold source, publicationDetails, new_Date_toISOString, new_statement,
      new_interest, bind, ret. simpl. split.
    - split; simpl; [|rewrite length_app; lia]. intros l s Hs. exists s.
      split; [|done]. by apply lookup_app_l_Some.
    - constructor; [|constructor]. eexists. simpl. split.
      + by rewrite lookup_app_r, Nat.sub_diag by lia.
      + intros o [= <-]. simpl. constructor; [|constructor].
        rewrite length_app. simpl. lia. }
  destruct data; simpl; try apply Hrest; by eexists.
Qed.

Lemma outcome_push_candidate prev replaced x st w :
  usable w [x] ->
  usable w prev ->
  (forall s olds e, replaced s olds = Throw e -> js_error e) ->
  outcome (push_candidate prev replaced x st w)
          (fun st' w' => extends w w'
                         /\ transactionStatements st' = transactionStatements st ++ [x]).
Proof.
  intros Hx Hprev Hreplaced. inversion Hx as [|? ? (s & Hs & _) _]; subst.
  unfold push_candidate.
  eapply outcome_bind; [by apply outcome_load|]. intros ? ? [-> ->].
  destruct (bool_decide _).
  { apply outcome_ret. split; [apply extends_refl|done]. }
  eapply outcome_bind; [by apply outcome_load_all|]. intros olds ? [-> _].
  eapply (outcome_bind _ _ _ (fun _ w1 => w1 = w)).
  { unfold lift. destruct (replaced s olds) as [r|e] eqn:Hr; [done|by eapply Hreplaced]. }
  intros r ? ->.
  eapply outcome_bind; [by eapply (outcome_update x _ s)|]. intros [] w1 Hext.
  by apply outcome_ret.
Qed.

Lemma outcome_owner_step prev companyStatement sourceData st bo_datum w :
  usable w [companyStatement] ->
  usable w prev ->
  usable w (transactionStatements st) ->
  outcome (owner_step prev companyStatement sourceData st bo_datum w)
          (fun st' w' => extends w w' /\ usable w' (transactionStatements st')).
Proof.
  intros Hc Hprev Htxs. unfold owner_step.
  eapply outcome_bind; [apply outcome_mapPersonStatement|].
  intros personStatement w1 [Hext1 Hp].
  eapply outcome_bind.
  { apply outcome_push_candidate; [done|by eapply usable_extends|].
    apply replacedStatements_js_error. }
  intros st1 w2 [Hext2 Htxs1].
  pose proof (extends_trans _ _ _ Hext1 Hext2) as Hext12.
  eapply outcome_bind.
  { apply outcome_mapOwnershipOrControlStatement; by eapply usable_extends. }
  intros ownershipOrControlStatement w3 [Hext3 Ho].
  pose proof (extends_trans _ _ _ Hext12 Hext3) as Hext13.
  assert (Hp3 : usable w3 [personStatement]).
  { eapply usable_extends; [exact Hp|]. by eapply extends_trans. }
  assert (Hc3 : usable w3 [companyStatement]) by (by eapply usable_extends).
  inversion Hp3 as [|? ? (p & Hpl & _) _]; subst.
  inversion Hc3 as [|? ? (c & Hcl & _) _]; subst.
  eapply outcome_bind; [by apply outcome_load|]. intros ? ? [-> ->].
  eapply outcome_bind; [by apply outcome_load|]. intros ? ? [-> ->].
  eapply outcome_weaken.
  { apply outcome_push_candidate; [done|by eapply usable_extends|].
    intros s olds e. apply replacedOwnershipStatements_js_error. }
  intros st' w' [Hext4 Htxs']. simpl in *.
  split; [by eapply extends_trans|].
  rewrite Htxs', Htxs1. repeat apply usable_app.
  - eapply usable_extends; [exact Htxs|]. by eapply extends_trans.
  - by eapply usable_extends.
  - by eapply usable_extends.
Qed.

Lemma outcome_owners prev companyStatement sourceData data_bo :
  forall st w,
    usable w [companyStatement] ->
    usable w prev ->
    usable w (transactionStatements st) ->
    outcome (forEach (owner_step prev companyStatement sourceData) data_bo st w)
            (fun st' w' => extends w w' /\ usable w' (transactionStatements st')).
Proof.
  induction data_bo as [|bo data_bo IH]; intros st w Hc Hprev Htxs; simpl.
  - split; [apply extends_refl|done].
  - eapply outcome_bind; [by apply outcome_owner_step|].
    intros st1 w1 [Hext1 Htxs1].
    eapply outcome_weaken; [apply IH; try done; by eapply usable_extends|].
    intros st' w' [Hext2 Htxs']. simpl. split; [by eapply extends_trans|done].
Qed.

Lemma outcome_ownerships xs w :
  usable w xs ->
  outcome (ownerships xs w) (fun ys w' => w' = w /\ usable w ys).
Proof.
  induction 1 as [|x xs Hx _ IH]; simpl.
  - split; [done|constructor].
  - pose proof Hx as (s & Hs & _).
    eapply outcome_bind; [by apply outcome_load|]. intros ? ? [-> ->].
    eapply outcome_bind; [exact IH|]. intros ys ? [-> Hys].
    apply outcome_ret. split; [done|].
    destruct (statementType_eqb _ _); [by constructor|done].
Qed.

Lemma outcome_close_if_ended txs news ps w :
  usable w [ps] ->
  usable w txs ->
  outcome (close_if_ended txs news ps w) (fun _ w' => extends w w').
Proof.
  intros Hps Htxs. inversion Hps as [|? ? (p & Hp & Hint) _]; subst.
  unfold close_if_ended.
  eapply outcome_bind; [by apply outcome_load|]. intros ? ? [-> ->].
  eapply outcome_bind; [by apply outcome_load_all|]. intros ts ? [-> _].
  destruct (existsb _ ts || existsb _ ts).
  { apply outcome_ret. apply extends_refl. }
  unfold new_statement, call_uuidv4, bind, update, load. simpl.
  rewrite lookup_app_r, Nat.sub_diag by lia. simpl.
  rewrite insert_app_r_alt, Nat.sub_diag by lia. simpl.
  rewrite lookup_app_r, Nat.sub_diag by lia. simpl.
  destruct (st_shape p) as [| |o] eqn:Hsh; simpl; [by eexists..|].
  pose proof (Hint o Hsh) as Hi.
  destruct (interests o) as [|i rest]; simpl; [by eexists|].
  inversion Hi as [|? ? Hlt _]; subst.
  unfold new_Date_toISOString, update_interest, bind. simpl.
  destruct (lookup_lt_is_Some_2 (interest_objects w) i Hlt) as [io ->]. simpl.
  rewrite lookup_app_r, Nat.sub_diag by lia. simpl.
  split; simpl; [|rewrite length_insert; lia].
  intros l s Hs. rewrite insert_app_r_alt, Nat.sub_diag by lia. simpl.
  exists s. split; [|done]. by apply lookup_app_l_Some.
Qed.

Lemma outcome_closure txs ended :
  forall news w,
    usable w ended ->
    usable w txs ->
    outcome (forEach (close_if_ended txs) ended news w) (fun _ w' => extends w w').
Proof.
  induction ended as [|ps ended IH]; intros news w Hended Htxs; simpl.
  - apply extends_refl.
  - inversion Hended as [|? ? Hps Hended']; subst.
    eapply outcome_bind.
    { apply outcome_close_if_ended; [by constructor|done]. }
    intros news1 w1 Hext1.
    eapply outcome_weaken; [apply IH; by eapply usable_extends|].
    intros news' w' Hext2. simpl. exact (extends_trans _ _ _ Hext1 Hext2).
Qed.

Lemma outcome_transaction_step companyLocation seen prev transaction w :
  usable w prev ->
  outcome (transaction_step companyLocation seen prev transaction w)
          (fun r w' => extends w w' /\ usable w' (step_transactionStatements r)).
Proof.
  intros Hprev. unfold transaction_step.
  destruct transaction as [| | | | | |t]; try (by eexists).
  eapply outcome_bind; [apply outcome_mapCompanyStatement|].
  intros companyStatement w1 [Hext1 Hc].
  eapply outcome_bind.
  { apply outcome_push_candidate; [done|by eapply usable_extends|].
    apply replacedStatements_js_error. }
  intros st1 w2 [Hext2 Htxs1]. simpl in Htxs1.
  pose proof (extends_trans _ _ _ Hext1 Hext2) as Hext12.
  destruct (JS.get t "data_bo") as [| | | | |data_bo|]; try (by eexists).
  eapply outcome_bind.
  { apply outcome_owners; [by eapply usable_extends|by eapply usable_extends|].
    rewrite Htxs1. by eapply usable_extends. }
  intros st2 w3 [Hext3 Htxs2].
  pose proof (extends_trans _ _ _ Hext12 Hext3) as Hext13.
  eapply outcome_bind; [apply outcome_ownerships; by eapply usable_extends|].
  intros ended ? [-> Hended].
  eapply outcome_bind; [by apply outcome_closure|].
  intros news w4 Hext4. apply outcome_ret. simpl.
  split; [by eapply extends_trans|by eapply usable_extends].
Qed.

Lemma outcome_flatMap_transactions companyLocation data_transaksi :
  forall seen prev w,
    usable w prev ->
    outcome (flatMap_transactions companyLocation seen prev data_transaksi w)
            (fun _ _ => True).
Proof.
  induction data_transaksi as [|t ts IH]; intros seen prev w Hprev; simpl; [done|].
  eapply outcome_bind; [by apply outcome_transaction_step|].
  intros r w1 [_ Htxs].
  eapply outcome_bind; [by apply IH|]. done.
Qed.

(** Whatever the input and the store it starts in, [statements] returns or
    raises a TypeError: no reference it follows is unallocated. *)
Lemma statements_returns_or_raises_TypeError data w e :
  statements data w = Throw e -> exists msg, e = TypeError msg.
Proof.
  assert (Hout : outcome (statements data w) (fun _ _ => True)).
  { unfold statements.
    destruct data as [| | | | | |d]; try (by eexists).
    destruct (JS.get d "data") as [| | | | | |dd]; try (by eexists).
    destruct (JS.get dd "data_transaksi") as [| | | | |ts|]; try (by eexists).
    apply outcome_flatMap_transactions. constructor. }
  intros He. by rewrite He in Hout.
Qed.

End Outcomes.

(** ** Supporting facts *)

Lemma find_statement_is_Some i cs :
  In i (List.map st_statementID cs) -> is_Some (find_statement i cs).
Proof.
  unfold find_statement. induction cs as [|c cs IH]; simpl; [done|].
  destruct (String.eqb (st_statementID c) i) eqn:Heq; [eauto|].
  intros [Hc|Hin]; [|by apply IH]. apply String.eqb_neq in Heq. done.
Qed.

Lemma lookups_agree (objs : list statement) (ls : list loc) (ss ss' : list statement) :
  Forall2 (fun l s => objs !! l = Some s) ls ss ->
  Forall2 (fun l s => objs !! l = Some s) ls ss' ->
  ss' = ss.
Proof.
  intros H1. revert ss'. induction H1 as [|l s ls ss Hl _ IH]; intros ss' H2.
  - by inversion H2.
  - inversion H2 as [|? s' ? ss2 Hl' H2']; subst. f_equal; [congruence|by apply IH].
Qed.

(** In a run of [statements] no reference dangles: the previous statements
    a transaction is matched against contain the subject and the interested
    party of each of their ownership statements. *)
Lemma run_references_resolve `{Libraries} data w tr w' n r olds :
  statements_trace data w = Ok (tr, w') ->
  tr !! n = Some r ->
  Forall2 (fun l o => statement_at w' l = Some o) (prev_before [] tr n) olds ->
  forall s o, In s olds -> st_shape s = Ownership o ->
              is_Some (find_statement (interestedParty o) olds)
              /\ is_Some (find_statement (subject o) olds).
Proof.
  intros Htr Hn Holds s o Hs Hsh.
  apply statements_trace_inv in Htr as (companyLocation & ts & _ & _ & Htr).
  destruct n as [|k].
  - simpl in Holds. inversion Holds; subst. done.
  - destruct (lookup_lt_is_Some_2 tr k) as [a Ha]; [apply lookup_lt_Some in Hn; lia|].
    rewrite (prev_before_S _ _ _ _ Ha) in Holds.
    destruct (step_of_run _ _ _ _ _ _ _ _ (no_previous w) Htr _ _ Ha)
      as (t & wa & wa' & oldsa & cands & closings & _ & _ & Hf & _ & Hfin).
    assert (olds = cands) as ->.
    { eapply lookups_agree; [|exact Holds]. unfold statement_at.
      eapply Forall2_impl; [exact (step_facts_next _ _ _ _ _ _ _ _ _ Hf)|].
      intros l c Hl. exact (prefix_lookup_Some _ _ _ _ Hl Hfin). }
    destruct (sf_references _ _ _ _ _ _ _ _ _ Hf s o Hs Hsh) as [Hsubj Hip].
    split; by apply find_statement_is_Some.
Qed.

(** Whenever the closure pass makes a closing statement from [ps], the
    interest [ps] holds gets the end date, and [ps] itself stays as it was. *)
Lemma close_if_ended_ends_shared_interest `{Libraries} txs news ps p w news' w' :
  close_if_ended txs news ps w = Ok (news', w') ->
  news' <> news ->
  statement_objects w !! ps = Some p ->
  statement_objects w' !! ps = Some p
  /\ exists o i rest io,
       st_shape p = Ownership o
       /\ interests o = i :: rest
       /\ interest_objects w' !! i = Some io
       /\ endDate io = Some (JS.before_T (toISOString (date_calls w))).
Proof.
  intros Hclose Hne Hps. unfold close_if_ended in Hclose.
  apply bind_Ok in Hclose as (p' & w1 & Hp & Hclose). apply load_Ok in Hp as [Hp ->].
  rewrite Hps in Hp. injection Hp as <-.
  apply bind_Ok in Hclose as (ts & w1 & Hts & Hclose).
  apply load_all_Ok in Hts as [_ ->].
  destruct (existsb _ ts || existsb _ ts).
  { apply ret_Ok in Hclose as [<- _]. done. }
  apply bind_Ok in Hclose as (x & w1 & Hnew & Hclose).
  unfold new_statement in Hnew. injection Hnew as <- <-.
  apply bind_Ok in Hclose as (u & w2 & Hu & Hclose).
  unfold call_uuidv4 in Hu. injection Hu as <- <-.
  apply bind_Ok in Hclose as ([] & w3 & Hupd & Hclose).
  unfold update in Hupd. simpl in Hupd.
  rewrite lookup_app_r, Nat.sub_diag in Hupd by lia. simpl in Hupd.
  injection Hupd as <-.
  apply bind_Ok in Hclose as (e & w4 & He & Hclose). apply load_Ok in He as [He ->].
  simpl in He. rewrite insert_app_r_alt, Nat.sub_diag in He by lia. simpl in He.
  rewrite lookup_app_r, Nat.sub_diag in He by lia. simpl in He. injection He as <-.
  apply bind_Ok in Hclose as ([] & w4 & Hend & Hclose). simpl in Hend.
  destruct (st_shape p) as [| |o] eqn:Hsh; [done..|].
  destruct (interests o) as [|i rest] eqn:Hint; [done|].
  apply bind_Ok in Hend as (now & w5 & Hnow & Hend).
  unfold new_Date_toISOString in Hnow. simpl in Hnow. injection Hnow as <- <-.
  unfold update_interest in Hend. simpl in Hend.
  destruct (interest_objects w !! i) as [io|] eqn:Hio; [|done].
  injection Hend as <-.
  apply bind_Ok in Hclose as ([] & w6 & Hupd & Hclose).
  unfold update in Hupd. simpl in Hupd.
  rewrite insert_app_r_alt, Nat.sub_diag in Hupd by lia. simpl in Hupd.
  rewrite lookup_app_r, Nat.sub_diag in Hupd by lia. simpl in Hupd.
  injection Hupd as <-. apply ret_Ok in Hclose as [_ <-]. simpl.
  split.
  - rewrite insert_app_r_alt, Nat.sub_diag by lia. simpl.
    by apply lookup_app_l_Some.
  - exists o, i, rest, (set_endDate (JS.before_T (toISOString (date_calls w))) io).
    split_and!; try done.
    apply list_lookup_insert_eq. by apply lookup_lt_Some in Hio.
Qed.

(** ** The claims about matching *)

(** C2, as the code has it. A dangling reference is not skipped: the callback
    of [filter] hands the [undefined] that [find] returned to
    [matchingIdentifiers], which reads its [identifiers] as soon as the new
    statement has an identifier to compare. So the call raises a TypeError
    when the interested party of a prior ownership statement dangles and the
    new interested party has an identifier, and when its interested party
    matches, its subject dangles and the new subject has an identifier. When
    the call does return, a prior ownership statement with a dangling
    reference is not in the statements it kept. *)
Theorem dangling_reference_raises newStatement newInterestedParty newSubject
    oldStatements s o :
  st_statementType newStatement = OwnershipOrControlStatement ->
  In s oldStatements ->
  st_shape s = Ownership o ->
  (find_statement (interestedParty o) oldStatements = None ->
   (exists i ids, st_identifiers newInterestedParty = Some (i :: ids)) ->
   exists msg, replacedOwnershipStatements newStatement newInterestedParty newSubject
                 oldStatements = Throw (TypeError msg))
  /\ (matchingIdentifiers newInterestedParty
        (find_statement (interestedParty o) oldStatements) = Ok true ->
      find_statement (subject o) oldStatements = None ->
      (exists i ids, st_identifiers newSubject = Some (i :: ids)) ->
      exists msg, replacedOwnershipStatements newStatement newInterestedParty newSubject
                    oldStatements = Throw (TypeError msg))
  /\ (forall r,
        replacedOwnershipStatements newStatement newInterestedParty newSubject
          oldStatements = Ok r ->
        find_statement (interestedParty o) oldStatements = None
        \/ find_statement (subject o) oldStatements = None ->
        both_sides_match newInterestedParty newSubject oldStatements s = false
        /\ r = List.map st_statementID
                 (List.filter (both_sides_match newInterestedParty newSubject
                                                oldStatements) oldStatements)).
Proof.
  intros Hty Hin Hsh.
  set (callback := fun s =>
         if statementType_eqb (st_statementType s) (st_statementType newStatement)
         then
           match st_shape s with
           | Ownership o =>
               match matchingIdentifiers newInterestedParty
                       (find_statement (interestedParty o) oldStatements) with
               | Throw e => Throw e
               | Ok false => Ok false
               | Ok true => matchingIdentifiers newSubject
                              (find_statement (subject o) oldStatements)
               end
           | _ => Throw (TypeError "s.interestedParty is undefined")
           end
         else Ok false).
  assert (Hraise : forall e, callback s = Throw e ->
            exists msg, replacedOwnershipStatements newStatement newInterestedParty
                          newSubject oldStatements = Throw (TypeError msg)).
  { intros e He.
    destruct (filter_result_first_Throw callback oldStatements s e Hin He)
      as (y & e' & _ & Hy & Hf).
    assert (exists msg, e' = TypeError msg) as [msg ->].
    { revert Hy. unfold callback. destruct (statementType_eqb _ _); [|done].
      destruct (st_shape y) as [| |oy]; [intros [= <-]; eauto..|].
      destruct (matchingIdentifiers newInterestedParty _) as [[|]|e1] eqn:H1.
      - apply matchingIdentifiers_TypeError.
      - done.
      - intros [= <-]. by eapply matchingIdentifiers_TypeError. }
    exists msg. unfold replacedOwnershipStatements. fold callback. by rewrite Hf. }
  assert (Hcb : callback s =
                match matchingIdentifiers newInterestedParty
                        (find_statement (interestedParty o) oldStatements) with
                | Throw e => Throw e
                | Ok false => Ok false
                | Ok true => matchingIdentifiers newSubject
                               (find_statement (subject o) oldStatements)
                end).
  { unfold callback. rewrite Hty. unfold st_statementType. by rewrite Hsh. }
  split_and!.
  - intros Hnone (i & ids & Hids). eapply Hraise. rewrite Hcb, Hnone.
    unfold matchingIdentifiers. by rewrite Hids.
  - intros Hip Hnone (i & ids & Hids). eapply Hraise. rewrite Hcb, Hip, Hnone.
    unfold matchingIdentifiers. by rewrite Hids.
  - intros r Hr Hnone.
    split; [|exact (replacedOwnershipStatements_Ok newStatement _ _ _ _ Hty Hr)].
    unfold both_sides_match. rewrite Hsh.
    destruct Hnone as [-> | ->]; [done|].
    by destruct (find_statement (interestedParty o) oldStatements).
Qed.

(** C2 fails as stated: the interested party of [dangling_ownership] is in
    no statement of the list, and the call raises instead of returning. *)
Lemma dangling_reference_counterexample :
  find_statement "p-404" [Sample.old_company; Sample.dangling_ownership] = None
  /\ replacedOwnershipStatements Sample.new_ownership Sample.new_person
       Sample.new_company [Sample.old_company; Sample.dangling_ownership]
     = Throw (TypeError "oldStatement is undefined").
Proof. split; reflexivity. Qed.

Lemma dangling_reference_raises_witness :
  exists msg,
    replacedOwnershipStatements Sample.new_ownership Sample.new_person
      Sample.new_company [Sample.old_company; Sample.dangling_ownership]
    = Throw (TypeError msg).
Proof.
  refine (proj1 (dangling_reference_raises Sample.new_ownership Sample.new_person
                   Sample.new_company [Sample.old_company; Sample.dangling_ownership]
                   Sample.dangling_ownership
                   {| subject := "c-1"; interestedParty := "p-404"; interests := [0] |}
                   eq_refl _ eq_refl) eq_refl _).
  - right. left. reflexivity.
  - eexists _, _. reflexivity.
Defined.

(** C5, as the code has it. The match is relational: when the call returns
    for a new ownership statement, its result lists, in the order of
    [oldStatements], the statementIDs of the prior ownership statements whose
    interested party and subject both resolve in [oldStatements] and both
    match the new ones. So the statementID of [s] is in the result exactly
    when some prior statement carrying that statementID passes both matches,
    which is [s] itself when no other prior statement carries it. The new
    ownership statement enters through its [statementType] alone. *)
Theorem relational_match newStatement newInterestedParty newSubject oldStatements r :
  st_statementType newStatement = OwnershipOrControlStatement ->
  replacedOwnershipStatements newStatement newInterestedParty newSubject oldStatements
    = Ok r ->
  r = List.map st_statementID
        (List.filter (both_sides_match newInterestedParty newSubject oldStatements)
                     oldStatements)
  /\ (forall s, In s oldStatements ->
        (In (st_statementID s) r <->
         exists s', In s' oldStatements
                    /\ st_statementID s' = st_statementID s
                    /\ both_sides_match newInterestedParty newSubject oldStatements s'
                       = true))
  /\ (forall s, In s oldStatements ->
        (forall s', In s' oldStatements -> st_statementID s' = st_statementID s -> s' = s) ->
        (In (st_statementID s) r <->
         both_sides_match newInterestedParty newSubject oldStatements s = true))
  /\ (forall newStatement',
        st_statementType newStatement' = OwnershipOrControlStatement ->
        replacedOwnershipStatements newStatement' newInterestedParty newSubject
          oldStatements = Ok r).
Proof.
  intros Hty Hr. pose proof (replacedOwnershipStatements_Ok _ _ _ _ _ Hty Hr) as ->.
  assert (Hiff : forall s, In s oldStatements ->
            (In (st_statementID s)
                (List.map st_statementID
                   (List.filter (both_sides_match newInterestedParty newSubject
                                                  oldStatements) oldStatements)) <->
             exists s', In s' oldStatements
                        /\ st_statementID s' = st_statementID s
                        /\ both_sides_match newInterestedParty newSubject oldStatements s'
                           = true)).
  { intros s _. rewrite in_map_iff. split.
    - intros (s' & Hid & [Hin Hm]%filter_In). eauto.
    - intros (s' & Hin & Hid & Hm). exists s'. split; [done|]. by apply filter_In. }
  split_and!; [done|done| |].
  - intros s Hin Hunique. rewrite (Hiff s Hin). split.
    + intros (s' & Hin' & Hid & Hm). by rewrite <- (Hunique s' Hin' Hid).
    + intros Hm. eauto.
  - intros newStatement' Hty'. revert Hr. unfold replacedOwnershipStatements.
    by rewrite Hty, Hty'.
Qed.

(** C5 fails as stated: [twin_ownership] carries the statementID of
    [old_ownership]; its interested party resolves to [other_person], who
    does not match the new interested party, yet its statementID is in the
    result, put there by [old_ownership]. *)
Lemma relational_match_counterexample :
  let olds := [Sample.old_company; Sample.old_person; Sample.other_person;
               Sample.old_ownership; Sample.twin_ownership] in
  replacedOwnershipStatements Sample.new_ownership Sample.new_person Sample.new_company
    olds = Ok ["o-1"]
  /\ In Sample.twin_ownership olds
  /\ In (st_statementID Sample.twin_ownership) ["o-1"]
  /\ find_statement "p-3" olds = Some Sample.other_person
  /\ matchingIdentifiers Sample.new_person (Some Sample.other_person) = Ok false.
Proof. simpl. split_and!; try reflexivity; auto 10. Qed.

Lemma relational_match_witness :
  let olds := [Sample.old_company; Sample.old_person; Sample.old_ownership] in
  In (st_statementID Sample.old_ownership) ["o-1"] <->
  both_sides_match Sample.new_person Sample.new_company olds Sample.old_ownership = true.
Proof.
  refine (proj1 (proj2 (proj2
    (relational_match Sample.new_ownership Sample.new_person Sample.new_company
       [Sample.old_company; Sample.old_person; Sample.old_ownership] ["o-1"]
       eq_refl eq_refl))) Sample.old_ownership _ _).
  - right. right. left. reflexivity.
  - intros s' [<-|[<-|[<-|[]]]]; [discriminate..|reflexivity].
Defined.

(** On a run: the second transaction has another owner than the first, and
    neither record has an [npwp]; the person statement of the second owner
    is emitted as a replacement of the person statement of the first. *)
Example unrelated_owners_are_linked :
  statements (H := Reference.libraries) Example.unrelated_owners Reference.empty_world
    = Ok ([0; 1; 2; 4; 5], Example.unrelated_owners_store)
  /\ (person_identifiers <$> (match st_shape (Example.statement_in
                                                Example.unrelated_owners_store 1) with
                              | Person f => Some f | _ => None end))
     = Some [{| scheme := "ID-DJP"; schemeName := VStr "Director General of Taxes";
                ident_id := VUndefined |};
             {| scheme := "MISC-ID-KTP"; schemeName := VStr "KTP";
                ident_id := VStr "1271010101800001" |}]
  /\ st_replacesStatements (Example.statement_in Example.unrelated_owners_store 4)
     = Some [st_statementID (Example.statement_in Example.unrelated_owners_store 1)].
Proof. vm_compute. split_and!; reflexivity. Qed.




(** ** The claims that are settled on sample runs *)

Lemma fresh_positions_all_seen seen ids base :
  (forall i, In i ids -> i ∈ seen) -> fresh_positions seen ids base = [].
Proof.
  revert base. induction ids as [|a ids IH]; intros base Hall; simpl; [done|].
  rewrite bool_decide_eq_true_2 by (apply Hall; by left).
  apply IH. intros i Hi. apply Hall. by right.
Qed.

Section Unchanged_transaction.

Context `{Libraries}.

(** C7, as the code has it. The statementIDs of the person and ownership
    statements hash [sourceData], the transaction without [data_bo],
    [nama_korporasi] and [jenis_transaksi]. A transaction emits nothing when
    it repeats the company name and the owner records of the transaction
    before it and its [sourceData] is the same too. *)
Theorem unchanged_transaction_emits_nothing data w tr w' n a b t1 t2 :
  statements_trace data w = Ok (tr, w') ->
  tr !! n = Some a ->
  tr !! S n = Some b ->
  data_transaksi_of data !! n = Some (VObj t1) ->
  data_transaksi_of data !! S n = Some (VObj t2) ->
  JS.get t1 "nama_korporasi" = JS.get t2 "nama_korporasi" ->
  JS.get t1 "data_bo" = JS.get t2 "data_bo" ->
  sourceData_of (VObj t1) = sourceData_of (VObj t2) ->
  step_newStatements b = [].
Proof.
  intros Htr Ha Hb Ht1 Ht2 Hname Hbo Hsrc.
  apply statements_trace_inv in Htr as (companyLocation & ts & _ & -> & Htr).
  pose proof (no_previous w) as Hnil.
  destruct (step_of_run _ _ _ _ _ _ _ _ Hnil Htr _ _ Ha)
    as (ta & wa & wa' & oldsa & candsa & closingsa & Hta & _ & Hfa & _ & Hfina).
  destruct (step_of_run _ _ _ _ _ _ _ _ Hnil Htr _ _ Hb)
    as (tb & wb & wb' & oldsb & candsb & closingsb & Htb & Hprevb & Hfb & Hpreb & _).
  rewrite Ht1 in Hta. injection Hta as <-. rewrite Ht2 in Htb. injection Htb as <-.
  rewrite (prev_before_S _ _ _ _ Ha) in Hprevb.
  rewrite (seen_before_S _ _ _ _ Ha) in Hfb.
  assert (Hids : List.map st_statementID candsb = List.map st_statementID candsa).
  { rewrite (sf_ids _ _ _ _ _ _ _ _ _ Hfa), (sf_ids _ _ _ _ _ _ _ _ _ Hfb).
    unfold candidate_ids, company_id. by rewrite Hname, Hbo, Hsrc. }
  rewrite (sf_news _ _ _ _ _ _ _ _ _ Hfb).
  rewrite fresh_positions_all_seen; cycle 1.
  { intros i Hi. rewrite (sf_seen _ _ _ _ _ _ _ _ _ Hfa), <- Hids.
    by apply elem_of_union_r, elem_of_list_to_set, list_elem_of_In. }
  destruct closingsb as [|c closingsb]; [done|exfalso].
  pose proof (sf_closings _ _ _ _ _ _ _ _ _ Hfb) as Hcl.
  inversion Hcl as [|? ? (p & Hp & _ & _ & Hnot & _) _]; subst.
  destruct (final_previous _ _ _ _ Hprevb Hpreb) as [_ Hold].
  destruct (Hold p Hp) as (ps & Hps & Hat).
  apply Hnot. rewrite Hids.
  assert (Hin : In (id_at w' ps) (ids_at w' (step_transactionStatements a)))
    by (by apply in_map).
  rewrite (final_candidate_ids _ _ _ _ _ _ _ _ _ _ Hfa Hfina) in Hin.
  unfold id_at in Hin. rewrite Hat in Hin. simpl in Hin.
  apply in_map_iff in Hin as (i & [= ->] & Hin). done.
Qed.

End Unchanged_transaction.

Lemma is_candidate_b_false tr l : is_candidate_b tr l = false -> ~ is_candidate tr l.
Proof.
  unfold is_candidate_b, is_candidate. intros Hb Hex.
  apply Exists_exists in Hex as (r & Hr & Hl).
  assert (existsb (fun r => existsb (Nat.eqb l) (step_transactionStatements r)) tr = true)
    as Habs; [|congruence].
  apply existsb_exists. exists r. split; [by apply list_elem_of_In|].
  apply existsb_exists. exists l. split; [by apply list_elem_of_In|apply Nat.eqb_refl].
Qed.

Lemma is_candidate_b_true tr l : is_candidate_b tr l = true -> is_candidate tr l.
Proof.
  unfold is_candidate_b, is_candidate.
  intros (r & Hr & (l' & Hl & ->%Nat.eqb_eq)%existsb_exists)%existsb_exists.
  apply Exists_exists. exists r. split; by apply list_elem_of_In.
Qed.

Lemma closing_ids_fresh_sound tr w :
  closing_ids_fresh_b tr w = true ->
  forall x y, In x (output tr) -> In y (output tr) -> x <> y ->
              ~ is_candidate tr x -> id_at w x <> id_at w y.
Proof.
  unfold closing_ids_fresh_b. intros Hb x y Hx Hy Hne Hc Hid.
  rewrite forallb_forall in Hb. specialize (Hb x Hx).
  rewrite forallb_forall in Hb. specialize (Hb y Hy).
  apply orb_true_iff in Hb as [[Hb|Hb]%orb_true_iff|Hb].
  - by apply Nat.eqb_eq in Hb.
  - by apply Hc, is_candidate_b_true.
  - rewrite Hid in Hb. unfold same_id_b in Hb.
    destruct (id_at w y); [by rewrite String.eqb_refl in Hb|done].
Qed.

(** *** Sample runs of the claims *)

Lemma no_silent_loss_witness :
  let w' := Example.owner_leaves_store in
  let b := Example.step_at Example.owner_leaves_trace 1 in
  let p := Example.statement_in w' 4 in
  exists x s,
    In x (step_newStatements b)
    /\ statement_at w' x = Some s
    /\ ((In x (step_transactionStatements b) /\ replaces (st_statementID p) s = true)
        \/ (~ In x (step_transactionStatements b)
            /\ st_replacesStatements s = Some [st_statementID p])).
Proof.
  apply (no_silent_loss (H := Reference.libraries) Example.owner_leaves
           Reference.empty_world Example.owner_leaves_trace Example.owner_leaves_store 0
           (Example.step_at Example.owner_leaves_trace 0)
           (Example.step_at Example.owner_leaves_trace 1) 4
           (Example.statement_in Example.owner_leaves_store 4)).
  - vm_compute. reflexivity.
  - vm_compute. reflexivity.
  - vm_compute. reflexivity.
  - vm_compute. auto 10.
  - vm_compute. reflexivity.
  - reflexivity.
  - vm_compute. intros [Heq|[Heq|[Heq|[]]]]; discriminate Heq.
Defined.

Lemma replacement_locality_witness :
  exists y,
    In y (prev_before [] Example.owner_leaves_trace 1)
    /\ id_at Example.owner_leaves_store y = Some "openownership-indonesia-3613376394".
Proof.
  apply (replacement_locality (H := Reference.libraries) Example.owner_leaves
           Reference.empty_world Example.owner_leaves_trace Example.owner_leaves_store 1
           (Example.step_at Example.owner_leaves_trace 1) 6
           (Example.statement_in Example.owner_leaves_store 6)).
  - vm_compute. reflexivity.
  - vm_compute. reflexivity.
  - vm_compute. auto 10.
  - vm_compute. reflexivity.
  - vm_compute. reflexivity.
Defined.

Lemma no_statementID_emitted_twice_witness :
  NoDup (ids_at Example.owner_leaves_store (output Example.owner_leaves_trace))
  /\ forall n r k x s,
       Example.owner_leaves_trace !! n = Some r ->
       step_transactionStatements r !! k = Some x ->
       statement_at Example.owner_leaves_store x = Some s ->
       (st_statementID s ∈ seen_before ∅ Example.owner_leaves_trace n
        \/ exists j y, j < k /\ step_transactionStatements r !! j = Some y
                       /\ id_at Example.owner_leaves_store y = Some (st_statementID s)) ->
       ~ In x (output Example.owner_leaves_trace) /\ st_replacesStatements s = None.
Proof.
  apply (no_statementID_emitted_twice (H := Reference.libraries) Example.owner_leaves
           Reference.empty_world Example.owner_leaves_trace Example.owner_leaves_store).
  - vm_compute. reflexivity.
  - apply closing_ids_fresh_sound. vm_compute. reflexivity.
Defined.

Lemma first_occurrence_only_witness :
  let r := Example.step_at Example.listed_twice_trace 0 in
  ~ In 3 (output Example.listed_twice_trace)
  /\ (In 1 (step_newStatements r) <->
      (("openownership-indonesia-3613376394" ∉ seen_before ∅ Example.listed_twice_trace 0)
       /\ forall h z, h < 1 -> step_transactionStatements r !! h = Some z ->
                      id_at Example.listed_twice_store z
                      <> Some "openownership-indonesia-3613376394")).
Proof.
  apply (first_occurrence_only (H := Reference.libraries) Example.listed_twice
           Reference.empty_world Example.listed_twice_trace Example.listed_twice_store 0
           (Example.step_at Example.listed_twice_trace 0) 1 3 1 3).
  - vm_compute. reflexivity.
  - vm_compute. reflexivity.
  - lia.
  - vm_compute. reflexivity.
  - vm_compute. reflexivity.
  - vm_compute. reflexivity.
  - vm_compute. reflexivity.
Defined.

Lemma closing_statements_not_carried_forward_witness :
  let data := Example.owner_leaves in
  let tr := Example.owner_leaves_trace in
  let w' := Example.owner_leaves_store in
  let r := Example.step_at tr 1 in
  exists t data_bo,
    data_transaksi_of data !! 1 = Some (VObj t)
    /\ JS.get t "data_bo" = VArr data_bo
    /\ ids_at w' (step_transactionStatements r)
       = List.map Some (candidate_ids (H := Reference.libraries)
                                      (companyLocation_of data) t)
    /\ List.map (fun x => st_statementType <$> statement_at w' x)
                (step_transactionStatements r)
       = List.map Some (EntityStatement :: owner_types data_bo)
    /\ step_seen r
       = seen_before ∅ tr 1
         ∪ list_to_set (candidate_ids (H := Reference.libraries)
                                      (companyLocation_of data) t)
    /\ (forall b, tr !! 2 = Some b ->
          exists t' wn wn',
            transaction_step (H := Reference.libraries) (companyLocation_of data)
              (step_seen r) (step_transactionStatements r) t' wn = Ok (b, wn'))
    /\ (forall x, In x (step_newStatements r) ->
                  ~ In x (step_transactionStatements r) ->
          ~ is_candidate tr x
          /\ exists s ps p k,
               statement_at w' x = Some s
               /\ In ps (prev_before [] tr 1)
               /\ statement_at w' ps = Some p
               /\ st_statementType p = OwnershipOrControlStatement
               /\ s = set_replacesStatements [st_statementID p]
                        (set_statementID (uuidv4 (Libraries := Reference.libraries) k) p)).
Proof.
  apply (closing_statements_not_carried_forward (H := Reference.libraries)
           Example.owner_leaves Reference.empty_world Example.owner_leaves_trace
           Example.owner_leaves_store 1 (Example.step_at Example.owner_leaves_trace 1)).
  - vm_compute. reflexivity.
  - vm_compute. reflexivity.
Defined.

Lemma unchanged_transaction_emits_nothing_witness :
  step_newStatements (Example.step_at Example.repeated_trace 1) = [].
Proof.
  apply (unchanged_transaction_emits_nothing (H := Reference.libraries) Example.repeated
           Reference.empty_world Example.repeated_trace Example.repeated_store 0
           (Example.step_at Example.repeated_trace 0)
           (Example.step_at Example.repeated_trace 1)
           (Sample.transaction_fields "1" [Sample.siti])
           (Sample.transaction_fields "1" [Sample.siti])).
  - vm_compute. reflexivity.
  - vm_compute. reflexivity.
  - vm_compute. reflexivity.
  - reflexivity.
  - reflexivity.
  - reflexivity.
  - reflexivity.
  - reflexivity.
Defined.

(** C7 fails as stated: two successive transactions with the same company
    name and address and the same single owner record, under two transaction
    numbers; the second emits a person and an ownership statement. *)
Lemma renumbered_transaction_counterexample :
  let t1 := Sample.transaction_fields "1" [Sample.siti] in
  let t2 := Sample.transaction_fields "2" [Sample.siti] in
  data_transaksi_of Example.renumbered = [VObj t1; VObj t2]
  /\ JS.get t1 "nama_korporasi" = JS.get t2 "nama_korporasi"
  /\ JS.get t1 "data_bo" = JS.get t2 "data_bo"
  /\ statements_trace (H := Reference.libraries) Example.renumbered Reference.empty_world
     = Ok (Example.renumbered_trace, Example.renumbered_store)
  /\ step_newStatements (Example.step_at Example.renumbered_trace 1) = [4; 5]
  /\ (st_statementType <$> statement_at Example.renumbered_store 4) = Some PersonStatement
  /\ (st_statementType <$> statement_at Example.renumbered_store 5)
     = Some OwnershipOrControlStatement.
Proof. vm_compute. split_and!; reflexivity. Qed.

(** C3, on the run of [owner_leaves]. The ownership statement of the second
    owner is emitted by the first transaction, at location 4 with its single
    interest at location 1, which has no [endDate] after that transaction.
    The second transaction closes it: the closing statement at location 8 is
    a copy of it with a new statementID and [replacesStatements], its
    [interests] array is the same, and the assignment to
    [endingStatement.interests[0].endDate] lands in the interest the emitted
    statement holds. The statement at location 4 itself is the same in both
    stores. *)
Theorem closing_statement_ends_previous_interest :
  let w1 := Example.two_owners_store in
  let w2 := Example.owner_leaves_store in
  let p := Example.statement_in w2 4 in
  let c := Example.statement_in w2 8 in
  statements (H := Reference.libraries) Example.owner_leaves Reference.empty_world
    = Ok ([0; 1; 2; 3; 4; 6; 7; 8], w2)
  /\ statement_at w1 4 = Some p
  /\ statement_at w2 4 = Some p
  /\ statement_at w2 8 = Some c
  /\ st_shape p = Ownership {| subject := "openownership-indonesia-2542714482";
                               interestedParty := "openownership-indonesia-620966552";
                               interests := [1] |}
  /\ st_shape c = st_shape p
  /\ st_statementID c = uuidv4 (Libraries := Reference.libraries) 0
  /\ st_replacesStatements c = Some [st_statementID p]
  /\ (endDate <$> interest_objects w1 !! 1) = Some None
  /\ (endDate <$> interest_objects w2 !! 1) = Some (Some "2021-03-09").
Proof. vm_compute. split_and!; reflexivity. Qed.

(** ** Further properties *)

(** *** The objects of the parsed input *)

Lemma delete_set o k k' v :
  JS.delete (JS.set o k' v) k =
  if String.eqb k' k then JS.delete o k else JS.set (JS.delete o k) k' v.
Proof.
  unfold JS.delete. induction o as [|[k1 v1] o IH]; simpl.
  - by destruct (String.eqb k' k).
  - destruct (String.eqb k1 k') eqn:H1; simpl.
    + apply String.eqb_eq in H1 as ->.
      destruct (String.eqb k' k) eqn:H2; simpl; [done|]. by rewrite String.eqb_refl.
    + rewrite IH. destruct (String.eqb k' k) eqn:H2; [done|].
      destruct (String.eqb k1 k) eqn:H3; simpl; [done|]. by rewrite H1.
Qed.

Lemma set_fresh o k v :
  ~ In k (List.map fst o) -> JS.set o k v = o ++ [(k, v)].
Proof.
  induction o as [|[k1 v1] o IH]; simpl; [done|]. intros Hnot.
  rewrite (proj2 (String.eqb_neq k1 k)) by tauto. f_equal. apply IH. tauto.
Qed.

Lemma has_own_In o k : JS.has_own o k = true <-> In k (List.map fst o).
Proof.
  unfold JS.has_own. rewrite existsb_exists, in_map_iff. split.
  - intros (kv & Hin & Heq%String.eqb_eq). by exists kv.
  - intros (kv & Heq & Hin). exists kv. split; [done|]. by apply String.eqb_eq.
Qed.

Lemma has_own_false o k : JS.has_own o k = false <-> ~ In k (List.map fst o).
Proof. rewrite <- has_own_In. by destruct (JS.has_own o k). Qed.

Lemma has_own_delete_ne o k k' :
  k <> k' -> JS.has_own (JS.delete o k') k = JS.has_own o k.
Proof.
  intros Hne. unfold JS.has_own, JS.delete.
  induction o as [|[k1 v1] o IH]; simpl; [done|].
  destruct (String.eqb k1 k') eqn:H1; simpl; [|by rewrite IH].
  apply String.eqb_eq in H1 as ->. rewrite IH.
  by rewrite (proj2 (String.eqb_neq k' k)) by congruence.
Qed.

Lemma get_absent o k : ~ In k (List.map fst o) -> JS.get o k = VUndefined.
Proof.
  induction o as [|[k1 v1] o IH]; simpl; [done|]. intros Hnot.
  rewrite (proj2 (String.eqb_neq k1 k)) by tauto. apply IH. tauto.
Qed.

Lemma put_proto c v :
  JS.has_own (JS.own c) "__proto__" = false ->
  JS.proto c = JS.Object_prototype ->
  JS.put c "__proto__" v = {| JS.own := JS.own c; JS.proto := prototype_from v |}.
Proof.
  intros Hown Hproto. unfold JS.put, JS.reaches_proto_setter.
  rewrite Hown, Hproto. simpl. destruct c as [o p]. simpl in *. subst.
  by destruct v.
Qed.

Lemma put_other c k v :
  k <> "__proto__" ->
  JS.put c k v = {| JS.own := JS.set (JS.own c) k v; JS.proto := JS.proto c |}.
Proof.
  intros Hne. unfold JS.put. by rewrite (proj2 (String.eqb_neq k "__proto__")).
Qed.

(** A copy into an object that has none of the keys of the source, whose
    keys are pairwise different: the properties are appended in order,
    except [__proto__], which finds the setter of [Object.prototype]. *)
Lemma assign_copy t :
  NoDup (List.map fst t) -> forall c,
  (forall k, In k (List.map fst (JS.own c)) -> ~ In k (List.map fst t)) ->
  (In "__proto__" (List.map fst t) ->
   JS.proto c = JS.Object_prototype /\ ~ In "__proto__" (List.map fst (JS.own c))) ->
  JS.assign c (VObj t)
  = {| JS.own := JS.own c ++ JS.delete t "__proto__";
       JS.proto := if JS.has_own t "__proto__"
                   then prototype_from (JS.get t "__proto__") else JS.proto c |}.
Proof.
  unfold JS.assign. simpl.
  induction t as [|[k v] t IH]; intros Hnd c Hc Hp; simpl.
  { rewrite app_nil_r. by destruct c. }
  apply NoDup_cons in Hnd as [Hk Hnd].
  assert (Hk' : ~ In k (List.map fst t)) by (by rewrite <- list_elem_of_In).
  destruct (String.eqb k "__proto__") eqn:Heq.
  - apply String.eqb_eq in Heq as ->.
    destruct Hp as [Hproto Hown]; [by left|].
    rewrite put_proto by (by rewrite ?has_own_false).
    rewrite IH; simpl.
    + by rewrite (proj2 (has_own_false t "__proto__")).
    + done.
    + intros k' Hin Hin'. apply (Hc k' Hin). by right.
    + tauto.
  - apply String.eqb_neq in Heq.
    rewrite put_other, set_fresh by (try done; intros Hin; apply (Hc k Hin); by left).
    rewrite IH; simpl.
    + by rewrite <- app_assoc.
    + done.
    + intros k'. rewrite map_app, in_app_iff. simpl. intros [Hin|[<-|[]]]; [|done].
      intros Hin'. apply (Hc k' Hin). by right.
    + intros Hin. destruct Hp as [Hproto Hown]; [by right|]. split; [done|].
      rewrite map_app, in_app_iff. simpl. intros [?|[?|[]]]; [done|congruence].
Qed.

Lemma filter_twice {A} (f g : A -> bool) l :
  List.filter f (List.filter g l) = List.filter (fun x => g x && f x) l.
Proof.
  induction l as [|x l IH]; simpl; [done|].
  destruct (g x); simpl; [|done]. destruct (f x); by rewrite IH.
Qed.

(** X1. [sourceData] is a copy of the transaction without [data_bo],
    [nama_korporasi] and [jenis_transaksi]. An own [__proto__] of the
    transaction is not copied as a property: [Object.assign] assigns it, and
    the value becomes the prototype of [sourceData] when it is an object, an
    array or [null]. Every other property is kept, with its value and at its
    place in the enumeration order (the order matters: [sourceData] is
    hashed through [JSON.stringify]). The keys of an object are pairwise
    different. *)
Theorem sourceData_keeps_the_rest t :
  NoDup (List.map fst t) ->
  JS.own (sourceData_of (VObj t)) = List.filter kept_in_sourceData t
  /\ JS.proto (sourceData_of (VObj t)) = prototype_from (JS.get t "__proto__").
Proof.
  intros Hnd. unfold sourceData_of.
  rewrite (assign_copy t Hnd JS.empty_object);
    [|by intros ? []|intros _; split; [reflexivity|intros []]].
  simpl. split.
  - unfold JS.delete. rewrite !filter_twice. apply filter_ext. intros [k v].
    unfold kept_in_sourceData. by rewrite !andb_assoc.
  - destruct (JS.has_own t "__proto__") eqn:Hown; [done|].
    by rewrite get_absent by (by apply has_own_false).
Qed.

Lemma sourceData_keeps_the_rest_witness :
  JS.own (sourceData_of (VObj (("__proto__", VObj [("jenis_pelapor", VStr "KORPORASI")])
                               :: Sample.transaction_fields "7" [Sample.siti])))
  = List.filter kept_in_sourceData
      (("__proto__", VObj [("jenis_pelapor", VStr "KORPORASI")])
       :: Sample.transaction_fields "7" [Sample.siti])
  /\ JS.proto (sourceData_of (VObj (("__proto__",
                                     VObj [("jenis_pelapor", VStr "KORPORASI")])
                                    :: Sample.transaction_fields "7" [Sample.siti])))
     = prototype_from
         (JS.get (("__proto__", VObj [("jenis_pelapor", VStr "KORPORASI")])
                  :: Sample.transaction_fields "7" [Sample.siti]) "__proto__").
Proof.
  apply (sourceData_keeps_the_rest
           (("__proto__", VObj [("jenis_pelapor", VStr "KORPORASI")])
            :: Sample.transaction_fields "7" [Sample.siti])).
  apply (bool_decide_unpack _). vm_compute. reflexivity.
Defined.

(** Two copies that differ at most in an own [hubungan_bo]. *)
Lemma put_same_rest c1 c2 k v :
  JS.proto c1 = JS.proto c2 ->
  JS.delete (JS.own c1) "hubungan_bo" = JS.delete (JS.own c2) "hubungan_bo" ->
  JS.proto (JS.put c1 k v) = JS.proto (JS.put c2 k v)
  /\ JS.delete (JS.own (JS.put c1 k v)) "hubungan_bo"
     = JS.delete (JS.own (JS.put c2 k v)) "hubungan_bo".
Proof.
  intros Hp Ho.
  assert (Hown : JS.has_own (JS.own c1) "__proto__" = JS.has_own (JS.own c2) "__proto__").
  { rewrite <- (has_own_delete_ne (JS.own c1) "__proto__" "hubungan_bo") by done.
    rewrite <- (has_own_delete_ne (JS.own c2) "__proto__" "hubungan_bo") by done.
    by rewrite Ho. }
  unfold JS.put, JS.reaches_proto_setter. rewrite Hown, Hp.
  destruct (String.eqb k "__proto__" && _).
  - by destruct v.
  - simpl. split; [done|]. rewrite !delete_set.
    destruct (String.eqb k "hubungan_bo"); [done|]. by rewrite Ho.
Qed.

Lemma put_hubungan_bo c v :
  JS.proto (JS.put c "hubungan_bo" v) = JS.proto c
  /\ JS.delete (JS.own (JS.put c "hubungan_bo" v)) "hubungan_bo"
     = JS.delete (JS.own c) "hubungan_bo".
Proof.
  rewrite put_other by done. simpl. split; [done|].
  rewrite delete_set. by rewrite String.eqb_refl.
Qed.

Lemma assign_same_rest l : forall c1 c2,
  JS.proto c1 = JS.proto c2 ->
  JS.delete (JS.own c1) "hubungan_bo" = JS.delete (JS.own c2) "hubungan_bo" ->
  JS.proto (JS.assign c1 (VObj l)) = JS.proto (JS.assign c2 (VObj l))
  /\ JS.delete (JS.own (JS.assign c1 (VObj l))) "hubungan_bo"
     = JS.delete (JS.own (JS.assign c2 (VObj l))) "hubungan_bo".
Proof.
  unfold JS.assign. simpl. induction l as [|[k v] l IH]; intros c1 c2 Hp Ho; simpl.
  - done.
  - destruct (put_same_rest c1 c2 k v Hp Ho). by apply IH.
Qed.

Lemma assign_set_hubungan_bo o v : forall c1 c2,
  JS.proto c1 = JS.proto c2 ->
  JS.delete (JS.own c1) "hubungan_bo" = JS.delete (JS.own c2) "hubungan_bo" ->
  JS.proto (JS.assign c1 (VObj (JS.set o "hubungan_bo" v)))
  = JS.proto (JS.assign c2 (VObj o))
  /\ JS.delete (JS.own (JS.assign c1 (VObj (JS.set o "hubungan_bo" v)))) "hubungan_bo"
     = JS.delete (JS.own (JS.assign c2 (VObj o))) "hubungan_bo".
Proof.
  induction o as [|[k1 v1] o IH]; intros c1 c2 Hp Ho.
  - change (JS.assign c1 (VObj (JS.set [] "hubungan_bo" v)))
      with (JS.put c1 "hubungan_bo" v).
    change (JS.assign c2 (VObj [])) with c2.
    destruct (put_hubungan_bo c1 v) as [Hp1 Ho1]. split; congruence.
  - simpl JS.set. destruct (String.eqb k1 "hubungan_bo") eqn:Hk.
    + apply String.eqb_eq in Hk as ->.
      change (JS.assign c1 (VObj (("hubungan_bo", v) :: o)))
        with (JS.assign (JS.put c1 "hubungan_bo" v) (VObj o)).
      change (JS.assign c2 (VObj (("hubungan_bo", v1) :: o)))
        with (JS.assign (JS.put c2 "hubungan_bo" v1) (VObj o)).
      destruct (put_hubungan_bo c1 v) as [Hp1 Ho1].
      destruct (put_hubungan_bo c2 v1) as [Hp2 Ho2].
      apply assign_same_rest; congruence.
    + change (JS.assign c1 (VObj ((k1, v1) :: JS.set o "hubungan_bo" v)))
        with (JS.assign (JS.put c1 k1 v1) (VObj (JS.set o "hubungan_bo" v))).
      change (JS.assign c2 (VObj ((k1, v1) :: o)))
        with (JS.assign (JS.put c2 k1 v1) (VObj o)).
      destruct (put_same_rest c1 c2 k1 v1 Hp Ho). by apply IH.
Qed.

Section Person_identifier.
Context `{Libraries}.

(** X2. The statementID of a person statement does not depend on
    [hubungan_bo]: assigning any value to that property of an owner record
    leaves the identifier as it was, whatever the hash. *)
Theorem person_id_ignores_role sourceData o v :
  person_id sourceData (VObj (JS.set o "hubungan_bo" v)) = person_id sourceData (VObj o).
Proof.
  unfold person_id, personData_of. do 4 f_equal. simpl.
  by destruct (assign_set_hubungan_bo o v JS.empty_object JS.empty_object).
Qed.
End Person_identifier.

(** *** Matching, as a function *)

Lemma same_identifier_sym i j : same_identifier i j = same_identifier j i.
Proof.
  unfold same_identifier. rewrite String.eqb_sym. f_equal.
  destruct (ident_id i), (ident_id j); simpl; try done.
  - by destruct b, b0.
  - apply Z.eqb_sym.
  - apply String.eqb_sym.
Qed.

Lemma existsb_pointwise {A} (f g : A -> bool) l :
  (forall x, f x = g x) -> existsb f l = existsb g l.
Proof. intros Hfg. induction l as [|x l IH]; simpl; [done|]. by rewrite Hfg, IH. Qed.

Lemma existsb_swap {A B} (f : A -> B -> bool) la lb :
  existsb (fun a => existsb (fun b => f a b) lb) la
  = existsb (fun b => existsb (fun a => f a b) la) lb.
Proof.
  induction la as [|a la IH]; simpl.
  - induction lb as [|b lb IHb]; simpl; [done|]. by rewrite <- IHb.
  - rewrite IH. clear IH. induction lb as [|b lb IHb]; simpl; [done|].
    rewrite <- IHb. destruct (f a b), (existsb (fun a => f a b) la), (existsb (f a) lb),
      (existsb (fun b0 => existsb (fun a0 => f a0 b0) la) lb); done.
Qed.

(** X3. Matching on identifiers is symmetric between two statements that
    both have [identifiers]. *)
Theorem matchingIdentifiers_symmetric a b :
  is_Some (st_identifiers a) -> is_Some (st_identifiers b) ->
  matchingIdentifiers a (Some b) = matchingIdentifiers b (Some a).
Proof.
  intros [ia Ha] [ib Hb]. unfold matchingIdentifiers. rewrite Ha, Hb.
  assert (Hsw : existsb (fun i' => existsb (fun oldId => same_identifier oldId i') ib) ia
                = existsb (fun i' => existsb (fun oldId => same_identifier oldId i') ia) ib).
  { rewrite existsb_swap. apply existsb_pointwise. intros j. apply existsb_pointwise. intros i.
    apply same_identifier_sym. }
  destruct ia as [|i ia], ib as [|j ib]; try done.
  - simpl in Hsw. simpl. by rewrite <- Hsw.
  - simpl in Hsw. simpl. by rewrite Hsw.
  - by rewrite Hsw.
Qed.

(** X4. For a new statement that has [identifiers] (an entity or person
    statement) [replacedStatements] never raises and returns, in the order of
    [oldStatements], the statementIDs of the old statements of its type that
    share an identifier with it. For a new statement without [identifiers]
    (an ownership statement) it raises a TypeError as soon as an old
    statement has its type, and returns the empty array otherwise. *)
Theorem replacedStatements_selects newStatement oldStatements :
  (is_Some (st_identifiers newStatement) ->
   replacedStatements newStatement oldStatements
   = Ok (List.map st_statementID
           (List.filter
              (fun old => statementType_eqb (st_statementType old)
                                            (st_statementType newStatement)
                          && identifiers_match newStatement old)
              oldStatements)))
  /\ (st_identifiers newStatement = None ->
      if existsb (fun old => statementType_eqb (st_statementType old)
                                               (st_statementType newStatement))
                 oldStatements
      then exists msg, replacedStatements newStatement oldStatements
                       = Throw (TypeError msg)
      else replacedStatements newStatement oldStatements = Ok []).
Proof.
  split.
  - intros Hids. destruct (replacedStatements_total _ oldStatements Hids) as [r Hr].
    rewrite Hr. f_equal. by apply replacedStatements_Ok.
  - intros Hnone. unfold replacedStatements, matchingIdentifiers. rewrite Hnone.
    induction oldStatements as [|old olds IH]; simpl; [done|].
    destruct (statementType_eqb _ _); simpl; [by eexists|].
    destruct (existsb _ olds).
    + destruct IH as [msg Hmsg]. exists msg.
      destruct (filter_result _ olds); simpl in *; congruence.
    + destruct (filter_result _ olds) as [kept|e]; simpl in *; [|done].
      by injection IH as ->.
Qed.

(** *** What one call of the callback makes, in detail *)

Lemma replacedStatements_shape a b olds :
  st_shape a = st_shape b -> replacedStatements a olds = replacedStatements b olds.
Proof.
  intros Hsh. unfold replacedStatements, matchingIdentifiers, st_statementType,
    st_identifiers. by rewrite Hsh.
Qed.

Lemma replacedOwnershipStatements_shape a b p c olds :
  st_shape a = st_shape b ->
  replacedOwnershipStatements a p c olds = replacedOwnershipStatements b p c olds.
Proof.
  intros Hsh. unfold replacedOwnershipStatements, st_statementType. by rewrite Hsh.
Qed.

Lemma push_candidate_detail prev olds replaced x s st w w1 st' w2 :
  allocated w x s w1 ->
  st_replacesStatements s = None ->
  Forall2 (fun l o => statement_objects w !! l = Some o) prev olds ->
  push_candidate prev replaced x st w1 = Ok (st', w2) ->
  exists s',
    statement_objects w2 = statement_objects w ++ [s']
    /\ st_statementID s' = st_statementID s
    /\ st_shape s' = st_shape s
    /\ (forall rr, st_replacesStatements s' = Some rr -> replaced s olds = Ok rr)
    /\ uuid_calls w2 = uuid_calls w1
    /\ interest_objects w2 = interest_objects w1.
Proof.
  intros (-> & Hobjs1 & Huuid) Hnone Hprev Hpush. unfold push_candidate in Hpush.
  apply bind_Ok in Hpush as (s0 & w' & Hload & Hpush). apply load_Ok in Hload as [Hs0 ->].
  rewrite Hobjs1, lookup_app_r, Nat.sub_diag in Hs0 by lia. injection Hs0 as <-.
  destruct (bool_decide _).
  - apply ret_Ok in Hpush as [_ <-]. exists s. split_and!; try done.
    intros rr. by rewrite Hnone.
  - apply bind_Ok in Hpush as (olds' & w' & Holds & Hpush).
    apply load_all_Ok in Holds as [Holds ->].
    rewrite Hobjs1 in Holds.
    apply (lookup_stable _ _ _ _ _ Hprev) in Holds as ->.
    apply bind_Ok in Hpush as (r & w' & Hr & Hpush). apply lift_Ok in Hr as [Hr ->].
    apply bind_Ok in Hpush as ([] & w' & Hupd & Hpush).
    apply (update_last_Ok _ _ _ _ _ _ Hobjs1) in Hupd as (Hobjs2 & Hint & Huuid2 & _).
    apply ret_Ok in Hpush as [_ <-].
    exists (set_replacesStatements r s). split_and!; try done.
    simpl. by intros rr [= <-].
Qed.

Section Deriver_details.

Context `{Libraries}.

Lemma mapCompanyStatement_identifiers data companyLocation sourceData w l w' s :
  mapCompanyStatement data companyLocation sourceData w = Ok (l, w') ->
  statement_objects w' !! l = Some s ->
  st_identifiers s = Some [companyIdentifier data]
  /\ interest_objects w' = interest_objects w.
Proof.
  unfold mapCompanyStatement, source, publicationDetails, new_Date_toISOString,
    new_statement, bind, ret. simpl.
  intros [= <- <-]. simpl. rewrite lookup_app_r, Nat.sub_diag by lia.
  by intros [= <-].
Qed.

Lemma mapOwnershipOrControlStatement_interests companyStatement personStatement data
    sourceData w l w' s :
  mapOwnershipOrControlStatement companyStatement personStatement data sourceData w
    = Ok (l, w') ->
  statement_objects w' !! l = Some s ->
  exists o, st_shape s = Ownership o /\ interests o = [length (interest_objects w)].
Proof.
  unfold mapOwnershipOrControlStatement. intros Hm.
  apply bind_Ok in Hm as (c & w1 & Hc & Hm). apply load_Ok in Hc as [Hc ->].
  apply bind_Ok in Hm as (p & w1 & Hp & Hm). apply load_Ok in Hp as [Hp ->].
  apply bind_Ok in Hm as (d & w1 & Hd & Hm). apply lift_Ok in Hd as [_ ->].
  revert Hm.
  unfold source, publicationDetails, new_Date_toISOString, new_statement,
    new_interest, bind, ret.
  simpl. intros [= <- <-]. simpl. rewrite lookup_app_r, Nat.sub_diag by lia.
  intros [= <-]. by eexists.
Qed.

End Deriver_details.

Section Step_details.

Context `{Libraries}.

Lemma owner_step_detail objs0 cands prev olds companyStatement c sourceData st bo_datum
    w st' w' :
  statement_objects w = objs0 ++ cands ->
  Forall2 (fun l o => objs0 !! l = Some o) prev olds ->
  companyStatement = length objs0 ->
  cands !! 0 = Some c ->
  owner_step prev companyStatement sourceData st bo_datum w = Ok (st', w') ->
  exists p o,
    statement_objects w' = objs0 ++ cands ++ [p; o]
    /\ owner_pair sourceData olds c bo_datum (p, o)
    /\ uuid_calls w' = uuid_calls w.
Proof.
  intros Hobjs Hprev -> Hc Hstep. unfold owner_step in Hstep.
  assert (Hprev' : forall ext,
            Forall2 (fun l o => (objs0 ++ ext) !! l = Some o) prev olds).
  { intros ext. eapply Forall2_impl; [exact Hprev|]. intros l o Hl.
    by apply lookup_app_l_Some. }
  apply bind_Ok in Hstep as (personStatement & w1 & Hmap & Hstep).
  apply mapPersonStatement_Ok in Hmap as (p0 & Halloc & Hpid & Hpty & Hpnone).
  pose proof Halloc as (Hx & Hobjs1 & Hu1).
  apply bind_Ok in Hstep as (st1 & w2 & Hpush & Hstep).
  eapply (push_candidate_detail prev olds) in Hpush
    as (p & Hobjs2 & Hpid' & Hpsh & Hprep & Hu2 & _); eauto; cycle 1.
  { rewrite Hobjs. apply Hprev'. }
  apply bind_Ok in Hstep as (ownershipOrControlStatement & w3 & Hmap & Hstep).
  pose proof Hmap as Hmap'.
  apply mapOwnershipOrControlStatement_Ok in Hmap
    as (o0 & c' & p' & fields & Halloc' & Hc' & Hp' & Hoid & Hosh & Hsubj & Hip & Honone).
  pose proof Halloc' as (Hy & Hobjs3 & Hu3).
  destruct (mapOwnershipOrControlStatement_interests _ _ _ _ _ _ _ o0 Hmap')
    as (fields' & Hosh' & Hint).
  { rewrite Hobjs3, Hy. by rewrite lookup_app_r, Nat.sub_diag by lia. }
  rewrite Hosh in Hosh'. injection Hosh' as <-.
  rewrite Hobjs in Hobjs2.
  assert (c' = c) as ->.
  { rewrite Hobjs2, <- app_assoc in Hc'. rewrite lookup_app_r in Hc' by lia.
    rewrite Nat.sub_diag in Hc'. rewrite lookup_app_l in Hc'; [congruence|].
    apply lookup_lt_Some in Hc. lia. }
  assert (p' = p) as ->.
  { rewrite Hx, Hobjs2, Hobjs in Hp'.
    rewrite lookup_app_r, Nat.sub_diag in Hp' by lia. by injection Hp' as <-. }
  apply bind_Ok in Hstep as (p1 & w4 & Hl1 & Hstep). apply load_Ok in Hl1 as [Hp1 ->].
  apply bind_Ok in Hstep as (c1 & w4 & Hl2 & Hstep). apply load_Ok in Hl2 as [Hc1 ->].
  rewrite Hobjs3 in Hp1, Hc1.
  rewrite (lookup_app_l_Some _ _ _ _ Hp') in Hp1. injection Hp1 as <-.
  rewrite (lookup_app_l_Some _ _ _ _ Hc') in Hc1. injection Hc1 as <-.
  eapply (push_candidate_detail prev olds) in Hstep
    as (o & Hobjs4 & Hoid' & Hosh' & Horep & Hu4 & _); eauto; cycle 1.
  { rewrite Hobjs2, <- app_assoc. apply Hprev'. }
  exists p, o. split_and!.
  - by rewrite Hobjs4, Hobjs2, <- !app_assoc.
  - split; simpl.
    + unfold person_id, personData_of. congruence.
    + unfold st_statementType in *. by rewrite Hpsh.
    + intros rr Hrr. rewrite (replacedStatements_shape p p0) by done. by apply Hprep.
    + unfold ownership_id, person_id, personData_of. rewrite Hoid', Hoid.
      do 4 f_equal. congruence.
    + exists fields, (length (interest_objects w2)). by rewrite Hosh'.
    + intros rr Hrr. rewrite (replacedOwnershipStatements_shape o o0) by done.
      by apply Horep.
  - congruence.
Qed.

Lemma owners_detail objs0 prev olds companyStatement c sourceData data_bo :
  Forall2 (fun l o => objs0 !! l = Some o) prev olds ->
  companyStatement = length objs0 ->
  forall cands st w st' w',
    statement_objects w = objs0 ++ cands ->
    cands !! 0 = Some c ->
    forEach (owner_step prev companyStatement sourceData) data_bo st w = Ok (st', w') ->
    exists pairs,
      statement_objects w' = objs0 ++ cands ++ flat pairs
      /\ Forall2 (owner_pair sourceData olds c) data_bo pairs
      /\ uuid_calls w' = uuid_calls w.
Proof.
  intros Hprev Hcomp.
  induction data_bo as [|bo data_bo IH]; intros cands st w st' w' Hobjs Hc Hloop;
    simpl in Hloop.
  - apply ret_Ok in Hloop as [_ <-]. exists []. unfold flat. simpl.
    rewrite app_nil_r. by split_and!.
  - apply bind_Ok in Hloop as (st1 & w1 & Hstep & Hloop).
    eapply owner_step_detail in Hstep as (p & o & Hobjs1 & Hpair & Hu1); eauto.
    eapply IH in Hloop as (pairs & Hobjs2 & Hpairs & Hu2); eauto; cycle 1.
    { by rewrite lookup_app_l by (apply lookup_lt_Some in Hc; done). }
    exists ((p, o) :: pairs). split_and!.
    + rewrite Hobjs2. unfold flat. simpl. by rewrite <- !app_assoc.
    + by constructor.
    + congruence.
Qed.

(** The closure pass only adds statement objects, and the statements it
    adds carry the values [uuidv4] returned, in the order of the calls. *)
Lemma close_if_ended_uuids txs news ps w news' w' :
  close_if_ended txs news ps w = Ok (news', w') ->
  exists added,
    statement_objects w' = statement_objects w ++ added
    /\ List.map st_statementID added
       = List.map uuidv4 (seq (uuid_calls w) (length added))
    /\ uuid_calls w' = uuid_calls w + length added.
Proof.
  intros Hclose. unfold close_if_ended in Hclose.
  apply bind_Ok in Hclose as (p & w1 & Hp & Hclose). apply load_Ok in Hp as [Hp ->].
  apply bind_Ok in Hclose as (ts & w1 & Hts & Hclose).
  apply load_all_Ok in Hts as [_ ->].
  destruct (existsb _ ts || existsb _ ts).
  { apply ret_Ok in Hclose as [_ <-]. exists []. simpl.
    by rewrite app_nil_r, Nat.add_0_r. }
  apply bind_Ok in Hclose as (x & w1 & Hnew & Hclose).
  unfold new_statement in Hnew. injection Hnew as <- <-.
  apply bind_Ok in Hclose as (u & w2 & Hu & Hclose).
  apply call_uuidv4_Ok in Hu as (-> & Hobjs2 & Hu2). simpl in Hobjs2, Hu2.
  apply bind_Ok in Hclose as ([] & w3 & Hupd & Hclose).
  apply (update_last_Ok _ _ _ _ _ _ Hobjs2) in Hupd as (Hobjs3 & _ & Hu3 & _).
  apply bind_Ok in Hclose as (e & w4 & He & Hclose). apply load_Ok in He as [_ ->].
  apply bind_Ok in Hclose as ([] & w4 & Hend & Hclose).
  apply end_interest_Ok in Hend as [Hobjs4 Hu4]. rewrite Hobjs3 in Hobjs4.
  apply bind_Ok in Hclose as ([] & w5 & Hupd & Hclose).
  apply (update_last_Ok _ _ _ _ _ _ Hobjs4) in Hupd as (Hobjs5 & _ & Hu5 & _).
  apply ret_Ok in Hclose as [_ <-].
  eexists [_]. split_and!; [exact Hobjs5|done|simpl; lia].
Qed.

Lemma closure_uuids txs ended :
  forall news w news' w',
    forEach (close_if_ended txs) ended news w = Ok (news', w') ->
    exists added,
      statement_objects w' = statement_objects w ++ added
      /\ List.map st_statementID added
         = List.map uuidv4 (seq (uuid_calls w) (length added))
      /\ uuid_calls w' = uuid_calls w + length added.
Proof.
  induction ended as [|ps ended IH]; intros news w news' w' Hloop; simpl in Hloop.
  - apply ret_Ok in Hloop as [_ <-]. exists []. simpl.
    by rewrite app_nil_r, Nat.add_0_r.
  - apply bind_Ok in Hloop as (news1 & w1 & Hstep & Hloop).
    apply close_if_ended_uuids in Hstep as (added1 & Hobjs1 & Hids1 & Hu1).
    apply IH in Hloop as (added2 & Hobjs2 & Hids2 & Hu2).
    exists (added1 ++ added2). split_and!.
    + by rewrite Hobjs2, Hobjs1, <- app_assoc.
    + rewrite map_app, length_app, seq_app, map_app, Hids1, Hids2. by rewrite Hu1.
    + rewrite length_app. lia.
Qed.

Lemma length_flat pairs : length (flat pairs) = 2 * length pairs.
Proof. unfold flat. induction pairs as [|po pairs IH]; simpl; [done|]. rewrite IH. lia. Qed.

Lemma length_owner_types data_bo : length (owner_types data_bo) = 2 * length data_bo.
Proof.
  unfold owner_types. induction data_bo as [|bo data_bo IH]; simpl; [done|].
  rewrite IH. lia.
Qed.

Lemma transaction_step_detail companyLocation seen prev olds t w r w' cands closings :
  Forall2 (fun l o => statement_objects w !! l = Some o) prev olds ->
  transaction_step companyLocation seen prev (VObj t) w = Ok (r, w') ->
  step_facts companyLocation seen olds t w r w' cands closings ->
  step_detail companyLocation olds t w w' cands closings.
Proof.
  intros Hprev Hstep Hf. unfold transaction_step in Hstep.
  fold (sourceData_of (VObj t)) in Hstep.
  apply bind_Ok in Hstep as (companyStatement & w1 & Hmap & Hstep).
  pose proof Hmap as Hmap'.
  apply mapCompanyStatement_Ok in Hmap as (c0 & Halloc & Hcid & Hcty & Hcnone).
  pose proof Halloc as (Hx & Hobjs1 & Hu1).
  destruct (mapCompanyStatement_identifiers _ _ _ _ _ _ c0 Hmap') as [Hcids _].
  { rewrite Hobjs1, Hx. by rewrite lookup_app_r, Nat.sub_diag by lia. }
  apply bind_Ok in Hstep as (st1 & w2 & Hpush & Hstep).
  eapply (push_candidate_detail prev olds) in Hpush
    as (c & Hobjs2 & Hcid' & Hcsh & Hcrep & Hu2 & _); eauto.
  destruct (JS.get t "data_bo") as [| | | | |data_bo|] eqn:Hbo; try discriminate Hstep.
  apply bind_Ok in Hstep as (st2 & w3 & Hloop & Hstep).
  eapply (owners_detail (statement_objects w) prev olds companyStatement c) in Hloop
    as (pairs & Hobjs3 & Hpairs & Hu3); eauto.
  apply bind_Ok in Hstep as (ended & w4 & Hended & Hstep).
  apply ownerships_Ok in Hended as [-> _].
  apply bind_Ok in Hstep as (news & w4 & Hclose & Hstep).
  apply ret_Ok in Hstep as [_ <-].
  apply closure_uuids in Hclose as (added & Hobjs4 & Hids & Hu4).
  pose proof (sf_objects _ _ _ _ _ _ _ _ _ Hf) as Hobjs.
  destruct (sf_types _ _ _ _ _ _ _ _ _ Hf) as (data_bo' & Hbo' & Htys).
  rewrite Hbo in Hbo'. injection Hbo' as <-.
  assert (Hlen : length cands = length ([c] ++ flat pairs)).
  { rewrite <- (length_map st_statementType cands), Htys. simpl.
    rewrite length_owner_types, length_flat.
    by rewrite (Forall2_length _ _ _ Hpairs). }
  rewrite Hobjs4, Hobjs3, <- !app_assoc in Hobjs.
  apply app_inv_head in Hobjs.
  rewrite (app_assoc [c]) in Hobjs.
  apply app_inj_1 in Hobjs as [Hcands Hclosings]; [|done].
  subst closings. split.
  - exists c, pairs, data_bo. split_and!; try done.
    + unfold company_id. congruence.
    + unfold st_identifiers in *. by rewrite Hcsh.
    + intros rr Hrr. rewrite (replacedStatements_shape c c0) by done. by apply Hcrep.
  - rewrite Hids. do 2 f_equal. congruence.
  - rewrite Hu4. congruence.
Qed.

End Step_details.

(** *** Runs, in detail *)

Lemma earliest_occurrence (ids : list string) i :
  In i ids -> exists k, ids !! k = Some i /\ forall j, j < k -> ids !! j <> Some i.
Proof.
  induction ids as [|a ids IH]; [done|]. intros Hin.
  destruct (decide (a = i)) as [->|Hne].
  - exists 0. split; [done|]. intros j Hj. lia.
  - destruct Hin as [->|Hin]; [done|]. destruct (IH Hin) as (k & Hk & Hfirst).
    exists (S k). split; [done|]. intros [|j] Hj; simpl; [congruence|]. apply Hfirst. lia.
Qed.

Section Closing_and_company.

Context `{Libraries}.

(** X5. A closing statement is made only for an ownership that ended: an
    emitted statement of transaction [n] that is not on
    [transactionStatements] replaces exactly one statement, an ownership
    statement [p] of the previous transaction whose statementID no candidate
    of transaction [n] carries and no candidate of transaction [n] lists in
    its [replacesStatements]. The first transaction emits no such
    statement. *)
Theorem closing_statement_only_when_ended data w tr w' n r x s :
  statements_trace data w = Ok (tr, w') ->
  tr !! n = Some r ->
  In x (step_newStatements r) ->
  ~ In x (step_transactionStatements r) ->
  statement_at w' x = Some s ->
  0 < n
  /\ exists ps p,
       In ps (prev_before [] tr n)
       /\ statement_at w' ps = Some p
       /\ st_statementType p = OwnershipOrControlStatement
       /\ st_replacesStatements s = Some [st_statementID p]
       /\ ~ In (Some (st_statementID p)) (ids_at w' (step_transactionStatements r))
       /\ forall y c, In y (step_transactionStatements r) ->
                      statement_at w' y = Some c ->
                      replaces (st_statementID p) c = false.
Proof.
  intros Htr Hn Hx Hnot Hs.
  apply statements_trace_inv in Htr as (companyLocation & ts & _ & _ & Htr).
  destruct (trace_split _ _ _ _ [] _ _ _ _ _ (no_previous w) Htr Hn)
    as (t & wn & wn' & oldsn & cands & closings & _ & _ & Hprev & Hf & _ & Hfin & _ & _).
  assert (Hpre : statement_objects wn `prefix_of` statement_objects w').
  { etrans; [|exact Hfin]. rewrite (sf_objects _ _ _ _ _ _ _ _ _ Hf).
    by apply prefix_app_r. }
  destruct (emitted_cases _ _ _ _ _ _ _ _ _ Hf x Hx)
    as [(k & s' & -> & Hk & _)|(j & c & -> & Hj)].
  { destruct Hnot. apply (candidate_locs _ _ _ _ _ _ _ _ _ Hf).
    apply lookup_lt_Some in Hk. lia. }
  rewrite (final_closing _ _ _ _ _ _ _ _ _ _ Hf Hfin j c Hj) in Hs. injection Hs as ->.
  pose proof (sf_closings _ _ _ _ _ _ _ _ _ Hf) as Hcl.
  rewrite Forall_forall in Hcl.
  destruct (Hcl s) as (p & Hp & Hty & (u & ->) & Hid & Hrep).
  { apply list_elem_of_lookup. eauto. }
  split.
  { destruct n as [|n]; [|lia]. simpl in Hprev. inversion Hprev; subst. done. }
  destruct (final_previous _ _ _ _ Hprev Hpre) as [_ Hold].
  destruct (Hold p Hp) as (ps & Hps & Hat).
  exists ps, p. split_and!; try done.
  - rewrite (final_candidate_ids _ _ _ _ _ _ _ _ _ _ Hf Hfin).
    intros (i & [= Hi] & Hin)%in_map_iff. by subst.
  - intros y c Hy Hc. apply Hrep.
    apply (candidate_locs _ _ _ _ _ _ _ _ _ Hf) in Hy.
    destruct (lookup_lt_is_Some_2 cands (y - length (statement_objects wn)))
      as [c' Hc']; [lia|].
    pose proof (final_candidate _ _ _ _ _ _ _ _ _ _ Hf Hfin _ c' Hc') as Hat'.
    replace (length (statement_objects wn) + (y - length (statement_objects wn)))
      with y in Hat' by lia.
    rewrite Hc in Hat'. injection Hat' as ->.
    apply list_elem_of_In, list_elem_of_lookup. eauto.
Qed.

(** X6. One entity statement per company name: when a later transaction has
    the [nama_korporasi] of an earlier one, its company statement (the first
    element of its [transactionStatements], an entity statement) is not in
    the output. *)
Theorem company_statement_once_per_name data w tr w' n m rn rm tn tm x :
  statements_trace data w = Ok (tr, w') ->
  n < m ->
  tr !! n = Some rn ->
  tr !! m = Some rm ->
  data_transaksi_of data !! n = Some (VObj tn) ->
  data_transaksi_of data !! m = Some (VObj tm) ->
  JS.get tn "nama_korporasi" = JS.get tm "nama_korporasi" ->
  step_transactionStatements rm !! 0 = Some x ->
  st_statementType <$> statement_at w' x = Some EntityStatement
  /\ ~ In x (output tr).
Proof.
  intros Htr Hlt Hn Hm Htn Htm Hname Hx.
  apply statements_trace_inv in Htr as (companyLocation & ts & _ & -> & Htr).
  pose proof (no_previous w) as Hnil.
  destruct (two_steps _ _ _ _ _ _ _ _ _ _ _ _ Hnil Htr Hlt Hn Hm)
    as (tn' & wn & wn' & oldsn & candsn & closingsn & tm' & wm & wm' & oldsm & candsm
        & closingsm & Hfn & Hfm & Hpre & Hfin & Hsub).
  (* the transactions of the facts are the ones of the input *)
  destruct (step_of_run _ _ _ _ _ _ _ _ Hnil Htr _ _ Hn)
    as (tn2 & ? & ? & ? & candsn2 & ? & Htn2 & _ & Hfn2 & _ & _).
  destruct (step_of_run _ _ _ _ _ _ _ _ Hnil Htr _ _ Hm)
    as (tm2 & wm2 & wm2' & oldsm2 & candsm2 & closingsm2 & Htm2 & _ & Hfm2 & _ & Hfin2).
  rewrite Htn in Htn2. injection Htn2 as <-. rewrite Htm in Htm2. injection Htm2 as <-.
  clear Hfn Hfm Hpre Hfin.
  destruct (sf_types _ _ _ _ _ _ _ _ _ Hfn2) as (bon & Hbon & Htysn).
  destruct (sf_types _ _ _ _ _ _ _ _ _ Hfm2) as (bom & Hbom & Htysm).
  pose proof (sf_ids _ _ _ _ _ _ _ _ _ Hfn2) as Hidsn.
  pose proof (sf_ids _ _ _ _ _ _ _ _ _ Hfm2) as Hidsm.
  unfold candidate_ids in Hidsn, Hidsm. rewrite Hbon in Hidsn. rewrite Hbom in Hidsm.
  destruct candsm2 as [|c candsm2]; [done|]. simpl in Hidsm, Htysm.
  injection Hidsm as Hcid _. injection Htysm as Hcty _.
  pose proof Hx as Hx'. rewrite (sf_txs _ _ _ _ _ _ _ _ _ Hfm2) in Hx'.
  apply lookup_seq in Hx' as [-> _]. simpl in Hx.
  pose proof (final_candidate _ _ _ _ _ _ _ _ _ _ Hfm2 Hfin2 0 c eq_refl) as Hc.
  rewrite Hc. simpl. split; [by rewrite Hcty|].
  destruct (candidate_emitted_iff _ _ _ _ _ _ _ _ _ _ Htr Hm Hx Hc) as [Hout Hnew].
  intros [Hfresh _]%Hout%Hnew. apply Hfresh, Hsub.
  rewrite (sf_seen _ _ _ _ _ _ _ _ _ Hfn2), Hidsn, Hcid.
  unfold company_id. rewrite Hname. set_solver.
Qed.

End Closing_and_company.

Lemma strict_eq_true a b : JS.strict_eq a b = true -> a = b.
Proof.
  destruct a, b; simpl; try done.
  - intros Hb. f_equal. by apply Bool.eqb_prop.
  - intros Hn%Z.eqb_eq. by subst.
  - intros Hs%String.eqb_eq. by subst.
Qed.

Section Run_details.

Context `{Libraries}.

Lemma flat_types sourceData olds c data_bo pairs s :
  Forall2 (owner_pair sourceData olds c) data_bo pairs ->
  In s (flat pairs) ->
  st_statementType s = PersonStatement \/ st_statementType s = OwnershipOrControlStatement.
Proof.
  unfold flat. induction 1 as [|bo [p o] data_bo pairs Hpair _ IH]; simpl; [done|].
  intros [<-|[<-|Hin]]; [| |by auto].
  - left. exact (op_person_type _ _ _ _ _ Hpair).
  - right. destruct (op_ownership _ _ _ _ _ Hpair) as (f & i & Hsh & _).
    unfold st_statementType. simpl in Hsh. by rewrite Hsh.
Qed.

(** The facts and the details of the [n]-th transaction of a run. *)
Lemma detail_of_run companyLocation data_transaksi w tr w' n r :
  trace_transactions companyLocation ∅ [] data_transaksi w = Ok (tr, w') ->
  tr !! n = Some r ->
  exists t wn wn' oldsn cands closings,
    data_transaksi !! n = Some (VObj t)
    /\ Forall2 (fun l o => statement_objects wn !! l = Some o)
               (prev_before [] tr n) oldsn
    /\ step_facts companyLocation (seen_before ∅ tr n) oldsn t wn r wn' cands closings
    /\ step_detail companyLocation oldsn t wn wn' cands closings
    /\ statement_objects wn `prefix_of` statement_objects w'
    /\ statement_objects wn' `prefix_of` statement_objects w'.
Proof.
  intros Htr Hn.
  destruct (trace_split _ _ _ _ _ _ _ _ _ _ (no_previous w) Htr Hn)
    as (t & wn & wn' & oldsn & cands & closings & Ht & Hstep & Hprev & Hf & _ & Hfin & _
        & _).
  exists t, wn, wn', oldsn, cands, closings. split_and!; try done.
  - by eapply transaction_step_detail.
  - etrans; [|exact Hfin]. rewrite (sf_objects _ _ _ _ _ _ _ _ _ Hf). by apply prefix_app_r.
Qed.

(** The statements a transaction is matched against, when there are some,
    are the candidates of the transaction before it. *)
Lemma previous_step companyLocation data_transaksi w tr w' n r t wn wn' oldsn cands
    closings p :
  trace_transactions companyLocation ∅ [] data_transaksi w = Ok (tr, w') ->
  tr !! n = Some r ->
  Forall2 (fun l o => statement_objects wn !! l = Some o) (prev_before [] tr n) oldsn ->
  step_facts companyLocation (seen_before ∅ tr n) oldsn t wn r wn' cands closings ->
  statement_objects wn `prefix_of` statement_objects w' ->
  In p oldsn ->
  exists k a ta wa wa' oldsa closingsa,
    n = S k /\ tr !! k = Some a
    /\ data_transaksi !! k = Some (VObj ta)
    /\ seen_before ∅ tr n = step_seen a
    /\ step_facts companyLocation (seen_before ∅ tr k) oldsa ta wa a wa' oldsn closingsa
    /\ step_detail companyLocation oldsa ta wa wa' oldsn closingsa.
Proof.
  intros Htr Hn Hprev Hf Hpre Hp.
  destruct n as [|k]; [simpl in Hprev; inversion Hprev; by subst|].
  destruct (lookup_lt_is_Some_2 tr k) as [a Ha]; [apply lookup_lt_Some in Hn; lia|].
  destruct (detail_of_run _ _ _ _ _ _ _ Htr Ha)
    as (ta & wa & wa' & oldsa & candsa & closingsa & Hta & _ & Hfa & Hda & _ & Hfina).
  rewrite (prev_before_S _ _ _ _ Ha) in Hprev.
  assert (oldsn = candsa) as ->.
  { eapply (lookups_agree (statement_objects w')).
    - eapply Forall2_impl; [exact (step_facts_next _ _ _ _ _ _ _ _ _ Hfa)|].
      intros l c Hl. exact (prefix_lookup_Some _ _ _ _ Hl Hfina).
    - eapply Forall2_impl; [exact Hprev|].
      intros l c Hl. exact (prefix_lookup_Some _ _ _ _ Hl Hpre). }
  exists k, a, ta, wa, wa', oldsa, closingsa. split_and!; try done.
  by apply seen_before_S.
Qed.

(** X7. An emitted entity statement never replaces anything: its
    [replacesStatements] is the empty array. A previous entity statement
    matches it on identifiers only when it has the same [nama_korporasi],
    and then it has the same statementID, which is in [seenStatementIds], so
    the new one is not emitted. *)
Theorem entity_statements_replace_nothing data w tr w' x s :
  statements_trace data w = Ok (tr, w') ->
  In x (output tr) ->
  statement_at w' x = Some s ->
  st_statementType s = EntityStatement ->
  st_replacesStatements s = Some [].
Proof.
  intros Htr (n & r & Hn & Hx)%output_In Hs Hty.
  apply statements_trace_inv in Htr as (companyLocation & ts & _ & _ & Htr).
  destruct (detail_of_run _ _ _ _ _ _ _ Htr Hn)
    as (t & wn & wn' & oldsn & cands & closings & Ht & Hprev & Hf & Hd & Hpre & Hfin).
  destruct (emitted_cases _ _ _ _ _ _ _ _ _ Hf x Hx)
    as [(k & s' & -> & Hk & Hfresh)|(j & c & -> & Hj)]; cycle 1.
  { rewrite (final_closing _ _ _ _ _ _ _ _ _ _ Hf Hfin j c Hj) in Hs. injection Hs as ->.
    pose proof (sf_closings _ _ _ _ _ _ _ _ _ Hf) as Hcl.
    rewrite Forall_forall in Hcl.
    destruct (Hcl s) as (p & _ & Hpty & (u & ->) & _).
    { apply list_elem_of_lookup. eauto. }
    unfold st_statementType in *. simpl in Hty. by rewrite Hty in Hpty. }
  rewrite (final_candidate _ _ _ _ _ _ _ _ _ _ Hf Hfin k s' Hk) in Hs. injection Hs as ->.
  destruct (sd_candidates _ _ _ _ _ _ _ Hd)
    as (c & pairs & data_bo & Hbo & -> & Hcid & Hcids & Hcrep & Hpairs).
  destruct k as [|k]; cycle 1.
  { simpl in Hk. apply list_elem_of_lookup_2, list_elem_of_In in Hk.
    destruct (flat_types _ _ _ _ _ _ Hpairs Hk) as [Hp|Hp]; by rewrite Hty in Hp. }
  simpl in Hk. injection Hk as ->.
  pose proof (sf_replaces _ _ _ _ _ _ _ _ _ Hf 0 s eq_refl) as Hrep.
  destruct (st_replacesStatements s) as [rr|] eqn:Hrr; [|done].
  assert (Hk0 : List.map st_statementID (s :: flat pairs) !! 0 = Some (st_statementID s))
    by done.
  apply (fresh_positions_spec _ _ _ 0 (st_statementID s) Hk0) in Hfresh as [Hnew _].
  f_equal. pose proof (Hcrep rr Hrr) as Hcall. apply replacedStatements_Ok in Hcall as ->.
  destruct (List.filter _ oldsn) as [|old kept] eqn:Hkept; [done|exfalso].
  assert (Hold : In old (List.filter
            (fun old => statementType_eqb (st_statementType old) (st_statementType s)
                        && identifiers_match s old) oldsn))
    by (rewrite Hkept; by left).
  apply filter_In in Hold as [Hold Hmatch].
  apply andb_true_iff in Hmatch as [Holdty%statementType_eqb_eq Hmatch].
  rewrite Hty in Holdty.
  destruct (previous_step _ _ _ _ _ _ _ _ _ _ _ _ _ old Htr Hn Hprev Hf Hpre Hold)
    as (k & a & ta & wa & wa' & oldsa & closingsa & -> & Ha & Hta & Hseen & Hfa & Hda).
  destruct (sd_candidates _ _ _ _ _ _ _ Hda)
    as (c' & pairs' & data_bo' & Hbo' & -> & Hcid' & Hcids' & _ & Hpairs').
  destruct Hold as [<-|Hold]; cycle 1.
  { destruct (flat_types _ _ _ _ _ _ Hpairs' Hold) as [Hp|Hp]; by rewrite Holdty in Hp. }
  unfold identifiers_match in Hmatch. rewrite Hcids, Hcids' in Hmatch. simpl in Hmatch.
  rewrite !orb_false_r in Hmatch. unfold same_identifier in Hmatch. simpl in Hmatch.
  apply strict_eq_true in Hmatch.
  apply Hnew. rewrite Hseen, (sf_seen _ _ _ _ _ _ _ _ _ Hfa). simpl.
  rewrite Hcid, Hcid'. unfold company_id. rewrite Hmatch. set_solver.
Qed.

Lemma flat_In sourceData olds c data_bo pairs s :
  Forall2 (owner_pair sourceData olds c) data_bo pairs ->
  In s (flat pairs) ->
  exists bo po, In bo data_bo /\ owner_pair sourceData olds c bo po
                /\ In (fst po) (flat pairs) /\ In (snd po) (flat pairs)
                /\ (s = fst po \/ s = snd po).
Proof.
  unfold flat. induction 1 as [|bo [p o] data_bo pairs Hpair _ IH]; simpl; [done|].
  intros [<-|[<-|Hin]].
  - exists bo, (p, o). simpl. split_and!; auto.
  - exists bo, (p, o). simpl. split_and!; auto.
  - destruct (IH Hin) as (bo' & po & Hbo & Hpo & H1 & H2 & Hs).
    exists bo', po. split_and!; auto.
Qed.

(** An emitted statement of a transaction, read in the final store, with
    the facts of its transaction: a closing statement is an ownership
    statement, so an emitted company or person statement is a candidate. *)
Lemma emitted_not_ownership companyLocation seen olds t wn r wn' w' cands closings x s :
  step_facts companyLocation seen olds t wn r wn' cands closings ->
  statement_objects wn' `prefix_of` statement_objects w' ->
  In x (step_newStatements r) ->
  statement_at w' x = Some s ->
  st_statementType s <> OwnershipOrControlStatement ->
  exists k, x = length (statement_objects wn) + k /\ cands !! k = Some s
            /\ In x (fresh_positions seen (List.map st_statementID cands)
                                     (length (statement_objects wn))).
Proof.
  intros Hf Hfin Hx Hs Hty.
  destruct (emitted_cases _ _ _ _ _ _ _ _ _ Hf x Hx)
    as [(k & s' & -> & Hk & Hfresh)|(j & c & -> & Hj)].
  - rewrite (final_candidate _ _ _ _ _ _ _ _ _ _ Hf Hfin k s' Hk) in Hs.
    injection Hs as ->. eauto.
  - rewrite (final_closing _ _ _ _ _ _ _ _ _ _ Hf Hfin j c Hj) in Hs. injection Hs as ->.
    pose proof (sf_closings _ _ _ _ _ _ _ _ _ Hf) as Hcl.
    rewrite Forall_forall in Hcl.
    destruct (Hcl s) as (p & _ & Hpty & (u & ->) & _).
    { apply list_elem_of_lookup. eauto. }
    destruct Hty. unfold st_statementType in *. simpl. done.
Qed.

Lemma olds_in_final_store (objs : list statement) (wf : world) prev oldsn olds :
  Forall2 (fun l o => objs !! l = Some o) prev oldsn ->
  objs `prefix_of` statement_objects wf ->
  Forall2 (fun l o => statement_at wf l = Some o) prev olds ->
  olds = oldsn.
Proof.
  intros Hprev Hpre Holds. eapply (lookups_agree (statement_objects wf)); [|exact Holds].
  eapply Forall2_impl; [exact Hprev|].
  intros l c Hl. exact (prefix_lookup_Some _ _ _ _ Hl Hpre).
Qed.

(** X8. The [replacesStatements] of an emitted entity or person statement
    lists, in the order of the previous transaction's
    [transactionStatements], the statementIDs of exactly the previous
    statements of its type that share a [(scheme, id)] identifier with
    it. *)
Theorem identifier_match_decides_replacement data w tr w' n r x s olds :
  statements_trace data w = Ok (tr, w') ->
  tr !! n = Some r ->
  In x (step_newStatements r) ->
  statement_at w' x = Some s ->
  st_statementType s <> OwnershipOrControlStatement ->
  Forall2 (fun l o => statement_at w' l = Some o) (prev_before [] tr n) olds ->
  st_replacesStatements s
  = Some (List.map st_statementID
            (List.filter
               (fun old => statementType_eqb (st_statementType old) (st_statementType s)
                           && identifiers_match s old)
               olds)).
Proof.
  intros Htr Hn Hx Hs Hty Holds.
  apply statements_trace_inv in Htr as (companyLocation & ts & _ & _ & Htr).
  destruct (detail_of_run _ _ _ _ _ _ _ Htr Hn)
    as (t & wn & wn' & oldsn & cands & closings & Ht & Hprev & Hf & Hd & Hpre & Hfin).
  apply (olds_in_final_store _ _ _ _ _ Hprev Hpre) in Holds as ->.
  destruct (emitted_not_ownership _ _ _ _ _ _ _ _ _ _ _ _ Hf Hfin Hx Hs Hty)
    as (k & -> & Hk & Hfresh).
  pose proof (sf_replaces _ _ _ _ _ _ _ _ _ Hf k s Hk) as Hrep.
  destruct (st_replacesStatements s) as [rr|] eqn:Hrr; [|done].
  f_equal. apply replacedStatements_Ok.
  destruct (sd_candidates _ _ _ _ _ _ _ Hd)
    as (c & pairs & data_bo & Hbo & -> & Hcid & Hcids & Hcrep & Hpairs).
  destruct k as [|k]; simpl in Hk.
  { injection Hk as ->. by apply Hcrep. }
  apply list_elem_of_lookup_2, list_elem_of_In in Hk.
  destruct (flat_In _ _ _ _ _ _ Hpairs Hk) as (bo & po & _ & Hpo & _ & _ & [->| ->]).
  - by apply (op_person_replaces _ _ _ _ _ Hpo).
  - destruct (op_ownership _ _ _ _ _ Hpo) as (f & i & Hsh & _).
    destruct Hty. unfold st_statementType. by rewrite Hsh.
Qed.

(** X9. The [replacesStatements] of an emitted ownership candidate lists, in
    order, the statementIDs of exactly the previous ownership statements
    whose interested party and subject resolve among the previous statements
    and match the two statements of its own owner record: the person
    statement it names as interested party and the company statement of its
    transaction, which it names as subject. *)
Theorem both_sides_decide_replacement data w tr w' n r x s f olds :
  statements_trace data w = Ok (tr, w') ->
  tr !! n = Some r ->
  In x (step_newStatements r) ->
  In x (step_transactionStatements r) ->
  statement_at w' x = Some s ->
  st_shape s = Ownership f ->
  Forall2 (fun l o => statement_at w' l = Some o) (prev_before [] tr n) olds ->
  exists yc c yp p,
    step_transactionStatements r !! 0 = Some yc
    /\ statement_at w' yc = Some c
    /\ st_statementType c = EntityStatement
    /\ st_statementID c = subject f
    /\ In yp (step_transactionStatements r)
    /\ statement_at w' yp = Some p
    /\ st_statementType p = PersonStatement
    /\ st_statementID p = interestedParty f
    /\ st_replacesStatements s
       = Some (List.map st_statementID (List.filter (both_sides_match p c olds) olds)).
Proof.
  intros Htr Hn Hx Hcand Hs Hsh Holds.
  apply statements_trace_inv in Htr as (companyLocation & ts & _ & _ & Htr).
  destruct (detail_of_run _ _ _ _ _ _ _ Htr Hn)
    as (t & wn & wn' & oldsn & cands & closings & Ht & Hprev & Hf & Hd & Hpre & Hfin).
  apply (olds_in_final_store _ _ _ _ _ Hprev Hpre) in Holds as ->.
  destruct (emitted_cases _ _ _ _ _ _ _ _ _ Hf x Hx)
    as [(k & s' & -> & Hk & Hfresh)|(j & c & -> & Hj)]; cycle 1.
  { apply (candidate_locs _ _ _ _ _ _ _ _ _ Hf) in Hcand. lia. }
  rewrite (final_candidate _ _ _ _ _ _ _ _ _ _ Hf Hfin k s' Hk) in Hs. injection Hs as ->.
  pose proof (sf_replaces _ _ _ _ _ _ _ _ _ Hf k s Hk) as Hrep.
  destruct (st_replacesStatements s) as [rr|] eqn:Hrr; [|done].
  destruct (sf_types _ _ _ _ _ _ _ _ _ Hf) as (data_bo' & _ & Htys).
  destruct (sd_candidates _ _ _ _ _ _ _ Hd)
    as (c & pairs & data_bo & Hbo & -> & Hcid & Hcids & Hcrep & Hpairs).
  simpl in Htys. injection Htys as Hcty _.
  destruct k as [|k]; simpl in Hk.
  { injection Hk as ->. unfold st_statementType in Hcty. by rewrite Hsh in Hcty. }
  apply list_elem_of_lookup_2, list_elem_of_In in Hk.
  destruct (flat_In _ _ _ _ _ _ Hpairs Hk) as (bo & [p o] & _ & Hpo & Hp & _ & [->| ->]);
    simpl in *.
  { pose proof (op_person_type _ _ _ _ _ Hpo) as Hpty. simpl in Hpty.
    unfold st_statementType in Hpty. by rewrite Hsh in Hpty. }
  destruct (op_ownership _ _ _ _ _ Hpo) as (f' & i & Hsh' & Hsubj & Hip & _).
  simpl in Hsh', Hsubj, Hip. rewrite Hsh in Hsh'. injection Hsh' as <-.
  apply list_elem_of_In, list_elem_of_lookup in Hp as [kp Hkp].
  exists (length (statement_objects wn) + 0), c,
         (length (statement_objects wn) + S kp), p.
  split_and!; try done.
  - rewrite (sf_txs _ _ _ _ _ _ _ _ _ Hf). simpl. by rewrite Nat.add_0_r.
  - by apply (final_candidate _ _ _ _ _ _ _ _ _ _ Hf Hfin 0 c).
  - apply (candidate_locs _ _ _ _ _ _ _ _ _ Hf). simpl.
    apply lookup_lt_Some in Hkp. lia.
  - by apply (final_candidate _ _ _ _ _ _ _ _ _ _ Hf Hfin (S kp) p).
  - exact (op_person_type _ _ _ _ _ Hpo).
  - f_equal. apply (replacedOwnershipStatements_Ok o).
    + unfold st_statementType. by rewrite Hsh.
    + by apply (op_ownership_replaces _ _ _ _ _ Hpo).
Qed.

End Run_details.

(** *** Identifiers of the output *)

Lemma prefix_append s t : String.prefix s (s +:+ t) = true.
Proof.
  induction s as [|a s IH]; simpl; [by destruct t|]. by destruct (ascii_dec a a).
Qed.

Lemma filter_none {A} (f : A -> bool) l :
  (forall x, In x l -> f x = false) -> List.filter f l = [].
Proof.
  induction l as [|x l IH]; intros Hf; simpl; [done|].
  rewrite (Hf x) by (by left). apply IH. intros y Hy. apply Hf. by right.
Qed.

Lemma filter_all {A} (f : A -> bool) l :
  (forall x, In x l -> f x = true) -> List.filter f l = l.
Proof.
  induction l as [|x l IH]; intros Hf; simpl; [done|].
  rewrite (Hf x) by (by left). f_equal. apply IH. intros y Hy. apply Hf. by right.
Qed.

Section Identifiers.

Context `{Libraries}.

Lemma statementID_namespaced data :
  String.prefix "openownership-indonesia-" (statementID data) = true.
Proof. unfold statementID. apply prefix_append. Qed.

Lemma candidate_ids_namespaced companyLocation t i :
  In i (candidate_ids companyLocation t) ->
  String.prefix "openownership-indonesia-" i = true.
Proof.
  unfold candidate_ids. destruct (JS.get t "data_bo") as [| | | | |data_bo|]; try done.
  intros [<-|Hin]; [apply statementID_namespaced|].
  unfold owner_ids in Hin. apply in_concat in Hin as (l & Hl & Hi).
  apply in_map_iff in Hl as (bo & <- & _).
  destruct Hi as [<-|[<-|[]]]; apply statementID_namespaced.
Qed.

Lemma closings_of_facts companyLocation seen olds t w r w' cands closings :
  step_facts companyLocation seen olds t w r w' cands closings ->
  closings_of r = seq (length (statement_objects w) + length cands) (length closings).
Proof.
  intros Hf. unfold closings_of.
  rewrite (sf_news _ _ _ _ _ _ _ _ _ Hf), (sf_txs _ _ _ _ _ _ _ _ _ Hf).
  rewrite List.filter_app.
  set (keep := fun x => negb (existsb (Nat.eqb x) _)).
  assert (Hin : forall x, keep x = true <->
            ~ (length (statement_objects w) <= x
               < length (statement_objects w) + length cands)).
  { intros x. unfold keep. rewrite negb_true_iff, <- not_true_iff_false.
    apply not_iff_compat. rewrite existsb_exists. split.
    - intros (y & Hy%in_seq & ->%Nat.eqb_eq). done.
    - intros Hx. exists x. split; [by apply in_seq|apply Nat.eqb_refl]. }
  rewrite (filter_none keep), (filter_all keep); [done| |].
  - intros x Hx%in_seq. apply Hin. lia.
  - intros x Hx%fresh_positions_bounds. rewrite length_map in Hx.
    apply not_true_iff_false. rewrite Hin. tauto.
Qed.

(** The closing statements of a run carry the values [uuidv4] returned, in
    the order of the calls. *)
Lemma closing_ids_numbered companyLocation data_transaksi :
  forall seen prev olds w tr w',
    Forall2 (fun l o => statement_objects w !! l = Some o) prev olds ->
    trace_transactions companyLocation seen prev data_transaksi w = Ok (tr, w') ->
    ids_at w' (closing_locs tr)
    = List.map (fun k => Some (uuidv4 k))
               (seq (uuid_calls w) (length (closing_locs tr)))
    /\ uuid_calls w' = uuid_calls w + length (closing_locs tr).
Proof.
  induction data_transaksi as [|t ts IH]; intros seen prev olds w tr w' Hprev Htr;
    simpl in Htr.
  - apply ret_Ok in Htr as [<- <-]. simpl. split; [done|lia].
  - apply bind_Ok in Htr as (r & w1 & Hstep & Htr).
    apply bind_Ok in Htr as (tr' & w2 & Hrest & Htr). apply ret_Ok in Htr as [<- <-].
    pose proof Hstep as Hstep'.
    eapply transaction_step_facts in Hstep' as (t' & cands & closings & -> & Hf); eauto.
    pose proof (transaction_step_detail _ _ _ _ _ _ _ _ _ _ Hprev Hstep Hf) as Hd.
    pose proof (step_facts_next _ _ _ _ _ _ _ _ _ Hf) as Hnext.
    destruct (IH _ _ _ _ _ _ Hnext Hrest) as [Hids Hu].
    pose proof (trace_prefix _ _ _ _ _ _ _ _ Hnext Hrest) as Hfin.
    unfold closing_locs in *. simpl. unfold ids_at in *.
    rewrite map_app, length_app, seq_app, map_app, Hids.
    rewrite (sd_uuid_calls _ _ _ _ _ _ _ Hd) in Hids, Hu |- *.
    rewrite (closings_of_facts _ _ _ _ _ _ _ _ _ Hf), length_seq.
    split; [|lia]. f_equal.
    rewrite <- (map_map uuidv4 Some), <- (sd_uuids _ _ _ _ _ _ _ Hd).
    apply list_eq. intros j. rewrite !list_lookup_fmap.
    destruct (decide (j < length closings)) as [Hlt|Hge].
    + rewrite lookup_seq_lt by done. simpl.
      destruct (lookup_lt_is_Some_2 closings j Hlt) as [c Hc].
      unfold id_at. rewrite (final_closing _ _ _ _ _ _ _ _ _ _ Hf Hfin j c Hc).
      by rewrite Hc.
    + rewrite lookup_seq_ge by lia. by rewrite lookup_ge_None_2 by lia.
Qed.

Lemma closing_in_closing_locs tr x :
  In x (output tr) -> ~ is_candidate tr x -> In x (closing_locs tr).
Proof.
  intros (n & r & Hn & Hx)%output_In Hnot. unfold closing_locs.
  apply in_concat. exists (closings_of r). split.
  - apply in_map. apply list_elem_of_In, list_elem_of_lookup. eauto.
  - apply filter_In. split; [done|]. apply negb_true_iff, not_true_iff_false.
    intros (y & Hy & <-%Nat.eqb_eq)%existsb_exists. apply Hnot.
    apply Exists_exists. exists r. split; [|by apply list_elem_of_In].
    apply list_elem_of_lookup. eauto.
Qed.

(** X10. No statementID occurs twice in the output when the values [uuidv4]
    returns during the run are pairwise different and none of them starts
    with [openownership-indonesia-], as every hashed statementID does. *)
Theorem statementIDs_unique_with_fresh_uuids data w tr w' :
  statements_trace data w = Ok (tr, w') ->
  (forall j k, uuid_calls w <= j < uuid_calls w' -> uuid_calls w <= k < uuid_calls w' ->
               uuidv4 j = uuidv4 k -> j = k) ->
  (forall k, uuid_calls w <= k < uuid_calls w' ->
             String.prefix "openownership-indonesia-" (uuidv4 k) = false) ->
  NoDup (ids_at w' (output tr)).
Proof.
  intros Htr Hinj Hns.
  apply statements_trace_inv in Htr as (companyLocation & ts & _ & _ & Htr).
  pose proof (no_previous w) as Hnil.
  destruct (closing_ids_numbered _ _ _ _ _ _ _ _ Hnil Htr) as [Hids Hu].
  assert (Hclosing : forall x, In x (output tr) -> ~ is_candidate tr x ->
            exists i, closing_locs tr !! i = Some x
                      /\ uuid_calls w <= uuid_calls w + i < uuid_calls w'
                      /\ id_at w' x = Some (uuidv4 (uuid_calls w + i))).
  { intros x Hx Hnot.
    apply closing_in_closing_locs, list_elem_of_In, list_elem_of_lookup in Hx as [i Hi];
      [|done].
    exists i. pose proof (lookup_lt_Some _ _ _ Hi) as Hlt. split_and!; [done|lia|lia|].
    assert (Hl : ids_at w' (closing_locs tr) !! i = Some (id_at w' x))
      by (unfold ids_at; by rewrite list_lookup_fmap, Hi).
    rewrite Hids, list_lookup_fmap, lookup_seq_lt in Hl by done.
    simpl in Hl. by injection Hl as <-. }
  assert (Hcandidate : forall x, In x (output tr) -> is_candidate tr x ->
            exists i, id_at w' x = Some i
                      /\ String.prefix "openownership-indonesia-" i = true).
  { intros x (n & r & Hn & Hx)%output_In Hc.
    destruct (step_of_run _ _ _ _ _ _ _ _ Hnil Htr _ _ Hn)
      as (t & wn & wn' & oldsn & cands & closings & _ & _ & Hf & _ & Hfin).
    destruct (emitted_candidate _ _ _ _ _ _ _ _ Hnil Htr _ _ _ _ _ _ _ _ _ Hn Hf Hx Hc)
      as (k & s & -> & Hk & _).
    exists (st_statementID s). unfold id_at.
    rewrite (final_candidate _ _ _ _ _ _ _ _ _ _ Hf Hfin k s Hk). split; [done|].
    apply (candidate_ids_namespaced companyLocation t).
    rewrite <- (sf_ids _ _ _ _ _ _ _ _ _ Hf). apply in_map.
    apply list_elem_of_In, list_elem_of_lookup. eauto. }
  apply (NoDup_fmap_2_strong (id_at w')); [|by eapply output_NoDup].
  intros x y Hx%list_elem_of_In Hy%list_elem_of_In Hid.
  destruct (decide (is_candidate tr x)) as [Hcx|Hcx];
    destruct (decide (is_candidate tr y)) as [Hcy|Hcy].
  - by eapply emitted_candidates_differ.
  - destruct (Hcandidate x Hx Hcx) as (i & Hi & Hpre).
    destruct (Hclosing y Hy Hcy) as (j & _ & Hj & Hu').
    rewrite Hi, Hu' in Hid. injection Hid as ->. by rewrite (Hns _ Hj) in Hpre.
  - destruct (Hcandidate y Hy Hcy) as (i & Hi & Hpre).
    destruct (Hclosing x Hx Hcx) as (j & _ & Hj & Hu').
    rewrite Hi, Hu' in Hid. injection Hid as <-. by rewrite (Hns _ Hj) in Hpre.
  - destruct (Hclosing x Hx Hcx) as (i & Hi & Hir & Hui).
    destruct (Hclosing y Hy Hcy) as (j & Hj & Hjr & Huj).
    rewrite Hui, Huj in Hid. injection Hid as Hid.
    apply Hinj in Hid; [|done..]. assert (i = j) as -> by lia. congruence.
Qed.

End Identifiers.

(** *** The order of the output *)

Lemma increasing_app l1 l2 :
  increasing l1 -> increasing l2 ->
  (forall a b, In a l1 -> In b l2 -> a < b) ->
  increasing (l1 ++ l2).
Proof.
  intros H1 H2 H12 j k a b Hj Hk Hjk.
  apply lookup_app_Some in Hj as [Hj|[Hlj Hj]];
    apply lookup_app_Some in Hk as [Hk|[Hlk Hk]].
  - by eapply H1.
  - apply H12; apply list_elem_of_In; by eapply list_elem_of_lookup_2.
  - apply lookup_lt_Some in Hk. lia.
  - eapply H2; [exact Hj|exact Hk|lia].
Qed.

Lemma increasing_seq base n : increasing (seq base n).
Proof.
  intros j k a b Hj Hk Hjk. apply lookup_seq in Hj as [-> _].
  apply lookup_seq in Hk as [-> _]. lia.
Qed.

Lemma increasing_cons a l :
  increasing l -> (forall b, In b l -> a < b) -> increasing (a :: l).
Proof.
  intros Hl Ha. apply (increasing_app [a] l); [|done|].
  - intros [|j] [|k] x y Hj Hk Hjk; simpl in *; try done; lia.
  - intros x b [<-|[]] Hb. by apply Ha.
Qed.

Lemma increasing_fresh_positions seen ids base :
  increasing (fresh_positions seen ids base).
Proof.
  revert seen base. induction ids as [|i ids IH]; intros seen base; simpl; [done|].
  destruct (bool_decide (i ∈ seen)); [apply IH|].
  apply increasing_cons; [apply IH|].
  intros b Hb%fresh_positions_bounds. lia.
Qed.

(** In a list in the order of creation, the older of two locations comes
    first. *)
Lemma increasing_position l j k a b :
  increasing l -> l !! j = Some a -> l !! k = Some b -> a < b -> j < k.
Proof.
  intros Hl Hj Hk Hab. destruct (Nat.lt_trichotomy j k) as [|[->|Hkj]]; [done| |].
  - rewrite Hj in Hk. injection Hk as ->. lia.
  - pose proof (Hl k j b a Hk Hj Hkj). lia.
Qed.

Section Order.

Context `{Libraries}.

Lemma output_increasing companyLocation data_transaksi :
  forall seen prev olds w tr w',
    Forall2 (fun l o => statement_objects w !! l = Some o) prev olds ->
    trace_transactions companyLocation seen prev data_transaksi w = Ok (tr, w') ->
    increasing (output tr).
Proof.
  induction data_transaksi as [|t ts IH]; intros seen prev olds w tr w' Hprev Htr;
    simpl in Htr.
  - apply ret_Ok in Htr as [<- _]. done.
  - apply bind_Ok in Htr as (r & w1 & Hstep & Htr).
    apply bind_Ok in Htr as (tr' & w2 & Hrest & Htr). apply ret_Ok in Htr as [<- <-].
    eapply transaction_step_facts in Hstep as (t' & cands & closings & -> & Hf); eauto.
    pose proof (step_facts_next _ _ _ _ _ _ _ _ _ Hf) as Hnext.
    unfold output. simpl. apply increasing_app.
    + rewrite (sf_news _ _ _ _ _ _ _ _ _ Hf). apply increasing_app.
      * apply increasing_fresh_positions.
      * apply increasing_seq.
      * intros a b Ha%fresh_positions_bounds Hb%in_seq. rewrite length_map in Ha. lia.
    + by eapply IH.
    + intros a b Ha Hb.
      pose proof (emitted_locs _ _ _ _ _ _ _ _ _ Hf a Ha).
      pose proof (output_bounds _ _ _ _ _ _ _ _ b Hnext Hrest Hb). lia.
Qed.

Lemma flat_lookup sourceData olds c data_bo pairs k s f :
  Forall2 (owner_pair sourceData olds c) data_bo pairs ->
  flat pairs !! k = Some s ->
  st_shape s = Ownership f ->
  subject f = st_statementID c
  /\ exists kp p, kp < k /\ flat pairs !! kp = Some p
                  /\ interestedParty f = st_statementID p.
Proof.
  intros Hpairs. revert k.
  induction Hpairs as [|bo [p o] data_bo pairs Hpair _ IH]; intros k Hk Hsh; [done|].
  unfold flat in Hk |- *. simpl in Hk |- *. fold (flat pairs) in Hk |- *.
  destruct k as [|[|k]]; simpl in Hk.
  - injection Hk as <-. pose proof (op_person_type _ _ _ _ _ Hpair) as Hpty.
    simpl in Hpty. unfold st_statementType in Hpty. by rewrite Hsh in Hpty.
  - injection Hk as <-.
    destruct (op_ownership _ _ _ _ _ Hpair) as (f' & i & Hsh' & Hsubj & Hip & _).
    simpl in *. rewrite Hsh in Hsh'. injection Hsh' as <-.
    split; [done|]. exists 0, p. split_and!; [lia|done|done].
  - destruct (IH k Hk Hsh) as [Hsubj (kp & q & Hlt & Hq & Hip)].
    split; [done|]. exists (S (S kp)), q. split_and!; [lia|done|done].
Qed.

(** An identifier of the seen set is the statementID of a statement that
    was emitted by the transaction that put it there or by an earlier one. *)
Lemma seen_emitted_by companyLocation data_transaksi w tr w' :
  trace_transactions companyLocation ∅ [] data_transaksi w = Ok (tr, w') ->
  forall n r i, tr !! n = Some r -> i ∈ step_seen r ->
    exists m rm y, m <= n /\ tr !! m = Some rm /\ In y (step_newStatements rm)
                   /\ id_at w' y = Some i.
Proof.
  intros Htr n. induction n as [|n IH]; intros r i Hn Hi.
  - destruct (step_of_run _ _ _ _ _ _ _ _ (no_previous w) Htr _ _ Hn)
      as (t & wn & wn' & oldsn & cands & closings & _ & _ & Hf & _ & Hfin).
    rewrite (sf_seen _ _ _ _ _ _ _ _ _ Hf) in Hi. simpl in Hi.
    apply elem_of_union in Hi as [Hi|Hi]; [set_solver|].
    apply elem_of_list_to_set, list_elem_of_In, earliest_occurrence in Hi
      as (k & Hk & Hfirst).
    pose proof Hk as Hk'. apply list_lookup_fmap_Some in Hk' as (s & Hid & Hs).
    exists 0, r, (length (statement_objects wn) + k). split_and!; [lia|done| |].
    + rewrite (sf_news _ _ _ _ _ _ _ _ _ Hf). apply in_or_app. left.
      apply (fresh_positions_spec _ _ _ k i Hk). split; [set_solver|done].
    + unfold id_at. rewrite (final_candidate _ _ _ _ _ _ _ _ _ _ Hf Hfin k s Hs).
      simpl. congruence.
  - destruct (step_of_run _ _ _ _ _ _ _ _ (no_previous w) Htr _ _ Hn)
      as (t & wn & wn' & oldsn & cands & closings & _ & _ & Hf & _ & Hfin).
    destruct (lookup_lt_is_Some_2 tr n) as [a Ha]; [apply lookup_lt_Some in Hn; lia|].
    rewrite (sf_seen _ _ _ _ _ _ _ _ _ Hf) in Hi.
    rewrite (seen_before_S _ _ _ _ Ha) in Hi, Hf.
    destruct (decide (i ∈ step_seen a)) as [Hold|Hnew].
    { destruct (IH a i Ha Hold) as (m & rm & y & Hm & Hrm & Hy & Hid).
      exists m, rm, y. split_and!; [lia|done..]. }
    apply elem_of_union in Hi as [Hi|Hi]; [done|].
    apply elem_of_list_to_set, list_elem_of_In, earliest_occurrence in Hi
      as (k & Hk & Hfirst).
    pose proof Hk as Hk'. apply list_lookup_fmap_Some in Hk' as (s & Hid & Hs).
    exists (S n), r, (length (statement_objects wn) + k). split_and!; [lia|done| |].
    + rewrite (sf_news _ _ _ _ _ _ _ _ _ Hf). apply in_or_app. left.
      apply (fresh_positions_spec _ _ _ k i Hk). split; done.
    + unfold id_at. rewrite (final_candidate _ _ _ _ _ _ _ _ _ _ Hf Hfin k s Hs).
      simpl. congruence.
Qed.

(** An identifier that was seen before a transaction is the statementID of
    an emitted statement older than every statement of the transaction. *)
Lemma seen_before_older companyLocation data_transaksi w tr w' n r i x :
  trace_transactions companyLocation ∅ [] data_transaksi w = Ok (tr, w') ->
  tr !! n = Some r ->
  i ∈ seen_before ∅ tr n ->
  touches r x ->
  exists y, In y (output tr) /\ id_at w' y = Some i /\ y < x.
Proof.
  intros Htr Hn Hi Hx. destruct n as [|n]; [set_solver|].
  destruct (lookup_lt_is_Some_2 tr n) as [a Ha]; [apply lookup_lt_Some in Hn; lia|].
  rewrite (seen_before_S _ _ _ _ Ha) in Hi.
  destruct (seen_emitted_by _ _ _ _ _ Htr n a i Ha Hi) as (m & rm & y & Hm & Hrm & Hy & Hid).
  exists y. split_and!; [apply output_In; eauto|done|].
  assert (Hlt : m < S n) by lia.
  destruct (two_steps _ _ _ _ _ _ _ _ _ _ _ _ (no_previous w) Htr Hlt Hrm Hn)
    as (tm & wm & wm' & oldsm & candsm & closingsm & tn & wn & wn' & oldsn & candsn
        & closingsn & Hfm & Hfn & Hpre & _ & _).
  pose proof (touches_range _ _ _ _ _ _ _ _ _ _ Hfm (or_intror Hy)).
  pose proof (touches_range _ _ _ _ _ _ _ _ _ _ Hfn Hx).
  apply prefix_length_le in Hpre. lia.
Qed.

(** The statementID of a candidate is the statementID of an emitted
    statement that is no younger than the candidate. *)
Lemma candidate_id_emitted companyLocation data_transaksi w tr w' n r t wn wn' oldsn cands
    closings k s :
  trace_transactions companyLocation ∅ [] data_transaksi w = Ok (tr, w') ->
  tr !! n = Some r ->
  step_facts companyLocation (seen_before ∅ tr n) oldsn t wn r wn' cands closings ->
  statement_objects wn' `prefix_of` statement_objects w' ->
  cands !! k = Some s ->
  exists y, In y (output tr) /\ id_at w' y = Some (st_statementID s)
            /\ y <= length (statement_objects wn) + k.
Proof.
  intros Htr Hn Hf Hfin Hk.
  destruct (decide (st_statementID s ∈ seen_before ∅ tr n)) as [Hseen|Hnew].
  - destruct (seen_before_older _ _ _ _ _ n r _ (length (statement_objects wn) + k)
                Htr Hn Hseen) as (y & Hy & Hid & Hlt).
    { left. apply (candidate_locs _ _ _ _ _ _ _ _ _ Hf). apply lookup_lt_Some in Hk. lia. }
    exists y. split_and!; [done..|lia].
  - assert (Hin : In (st_statementID s) (List.map st_statementID cands)).
    { apply in_map. apply list_elem_of_In, list_elem_of_lookup. eauto. }
    apply earliest_occurrence in Hin as (k0 & Hk0 & Hfirst).
    assert (Hle : k0 <= k).
    { destruct (decide (k0 <= k)) as [|Hgt]; [done|]. destruct (Hfirst k); [lia|].
      by rewrite list_lookup_fmap, Hk. }
    pose proof Hk0 as Hk0'. apply list_lookup_fmap_Some in Hk0' as (s0 & Hid0 & Hs0).
    exists (length (statement_objects wn) + k0). split_and!; [| |lia].
    + apply output_In. exists n, r. split; [done|].
      rewrite (sf_news _ _ _ _ _ _ _ _ _ Hf). apply in_or_app. left.
      by apply (fresh_positions_spec _ _ _ k0 (st_statementID s) Hk0).
    + unfold id_at. rewrite (final_candidate _ _ _ _ _ _ _ _ _ _ Hf Hfin k0 s0 Hs0).
      simpl. congruence.
Qed.

(** X11. References point backwards in the output. For the statement at
    position [k] of the array [statements] returns: every statementID in its
    [replacesStatements], and for an ownership statement its
    [subject.describedByEntityStatement] and its
    [interestedParty.describedByPersonStatement], is the statementID of a
    statement at a position before [k]. *)
Theorem references_point_backwards data w tr w' k x s :
  statements_trace data w = Ok (tr, w') ->
  output tr !! k = Some x ->
  statement_at w' x = Some s ->
  (forall i, replaces i s = true -> emitted_earlier tr w' k i)
  /\ (forall o, st_shape s = Ownership o ->
        emitted_earlier tr w' k (subject o)
        /\ emitted_earlier tr w' k (interestedParty o)).
Proof.
  intros Htr Hk Hs. set (earlier := emitted_earlier tr w' k).
  apply statements_trace_inv in Htr as (companyLocation & ts & _ & _ & Htr).
  pose proof (output_increasing _ _ _ _ _ _ _ _ (no_previous w) Htr) as Hinc.
  assert (Hearlier : forall i y, In y (output tr) -> id_at w' y = Some i -> y < x ->
                       earlier i).
  { intros i y [j Hj]%list_elem_of_In%list_elem_of_lookup Hid Hlt.
    exists j, y. split_and!; [|done..]. by eapply increasing_position. }
  pose proof Hk as Hx. apply list_elem_of_lookup_2, list_elem_of_In in Hx.
  apply output_In in Hx as (n & r & Hn & Hx).
  destruct (detail_of_run _ _ _ _ _ _ _ Htr Hn)
    as (t & wn & wn' & oldsn & cands & closings & Ht & Hprev & Hf & Hd & Hpre & Hfin).
  assert (Holds : forall p, In p oldsn ->
            earlier (st_statementID p)
            /\ forall o, st_shape p = Ownership o ->
                 earlier (subject o) /\ earlier (interestedParty o)).
  { intros p Hp.
    destruct (previous_step _ _ _ _ _ _ _ _ _ _ _ _ _ p Htr Hn Hprev Hf Hpre Hp)
      as (k' & a & ta & wa & wa' & oldsa & closingsa & -> & Ha & _ & Hseen & Hfa & _).
    assert (Hids : forall i, In i (List.map st_statementID oldsn) -> earlier i).
    { intros i Hi.
      destruct (seen_before_older _ _ _ _ _ (S k') r i x Htr Hn) as (y & Hy & Hid & Hlt).
      - rewrite Hseen, (sf_seen _ _ _ _ _ _ _ _ _ Hfa).
        by apply elem_of_union_r, elem_of_list_to_set, list_elem_of_In.
      - by right.
      - by eapply Hearlier. }
    split; [by apply Hids, in_map|].
    intros o Ho. destruct (sf_references _ _ _ _ _ _ _ _ _ Hfa p o Hp Ho). auto. }
  destruct (emitted_cases _ _ _ _ _ _ _ _ _ Hf x Hx)
    as [(kx & s' & -> & Hkx & Hfresh)|(j & c & -> & Hj)].
  - rewrite (final_candidate _ _ _ _ _ _ _ _ _ _ Hf Hfin kx s' Hkx) in Hs.
    injection Hs as ->. split.
    + intros i Hrep. pose proof (sf_replaces _ _ _ _ _ _ _ _ _ Hf kx s Hkx) as Hk'.
      unfold replaces in Hrep. destruct (st_replacesStatements s) as [rr|]; [|done].
      destruct Hk' as [_ Hsub]. apply existsb_exists in Hrep as (i' & Hi' & Heq).
      apply String.eqb_eq in Heq as <-.
      apply Hsub, in_map_iff in Hi' as (p & <- & Hp). by apply Holds.
    + intros o Ho.
      destruct (sd_candidates _ _ _ _ _ _ _ Hd)
        as (c & pairs & data_bo & Hbo & Hcands & Hcid & Hcids & _ & Hpairs).
      subst cands. destruct kx as [|kx]; simpl in Hkx.
      { injection Hkx as ->. unfold st_identifiers in Hcids. by rewrite Ho in Hcids. }
      destruct (flat_lookup _ _ _ _ _ _ _ _ Hpairs Hkx Ho)
        as [Hsubj (kp & p & Hlt & Hp & Hip)].
      split.
      * destruct (candidate_id_emitted _ _ _ _ _ _ _ _ _ _ _ _ _ 0 c Htr Hn Hf Hfin
                    eq_refl) as (y & Hy & Hid & Hle).
        rewrite Hsubj. eapply Hearlier; [exact Hy|exact Hid|lia].
      * destruct (candidate_id_emitted _ _ _ _ _ _ _ _ _ _ _ _ _ (S kp) p Htr Hn Hf Hfin
                    Hp) as (y & Hy & Hid & Hle).
        rewrite Hip. eapply Hearlier; [exact Hy|exact Hid|lia].
  - rewrite (final_closing _ _ _ _ _ _ _ _ _ _ Hf Hfin j c Hj) in Hs.
    injection Hs as ->.
    pose proof (sf_closings _ _ _ _ _ _ _ _ _ Hf) as Hcl.
    rewrite Forall_forall in Hcl.
    destruct (Hcl s) as (p & Hp & _ & (u & ->) & _).
    { apply list_elem_of_lookup. eauto. }
    destruct (Holds p Hp) as [Hid Hrefs]. split.
    + intros i Hrep. unfold replaces in Hrep. simpl in Hrep. rewrite orb_false_r in Hrep.
      by apply String.eqb_eq in Hrep as ->.
    + intros o Ho. by apply Hrefs.
Qed.

End Order.

(** *** When a run returns and when it raises *)

Lemma bind_eq {A B} (m : M A) (k : A -> M B) w a w1 :
  m w = Ok (a, w1) -> bind m k w = k a w1.
Proof. intros Hm. unfold bind. by rewrite Hm. Qed.

Lemma bind_throws {A B} (m : M A) (k : A -> M B) w :
  (forall a w1, m w = Ok (a, w1) -> exists e, k a w1 = Throw e) ->
  exists e, bind m k w = Throw e.
Proof. unfold bind. destruct (m w) as [[a w1]|e]; eauto. Qed.

Lemma load_returns l s w : statement_objects w !! l = Some s -> load l w = Ok (s, w).
Proof. intros Hl. unfold load. by rewrite Hl. Qed.

Lemma outcome_Ok {A} (m : M A) w a w' (post : A -> world -> Prop) :
  outcome (m w) post -> m w = Ok (a, w') -> post a w'.
Proof. intros Hout Hm. by rewrite Hm in Hout. Qed.

Lemma not_ownership_identifiers s :
  st_statementType s <> OwnershipOrControlStatement -> is_Some (st_identifiers s).
Proof.
  unfold st_statementType, st_identifiers. destruct (st_shape s); eauto. done.
Qed.

Lemma matchingIdentifiers_total a b :
  is_Some (st_identifiers a) -> is_Some (st_identifiers b) ->
  exists r, matchingIdentifiers a (Some b) = Ok r.
Proof.
  intros [ia Ha] [ib Hb]. unfold matchingIdentifiers. rewrite Ha, Hb.
  destruct ia; eauto.
Qed.

Lemma replacedOwnershipStatements_total newStatement newInterestedParty newSubject
    oldStatements :
  st_statementType newStatement = OwnershipOrControlStatement ->
  is_Some (st_identifiers newInterestedParty) ->
  is_Some (st_identifiers newSubject) ->
  parties_identified oldStatements ->
  exists r, replacedOwnershipStatements newStatement newInterestedParty newSubject
              oldStatements = Ok r.
Proof.
  intros Hnew Hip Hsubj Holds. unfold replacedOwnershipStatements.
  rewrite filter_result_total; [simpl; eauto|].
  apply Forall_forall. intros s Hs%list_elem_of_In.
  destruct (statementType_eqb _ _) eqn:Hty; [|eauto].
  apply statementType_eqb_eq in Hty. rewrite Hnew in Hty. unfold st_statementType in Hty.
  destruct (st_shape s) as [e|p|o] eqn:Hsh; [done..|].
  destruct (Holds s o Hs Hsh) as [(a & -> & Ha) (b & -> & Hb)].
    destruct (matchingIdentifiers_total _ _ Hip Ha) as [[|] ->]; [|eauto].
    by apply matchingIdentifiers_total.
Qed.

Lemma push_candidate_returns prev replaced x st w s olds :
  statement_objects w !! x = Some s ->
  Forall2 (fun l o => statement_objects w !! l = Some o) prev olds ->
  (exists r, replaced s olds = Ok r) ->
  exists st' w', push_candidate prev replaced x st w = Ok (st', w').
Proof.
  intros Hs Holds [r Hr]. unfold push_candidate.
  rewrite (bind_eq _ _ _ _ _ (load_returns _ _ _ Hs)).
  destruct (bool_decide _); [by eexists _, _|].
  rewrite (bind_eq _ _ _ _ _ (load_all_total _ _ _ Holds)).
  unfold bind, lift, update. rewrite Hr, Hs. by eexists _, _.
Qed.

Lemma ownerships_returns xs w :
  Forall (fun l => is_Some (statement_objects w !! l)) xs ->
  exists ys, ownerships xs w = Ok (ys, w).
Proof.
  induction 1 as [|x xs [s Hs] _ [ys IH]]; simpl; [by eexists|].
  rewrite (bind_eq _ _ _ _ _ (load_returns _ _ _ Hs)).
  rewrite (bind_eq _ _ _ _ _ IH). by eexists.
Qed.

Lemma closable_extends w w' ps : closable w ps -> extends w w' -> closable w' ps.
Proof.
  intros [Hu Hne] Hext. split; [by eapply usable_extends|].
  intros s' o Hs' Hsh. inversion Hu as [|? ? (s & Hs & _) _]; subst.
  destruct Hext as [Hobjs _]. destruct (Hobjs ps s Hs) as (s2 & Hs2 & Hsh2).
  rewrite Hs' in Hs2. injection Hs2 as <-. apply (Hne s o Hs). congruence.
Qed.

Lemma usable_loads w ls :
  usable w ls ->
  exists ss, Forall2 (fun l s => statement_objects w !! l = Some s) ls ss.
Proof.
  induction 1 as [|l ls (s & Hs & _) _ [ss IH]]; [by exists []|].
  exists (s :: ss). by constructor.
Qed.

Section Progress.

Context `{Libraries}.

Lemma mapCompanyStatement_returns data companyLocation sourceData w :
  exists l w', mapCompanyStatement data companyLocation sourceData w = Ok (l, w').
Proof.
  unfold mapCompanyStatement, source, publicationDetails, new_Date_toISOString,
    new_statement, bind, ret. simpl. by eexists _, _.
Qed.

Lemma mapPersonStatement_returns data sourceData w :
  person_ok data = true ->
  exists l w', mapPersonStatement data sourceData w = Ok (l, w').
Proof.
  unfold person_ok. intros [[Hnegara Hjenis]%andb_true_iff Haddr]%andb_true_iff.
  unfold mapPersonStatement.
  destruct (to_string_printable _ Hjenis) as [jenis_identitas Hj].
  destruct (JS.strict_eq _ _).
  - unfold negara_trim. destruct (JS.read data "negara") as [| | | |n| |]; try done.
    pose proof (mapAddress_total data true (getAlpha2Code (String_trim n) "en")) as Ha.
    rewrite Haddr in Ha. destruct Ha as [a Ha].
    unfold source, publicationDetails, new_Date_toISOString, new_statement, bind, ret,
      lift. rewrite Hj, Ha. simpl. by eexists _, _.
  - pose proof (mapAddress_total data false (VStr "ID")) as Ha.
    rewrite Haddr in Ha. destruct Ha as [a Ha].
    unfold source, publicationDetails, new_Date_toISOString, new_statement, bind, ret,
      lift. rewrite Hj, Ha. simpl. by eexists _, _.
Qed.

Lemma mapPersonStatement_raises data sourceData w :
  person_ok data = false ->
  exists msg, mapPersonStatement data sourceData w = Throw (TypeError msg).
Proof.
  unfold person_ok. intros Hok. unfold mapPersonStatement.
  pose proof (to_string_total (JS.read data "jenis_identitas")) as Hj.
  destruct (JS.strict_eq _ _).
  - unfold negara_trim. destruct (JS.read data "negara") as [| | | |n| |];
      try (by eexists).
    pose proof (mapAddress_total data true (getAlpha2Code (String_trim n) "en")) as Ha.
    cbv [bind lift ret].
    destruct (printable (JS.read data "jenis_identitas")).
    + destruct Hj as [s ->]. cbn [andb] in Hok. rewrite Hok in Ha.
      destruct Ha as [msg ->]. by eexists.
    + destruct Hj as [msg ->]. by eexists.
  - pose proof (mapAddress_total data false (VStr "ID")) as Ha.
    cbv [bind lift ret].
    destruct (printable (JS.read data "jenis_identitas")).
    + destruct Hj as [s ->]. cbn [andb] in Hok. rewrite Hok in Ha.
      destruct Ha as [msg ->]. by eexists.
    + destruct Hj as [msg ->]. by eexists.
Qed.

Lemma mapOwnershipOrControlStatement_returns companyStatement personStatement data
    sourceData w :
  is_Some (statement_objects w !! companyStatement) ->
  is_Some (statement_objects w !! personStatement) ->
  data <> VUndefined -> data <> VNull ->
  exists l w', mapOwnershipOrControlStatement companyStatement personStatement data
                 sourceData w = Ok (l, w').
Proof.
  intros [c Hc] [p Hp] Hu Hn. unfold mapOwnershipOrControlStatement.
  rewrite (bind_eq _ _ _ _ _ (load_returns _ _ _ Hc)).
  rewrite (bind_eq _ _ _ _ _ (load_returns _ _ _ Hp)).
  unfold hubungan_bo.
  destruct data; try done;
    unfold source, publicationDetails, new_Date_toISOString, new_statement,
      new_interest, bind, ret, lift; simpl; by eexists _, _.
Qed.

Lemma owner_ok_spec bo_datum :
  owner_ok bo_datum = true ->
  bo_datum <> VUndefined /\ bo_datum <> VNull
  /\ person_ok (personData_of bo_datum) = true.
Proof.
  unfold owner_ok. intros Hok. split_and!; [by intros -> | by intros -> |].
  by destruct bo_datum.
Qed.

Lemma owner_step_returns objs0 cands prev olds companyStatement c sourceData st bo_datum
    w :
  statement_objects w = objs0 ++ cands ->
  Forall2 (fun l o => objs0 !! l = Some o) prev olds ->
  companyStatement = length objs0 ->
  cands !! 0 = Some c ->
  st_statementType c = EntityStatement ->
  parties_identified olds ->
  owner_ok bo_datum = true ->
  exists st' w', owner_step prev companyStatement sourceData st bo_datum w = Ok (st', w').
Proof.
  intros Hobjs Hprev -> Hc Hcty Holds (Hu & Hn & Hwna)%owner_ok_spec.
  assert (Hprev' : forall ext,
            Forall2 (fun l o => (objs0 ++ ext) !! l = Some o) prev olds).
  { intros ext. eapply Forall2_impl; [exact Hprev|]. intros l o Hl.
    by apply lookup_app_l_Some. }
  unfold owner_step.
  destruct (mapPersonStatement_returns _ sourceData w Hwna) as (x & w1 & Hmap).
  fold (personData_of bo_datum).
  rewrite (bind_eq _ _ _ _ _ Hmap).
  apply mapPersonStatement_Ok in Hmap as (p0 & Halloc & Hpid & Hpty & Hpnone).
  pose proof Halloc as (Hx & Hobjs1 & _).
  destruct (push_candidate_returns prev replacedStatements x st w1 p0 olds)
    as (st1 & w2 & Hpush).
  { rewrite Hobjs1, Hx. by rewrite lookup_app_r, Nat.sub_diag by lia. }
  { rewrite Hobjs1, Hobjs, <- app_assoc. apply Hprev'. }
  { apply replacedStatements_total, not_ownership_identifiers. by rewrite Hpty. }
  rewrite (bind_eq _ _ _ _ _ Hpush).
  eapply (push_candidate_detail prev olds) in Hpush
    as (p & Hobjs2 & _ & Hpsh & _); eauto; cycle 1.
  { rewrite Hobjs. apply Hprev'. }
  assert (Hcl : statement_objects w2 !! length objs0 = Some c).
  { rewrite Hobjs2, Hobjs, <- app_assoc. rewrite lookup_app_r, Nat.sub_diag by lia.
    by apply lookup_app_l_Some. }
  assert (Hpl : statement_objects w2 !! x = Some p).
  { rewrite Hobjs2, Hx. by rewrite lookup_app_r, Nat.sub_diag by lia. }
  destruct (mapOwnershipOrControlStatement_returns (length objs0) x bo_datum sourceData w2)
    as (y & w3 & Hmap); [by eauto..|].
  rewrite (bind_eq _ _ _ _ _ Hmap).
  apply mapOwnershipOrControlStatement_Ok in Hmap
    as (o0 & c' & p' & fields & Halloc' & _ & _ & _ & Hosh & _).
  pose proof Halloc' as (Hy & Hobjs3 & _).
  rewrite (bind_eq _ _ _ p w3).
  2:{ apply load_returns. rewrite Hobjs3. by apply lookup_app_l_Some. }
  rewrite (bind_eq _ _ _ c w3).
  2:{ apply load_returns. rewrite Hobjs3. by apply lookup_app_l_Some. }
  apply (push_candidate_returns prev _ y st1 w3 o0 olds).
  - rewrite Hobjs3, Hy. by rewrite lookup_app_r, Nat.sub_diag by lia.
  - rewrite Hobjs3, Hobjs2, Hobjs, <- !app_assoc. apply Hprev'.
  - apply replacedOwnershipStatements_total; [|..|done].
    + unfold st_statementType. by rewrite Hosh.
    + apply not_ownership_identifiers. unfold st_statementType in *.
      rewrite Hpsh. by rewrite Hpty.
    + apply not_ownership_identifiers. by rewrite Hcty.
Qed.

Lemma owners_returns objs0 prev olds companyStatement c sourceData data_bo :
  Forall2 (fun l o => objs0 !! l = Some o) prev olds ->
  companyStatement = length objs0 ->
  st_statementType c = EntityStatement ->
  parties_identified olds ->
  forallb owner_ok data_bo = true ->
  forall cands st w,
    statement_objects w = objs0 ++ cands ->
    cands !! 0 = Some c ->
    exists st' w',
      forEach (owner_step prev companyStatement sourceData) data_bo st w = Ok (st', w').
Proof.
  intros Hprev Hcomp Hcty Holds.
  induction data_bo as [|bo data_bo IH]; intros Hok cands st w Hobjs Hc; simpl.
  - by eexists _, _.
  - simpl in Hok. apply andb_true_iff in Hok as [Hbo Hok].
    destruct (owner_step_returns objs0 cands prev olds companyStatement c sourceData st
                bo w) as (st1 & w1 & Hstep); try done.
    rewrite (bind_eq _ _ _ _ _ Hstep).
    eapply owner_step_detail in Hstep as (p & o & Hobjs1 & _); eauto.
    apply (IH Hok (cands ++ [p; o])); [done|].
    by rewrite lookup_app_l by (apply lookup_lt_Some in Hc; done).
Qed.

Lemma close_if_ended_returns txs news ps w :
  closable w ps ->
  (forall s, statement_objects w !! ps = Some s ->
             st_statementType s = OwnershipOrControlStatement) ->
  usable w txs ->
  exists news' w', close_if_ended txs news ps w = Ok (news', w').
Proof.
  intros [Hps Hne] Hty Htxs. inversion Hps as [|? ? (p & Hp & Hint) _]; subst.
  unfold close_if_ended.
  rewrite (bind_eq _ _ _ _ _ (load_returns _ _ _ Hp)).
  destruct (usable_loads w txs Htxs) as [ts Hts].
  rewrite (bind_eq _ _ _ _ _ (load_all_total _ _ _ Hts)).
  destruct (existsb _ ts || existsb _ ts); [by eexists _, _|].
  unfold new_statement, call_uuidv4, bind, update, load. simpl.
  rewrite lookup_app_r, Nat.sub_diag by lia. simpl.
  rewrite insert_app_r_alt, Nat.sub_diag by lia. simpl.
  rewrite lookup_app_r, Nat.sub_diag by lia. simpl.
  specialize (Hty p Hp). unfold st_statementType in Hty.
  destruct (st_shape p) as [| |o] eqn:Hsh; [done..|].
  pose proof (Hint o Hsh) as Hi. specialize (Hne p o Hp Hsh).
  destruct (interests o) as [|i rest]; [done|].
  inversion Hi as [|? ? Hlt _]; subst.
  unfold new_Date_toISOString, update_interest, bind. simpl.
  destruct (lookup_lt_is_Some_2 (interest_objects w) i Hlt) as [io ->]. simpl.
  rewrite lookup_app_r, Nat.sub_diag by lia. simpl. by eexists _, _.
Qed.

Lemma closure_returns txs ended :
  forall news w,
    Forall (closable w) ended ->
    Forall (fun ps => forall s, statement_objects w !! ps = Some s ->
                                st_statementType s = OwnershipOrControlStatement) ended ->
    usable w txs ->
    exists news' w', forEach (close_if_ended txs) ended news w = Ok (news', w').
Proof.
  induction ended as [|ps ended IH]; intros news w Hcl Hty Htxs; simpl.
  - by eexists _, _.
  - inversion Hcl as [|? ? Hps Hcl']; subst. inversion Hty as [|? ? Hpty Hty']; subst.
    destruct (close_if_ended_returns txs news ps w Hps Hpty Htxs) as (news1 & w1 & Hstep).
    rewrite (bind_eq _ _ _ _ _ Hstep).
    pose proof (outcome_Ok _ _ _ _ _
                  (outcome_close_if_ended txs news ps w (proj1 Hps) Htxs) Hstep) as Hext.
    simpl in Hext.
    apply IH.
    + eapply Forall_impl; [exact Hcl'|]. intros l Hl. by eapply closable_extends.
    + rewrite Forall_forall in Hcl', Hty' |- *. intros l Hl s' Hs'.
      destruct (Hcl' l Hl) as [Hu _]. inversion Hu as [|? ? (s & Hs & _) _]; subst.
      destruct Hext as [Hobjs _]. destruct (Hobjs l s Hs) as (s2 & Hs2 & Hsh2).
      rewrite Hs' in Hs2. injection Hs2 as <-.
      pose proof (Hty' l Hl s Hs) as Hlty. unfold st_statementType in *. by rewrite Hsh2.
    + by eapply usable_extends.
Qed.

(** The callback returns for a transaction that is well formed, when the
    statements of the previous transaction are fit to be matched against
    and to be closed. *)
Lemma transaction_step_returns companyLocation seen prev olds t w :
  Forall2 (fun l o => statement_objects w !! l = Some o) prev olds ->
  usable w prev ->
  parties_identified olds ->
  (forall s o, In s olds -> st_shape s = Ownership o -> interests o <> []) ->
  transaction_ok (VObj t) = true ->
  exists r w', transaction_step companyLocation seen prev (VObj t) w = Ok (r, w').
Proof.
  intros Hprev Huse Holds Hne Hok. unfold transaction_step.
  fold (sourceData_of (VObj t)).
  set (companyData := [("nama_korporasi", JS.get t "nama_korporasi")]).
  destruct (mapCompanyStatement_returns companyData companyLocation
              (sourceData_of (VObj t)) w) as (x & w1 & Hmap).
  rewrite (bind_eq _ _ _ _ _ Hmap).
  pose proof (outcome_Ok _ _ _ _ _ (outcome_mapCompanyStatement _ _ _ w) Hmap)
    as [Hext1 Hux].
  apply mapCompanyStatement_Ok in Hmap as (c0 & Halloc & Hcid & Hcty & Hcnone).
  pose proof Halloc as (Hx & Hobjs1 & _).
  assert (Hprev1 : Forall2 (fun l o => statement_objects w1 !! l = Some o) prev olds).
  { rewrite Hobjs1. eapply Forall2_impl; [exact Hprev|]. intros l o Hl.
    by apply lookup_app_l_Some. }
  set (st0 := {| seenStatementIds := seen; transactionStatements := [];
                 newStatements := [] |}).
  destruct (push_candidate_returns prev replacedStatements x st0 w1 c0 olds)
    as (st1 & w2 & Hpush); [|done| |].
  { rewrite Hobjs1, Hx. by rewrite lookup_app_r, Nat.sub_diag by lia. }
  { apply replacedStatements_total, not_ownership_identifiers. by rewrite Hcty. }
  rewrite (bind_eq _ _ _ _ _ Hpush).
  pose proof (outcome_Ok _ _ _ _ _
                (outcome_push_candidate prev replacedStatements x st0 w1 Hux
                   (usable_extends _ _ _ Huse Hext1)
                   (fun s os e => replacedStatements_js_error s os e)) Hpush)
    as [Hext2 Htxs1].
  simpl in Htxs1.
  eapply (push_candidate_detail prev olds) in Hpush
    as (c & Hobjs2 & _ & Hcsh & _); eauto.
  simpl in Hok. destruct (JS.get t "data_bo") as [| | | | |data_bo|]; try done.
  destruct (owners_returns (statement_objects w) prev olds x c (sourceData_of (VObj t))
              data_bo Hprev Hx) with (cands := [c]) (st := st1) (w := w2)
    as (st2 & w3 & Hloop); try done.
  { unfold st_statementType in *. by rewrite Hcsh. }
  rewrite (bind_eq _ _ _ _ _ Hloop).
  pose proof (extends_trans _ _ _ Hext1 Hext2) as Hext12.
  assert (Hutxs1 : usable w2 (transactionStatements st1)).
  { rewrite Htxs1. by eapply usable_extends. }
  pose proof (outcome_Ok _ _ _ _ _
                (outcome_owners prev x (sourceData_of (VObj t)) data_bo st1 w2
                   (usable_extends _ _ _ Hux Hext2)
                   (usable_extends _ _ _ Huse Hext12) Hutxs1) Hloop)
    as [Hext3 Htxs2].
  pose proof (extends_trans _ _ _ Hext12 Hext3) as Hext13.
  eapply (owners_detail (statement_objects w) prev olds x c) in Hloop
    as (pairs & Hobjs3 & _); eauto.
  assert (Hprev3 : Forall2 (fun l o => statement_objects w3 !! l = Some o) prev olds).
  { rewrite Hobjs3. eapply Forall2_impl; [exact Hprev|]. intros l o Hl.
    by apply lookup_app_l_Some. }
  destruct (ownerships_returns prev w3) as [ended Hended].
  { destruct (Forall2_lookup_In _ _ _ Hprev3) as [Hin _].
    apply Forall_forall. intros l Hl%list_elem_of_In.
    destruct (Hin l Hl) as (o & Ho & _). eauto. }
  rewrite (bind_eq _ _ _ _ _ Hended).
  apply ownerships_Ok in Hended as [_ Hended].
  destruct (closure_returns (transactionStatements st2) ended (newStatements st2) w3)
    as (news & w4 & Hclose); [| |done|].
  - apply Forall_forall. intros ps (Hps & s & Hs & Hsty)%list_elem_of_In%Hended.
    destruct (Forall2_lookup_In _ _ _ Hprev3) as [Hin _].
    destruct (Hin ps Hps) as (o & Ho & Holdo).
    split.
    + eapply usable_extends; [|exact Hext13].
      unfold usable in Huse. rewrite Forall_forall in Huse. constructor; [|constructor].
      apply Huse. by apply list_elem_of_In.
    + intros s' f Hs' Hsh. rewrite Ho in Hs'. injection Hs' as <-. by eapply Hne.
  - apply Forall_forall. intros ps (Hps & s & Hs & Hsty)%list_elem_of_In%Hended s' Hs'.
    congruence.
  - rewrite (bind_eq _ _ _ _ _ Hclose). by eexists _, _.
Qed.

End Progress.

Section Total.

Context `{Libraries}.

Lemma find_statement_Some i cs a :
  find_statement i cs = Some a -> In a cs /\ st_statementID a = i.
Proof.
  unfold find_statement. intros [Hin Heq]%find_some. split; [done|].
  by apply String.eqb_eq.
Qed.

(** The candidates of a transaction whose ownership statements share no
    statementID with its person statements are fit to be matched against. *)
Lemma candidates_fit companyLocation seen olds t w r w' cands closings :
  step_facts companyLocation seen olds t w r w' cands closings ->
  step_detail companyLocation olds t w w' cands closings ->
  ownership_ids_apart companyLocation (VObj t) = true ->
  parties_identified cands
  /\ forall s o, In s cands -> st_shape s = Ownership o -> interests o <> [].
Proof.
  intros Hf Hd Hapart.
  destruct (sd_candidates _ _ _ _ _ _ _ Hd)
    as (c & pairs & data_bo & Hbo & -> & Hcid & Hcids & _ & Hpairs).
  unfold ownership_ids_apart in Hapart. rewrite Hbo in Hapart.
  assert (Hown : forall s o, In s (c :: flat pairs) -> st_shape s = Ownership o ->
            exists bo p, In bo data_bo /\ In p (flat pairs)
              /\ st_statementType p = PersonStatement
              /\ (exists bo', In bo' data_bo
                              /\ st_statementID p = person_id (sourceData_of (VObj t)) bo')
              /\ st_statementID s
                 = ownership_id (st_statementID c) (sourceData_of (VObj t)) bo
              /\ subject o = st_statementID c
              /\ interestedParty o = st_statementID p
              /\ interests o <> []).
  { intros s o [<-|Hs] Hsh.
    { unfold st_identifiers in Hcids. by rewrite Hsh in Hcids. }
    destruct (flat_In _ _ _ _ _ _ Hpairs Hs)
      as (bo & [p o'] & Hbo' & Hpo & Hp & _ & [->| ->]); simpl in *.
    { pose proof (op_person_type _ _ _ _ _ Hpo) as Hpty. simpl in Hpty.
      unfold st_statementType in Hpty. by rewrite Hsh in Hpty. }
    destruct (op_ownership _ _ _ _ _ Hpo) as (f & i & Hsh' & Hsubj & Hip & Hint).
    simpl in *. rewrite Hsh in Hsh'. injection Hsh' as <-.
    exists bo, p. split_and!; try done.
    - exact (op_person_type _ _ _ _ _ Hpo).
    - exists bo. split; [done|]. exact (op_person_id _ _ _ _ _ Hpo).
    - exact (op_ownership_id _ _ _ _ _ Hpo).
    - by rewrite Hint. }
  split.
  - intros s o Hs Hsh.
    destruct (Hown s o Hs Hsh)
      as (bo & p & Hbo' & Hp & Hpty & (bop & Hbop & Hpid) & Hoid & Hsubj & Hip & _).
    split.
    + destruct (find_statement_is_Some (interestedParty o) (c :: flat pairs))
        as [a Ha].
      { rewrite Hip. right. by apply in_map. }
      exists a. split; [done|].
      apply find_statement_Some in Ha as [Hina Hida].
      destruct (st_shape a) as [e|q|oa] eqn:Hsha;
        [unfold st_identifiers; rewrite Hsha; eauto..|exfalso].
      destruct (Hown a oa Hina Hsha) as (boa & _ & Hboa & _ & _ & _ & Haid & _).
      rewrite forallb_forall in Hapart. specialize (Hapart boa Hboa).
      rewrite forallb_forall in Hapart. specialize (Hapart bop Hbop).
      apply negb_true_iff, String.eqb_neq in Hapart. apply Hapart.
      rewrite <- Hcid, <- Haid, <- Hpid. congruence.
    + exists c. split; [|by rewrite Hcids].
      unfold find_statement. simpl. rewrite Hsubj. by rewrite String.eqb_refl.
  - intros s o Hs Hsh. by destruct (Hown s o Hs Hsh) as (? & ? & ? & ? & ? & ? & ? & ? & ? & ?).
Qed.

Lemma flatMap_transactions_returns companyLocation data_transaksi :
  forall seen prev olds w,
    Forall2 (fun l o => statement_objects w !! l = Some o) prev olds ->
    usable w prev ->
    parties_identified olds ->
    (forall s o, In s olds -> st_shape s = Ownership o -> interests o <> []) ->
    forallb transaction_ok data_transaksi = true ->
    forallb (ownership_ids_apart companyLocation) data_transaksi = true ->
    exists out w',
      flatMap_transactions companyLocation seen prev data_transaksi w = Ok (out, w').
Proof.
  induction data_transaksi as [|t ts IH]; intros seen prev olds w Hprev Huse Holds Hne
    Hok Hapart; simpl.
  - by eexists _, _.
  - simpl in Hok, Hapart. apply andb_true_iff in Hok as [Ht Hok].
    apply andb_true_iff in Hapart as [Hat Hapart].
    destruct t as [| | | | | |t]; try done.
    destruct (transaction_step_returns companyLocation seen prev olds t w)
      as (r & w1 & Hstep); try done.
    rewrite (bind_eq _ _ _ _ _ Hstep).
    pose proof (outcome_Ok _ _ _ _ _
                  (outcome_transaction_step companyLocation seen prev (VObj t) w Huse)
                  Hstep) as [_ Hutxs].
    pose proof Hstep as Hstep'.
    eapply transaction_step_facts in Hstep' as (t' & cands & closings & [= <-] & Hf); eauto.
    pose proof (transaction_step_detail _ _ _ _ _ _ _ _ _ _ Hprev Hstep Hf) as Hd.
    destruct (candidates_fit _ _ _ _ _ _ _ _ _ Hf Hd Hat) as [Hfit Hne'].
    destruct (IH (step_seen r) (step_transactionStatements r) cands w1)
      as (out & w2 & Hrest); try done.
    { exact (step_facts_next _ _ _ _ _ _ _ _ _ Hf). }
    rewrite (bind_eq _ _ _ _ _ Hrest). by eexists _, _.
Qed.

(** X12. On well-formed input [statements] returns. The input is well formed
    ([input_ok]) when [data.data] is an object whose [data_transaksi] is an
    array of objects, each with an array [data_bo] whose elements are
    neither [null] nor [undefined] and give a copy that is fit for
    [mapPersonStatement]: [negara] is a string whenever [kewarganegaraan] is
    [WNA], and [jenis_identitas] and the truthy fields of the address convert
    to strings, all as read from the copy, its prototype included. One
    thing more is asked, of the hash: within a transaction no ownership
    statement gets the statementID of a person statement
    ([ownership_ids_apart]); otherwise [find] could hand an ownership
    statement, which has no [identifiers], to [matchingIdentifiers]. *)
Theorem statements_returns_on_well_formed_input data w :
  input_ok data = true ->
  forallb (ownership_ids_apart (companyLocation_of data)) (data_transaksi_of data) = true ->
  exists out w', statements data w = Ok (out, w').
Proof.
  unfold input_ok, statements, companyLocation_of, data_transaksi_of.
  destruct data as [| | | | | |d]; try done.
  destruct (JS.get d "data") as [| | | | | |dd]; try done.
  destruct (JS.get dd "data_transaksi") as [| | | | |ts|]; try done.
  intros Hok Hapart.
  apply (flatMap_transactions_returns _ _ ∅ [] []); try done; constructor.
Qed.

End Total.

Section Failure.

Context `{Libraries}.

Lemma owner_step_throws prev companyStatement sourceData st bo_datum w :
  owner_ok bo_datum = false ->
  exists e, owner_step prev companyStatement sourceData st bo_datum w = Throw e.
Proof.
  intros Hok. unfold owner_step.
  assert (Hnull : bo_datum = VUndefined \/ bo_datum = VNull ->
            exists e, owner_step prev companyStatement sourceData st bo_datum w = Throw e).
  { intros Hbo. unfold owner_step.
    apply bind_throws. intros x w1 _. apply bind_throws. intros st1 w2 _.
    apply bind_throws. intros y w3 Hmap. exfalso.
    unfold mapOwnershipOrControlStatement in Hmap.
    apply bind_Ok in Hmap as (c & w4 & _ & Hmap).
    apply bind_Ok in Hmap as (p & w5 & _ & Hmap).
    apply bind_Ok in Hmap as (d & w6 & Hd & _).
    apply lift_Ok in Hd as [Hd _]. by destruct Hbo as [-> | ->]. }
  assert (Hperson : person_ok (personData_of bo_datum) = false ->
            exists e, owner_step prev companyStatement sourceData st bo_datum w = Throw e).
  { intros Hp. unfold owner_step. fold (personData_of bo_datum).
    destruct (mapPersonStatement_raises _ sourceData w Hp) as [msg Hmsg].
    exists (TypeError msg). unfold bind. by rewrite Hmsg. }
  destruct bo_datum; try (apply Hnull; by auto); by apply Hperson.
Qed.

Lemma owners_throw prev companyStatement sourceData data_bo :
  forallb owner_ok data_bo = false ->
  forall st w,
    exists e, forEach (owner_step prev companyStatement sourceData) data_bo st w = Throw e.
Proof.
  induction data_bo as [|bo data_bo IH]; intros Hok st w; simpl in *; [done|].
  destruct (owner_ok bo) eqn:Hbo; simpl in Hok.
  - apply bind_throws. intros st1 w1 _. by apply IH.
  - destruct (owner_step_throws prev companyStatement sourceData st bo w Hbo) as [e He].
    exists e. unfold bind. by rewrite He.
Qed.

Lemma transaction_step_throws companyLocation seen prev transaction w :
  transaction_ok transaction = false ->
  exists e, transaction_step companyLocation seen prev transaction w = Throw e.
Proof.
  intros Hok. unfold transaction_step.
  destruct transaction as [| | | | | |t]; try (by eexists).
  apply bind_throws. intros x w1 _. apply bind_throws. intros st1 w2 _.
  simpl in Hok. destruct (JS.get t "data_bo") as [| | | | |data_bo|]; try (by eexists).
  match goal with
  | |- context [forEach (owner_step prev x ?sd) data_bo st1] =>
      destruct (owners_throw prev x sd data_bo Hok st1 w2) as [e He]
  end.
  exists e. unfold bind. by rewrite He.
Qed.

Lemma flatMap_transactions_throws companyLocation data_transaksi :
  forallb transaction_ok data_transaksi = false ->
  forall seen prev w,
    exists e, flatMap_transactions companyLocation seen prev data_transaksi w = Throw e.
Proof.
  induction data_transaksi as [|t ts IH]; intros Hok seen prev w; simpl in *; [done|].
  destruct (transaction_ok t) eqn:Ht; simpl in Hok.
  - apply bind_throws. intros r w1 _. apply bind_throws. intros out w2 Hrest.
    destruct (IH Hok (step_seen r) (step_transactionStatements r) w1) as [e He].
    congruence.
  - destruct (transaction_step_throws companyLocation seen prev t w Ht) as [e He].
    exists e. unfold bind. by rewrite He.
Qed.

(** X13. On input that is not well formed ([input_ok] is false) [statements]
    raises a TypeError and returns nothing, whatever the transactions before
    the malformed one are: [data.data] is no object, [data_transaksi] no
    array, a transaction no object with an array [data_bo], an owner record
    [null] or [undefined], or its copy not fit for [mapPersonStatement]. *)
Theorem statements_raises_on_malformed_input data w :
  input_ok data = false ->
  exists msg, statements data w = Throw (TypeError msg).
Proof.
  intros Hok.
  assert (Hthrow : exists e, statements data w = Throw e).
  { unfold input_ok in Hok. unfold statements.
    destruct data as [| | | | | |d]; try (by eexists).
    destruct (JS.get d "data") as [| | | | | |dd]; try (by eexists).
    destruct (JS.get dd "data_transaksi") as [| | | | |ts|]; try (by eexists).
    by apply flatMap_transactions_throws. }
  destruct Hthrow as [e He].
  destruct (statements_returns_or_raises_TypeError data w e He) as [msg ->]. eauto.
Qed.

End Failure.

(** *** The deriver functions *)

Lemma string_app_assoc (a b c : string) : (a +:+ b) +:+ c = a +:+ (b +:+ c).
Proof.
  induction a as [|x a IH]; [done|].
  change (String x ((a +:+ b) +:+ c) = String x (a +:+ (b +:+ c))). by rewrite IH.
Qed.

Lemma join_snoc sep l s :
  JS.join sep (l ++ [s]) =
  match l with
  | [] => s
  | _ => JS.join sep l +:+ sep +:+ s
  end.
Proof.
  induction l as [|a l IH]; [done|].
  change ((a :: l) ++ [s]) with (a :: (l ++ [s])).
  destruct l as [|b l]; [done|].
  change (JS.join sep (a :: (b :: l) ++ [s]))
    with (a +:+ sep +:+ JS.join sep ((b :: l) ++ [s])).
  rewrite IH. change (JS.join sep (a :: b :: l)) with (a +:+ sep +:+ JS.join sep (b :: l)).
  by rewrite !string_app_assoc.
Qed.

Lemma forallb_false {A} (f : A -> bool) l :
  forallb f l = false -> exists x, In x l /\ f x = false.
Proof.
  induction l as [|a l IH]; simpl; [done|].
  destruct (f a) eqn:Ha; simpl; [|by eauto]. intros (x & Hin & Hx)%IH. eauto.
Qed.

Section Derivers.

Context `{Libraries}.

Lemma element_strings_snoc l v ss :
  JS.element_strings (l ++ [v]) = Ok ss ->
  exists ss' s, JS.element_strings l = Ok ss' /\ JS.element_string v = Ok s
                /\ ss = ss' ++ [s] /\ length ss' = length l.
Proof.
  revert ss. induction l as [|e l IH]; intros ss; simpl.
  - destruct (JS.element_string v) as [s|]; [|done]. intros [= <-]. by exists [], s.
  - destruct (JS.element_string e) as [s0|]; [|done].
    destruct (JS.element_strings (l ++ [v])) as [ss0|]; [|done]. intros [= <-].
    destruct (IH ss0 eq_refl) as (ss' & s & -> & Hs & -> & Hlen).
    exists (s0 :: ss'), s. simpl. by rewrite Hlen.
Qed.

(** X14. An address in Indonesia is returned exactly when its truthy
    fields convert to strings; it has country [ID] and ends with
    [Indonesia], and what comes before is empty exactly when none of the
    seven address fields has a truthy value. *)
Theorem domestic_address_ends_with_Indonesia data country_code :
  ((exists a, mapAddress data false country_code = Ok a)
   <-> forallb printable (List.filter JS.truthy (domestic_fields data)) = true)
  /\ forall a, mapAddress data false country_code = Ok a ->
       address_country a = VStr "ID"
       /\ exists before,
            address_address a = VStr (before +:+ "Indonesia")
            /\ (before = EmptyString
                <-> existsb JS.truthy (domestic_fields data) = false).
Proof.
  split.
  { pose proof (mapAddress_total data false country_code) as Ht.
    unfold address_fields in Ht. destruct (forallb printable _).
    - by split.
    - destruct Ht as [msg Hmsg]. split; [|done]. intros [a Ha]. congruence. }
  intros a Ha. unfold mapAddress, join_present, JS.join_values in Ha.
  change [JS.read data "alamat"; JS.read data "rt"; JS.read data "rw";
          JS.read data "kelurahan"; JS.read data "kecamatan";
          JS.read data "kabupaten"; JS.read data "provinisi"; VStr "Indonesia"]
    with (domestic_fields data ++ [VStr "Indonesia"]) in Ha.
  rewrite filter_truthy_Indonesia in Ha.
  destruct (JS.element_strings _) as [ss|] eqn:Hss; [|done].
  simpl in Ha. injection Ha as <-. cbn [address_country address_address].
  split; [done|].
  apply element_strings_snoc in Hss as (ss' & s & _ & [= <-] & -> & Hlen).
  rewrite join_snoc.
  destruct ss' as [|s0 ss'].
  - exists EmptyString. split; [done|]. split; [|done]. intros _.
    apply not_true_iff_false. intros (v & Hv & Ht)%existsb_exists.
    assert (Hin : In v (List.filter JS.truthy (domestic_fields data)))
      by (by apply filter_In).
    destruct (List.filter JS.truthy (domestic_fields data)); [done|discriminate].
  - exists (JS.join ", " (s0 :: ss') +:+ ", ").
    split; [by rewrite string_app_assoc|]. split.
    + intros Hempty. exfalso. revert Hempty.
      generalize (JS.join ", " (s0 :: ss')). by intros [|c r].
    + intros Hnone. exfalso.
      destruct (List.filter JS.truthy (domestic_fields data)) as [|v vs] eqn:Hf;
        [discriminate|].
      assert (Hin : In v (List.filter JS.truthy (domestic_fields data)))
        by (rewrite Hf; by left).
      apply filter_In in Hin as [Hin Ht].
      assert (existsb JS.truthy (domestic_fields data) = true); [|congruence].
      apply existsb_exists. eauto.
Qed.

Lemma before_T_date d rest :
  no_T d = true -> JS.before_T (d +:+ String "T"%char rest) = d.
Proof.
  unfold no_T. induction d as [|c d IH]; simpl.
  - intros _. done.
  - intros [Hc Hd]%andb_true_iff. apply negb_true_iff in Hc. rewrite Hc.
    by rewrite IH.
Qed.

(** X15. [publicationDetails] reads the clock once and gives the date part
    of the timestamp: when the timestamp is [d], a [T] and the rest, with no
    [T] in [d], the [publicationDate] is [d]. *)
Theorem publicationDetails_reads_the_date w d rest :
  toISOString (date_calls w) = d +:+ String "T"%char rest ->
  no_T d = true ->
  exists w',
    publicationDetails w
    = Ok ({| publicationDate := d; bodsVersion := "0.2";
             publisher_name := "Indonesia Ministry for Law and Human Rights" |}, w')
    /\ date_calls w' = S (date_calls w)
    /\ statement_objects w' = statement_objects w.
Proof.
  intros Hnow Hd. unfold publicationDetails, new_Date_toISOString, bind, ret.
  rewrite Hnow, (before_T_date d rest Hd). by eexists.
Qed.

(** X16. [mapPersonStatement] raises exactly in these cases:
    [kewarganegaraan] is the string [WNA] and [negara] is not a string, so
    that there is no [trim] to call; or [jenis_identitas] does not convert
    to a string for the template literal; or a truthy field of the address
    does not convert to a string for [join]. A value does not convert when
    it is an object with an own [toString], or an array that holds such an
    object at some depth. The fields are read from [data] and, where it has
    none of its own, from its prototype. *)
Theorem mapPersonStatement_raises_iff data sourceData w :
  (exists e, mapPersonStatement data sourceData w = Throw e) <->
  (JS.strict_eq (JS.read data "kewarganegaraan") (VStr "WNA") = true
   /\ forall n, JS.read data "negara" <> VStr n)
  \/ printable (JS.read data "jenis_identitas") = false
  \/ exists v,
       In v (address_fields data
               (JS.strict_eq (JS.read data "kewarganegaraan") (VStr "WNA")))
       /\ JS.truthy v = true /\ printable v = false.
Proof.
  assert (Hok : person_ok data = false <->
    (JS.strict_eq (JS.read data "kewarganegaraan") (VStr "WNA") = true
     /\ forall n, JS.read data "negara" <> VStr n)
    \/ printable (JS.read data "jenis_identitas") = false
    \/ exists v,
         In v (address_fields data
                 (JS.strict_eq (JS.read data "kewarganegaraan") (VStr "WNA")))
         /\ JS.truthy v = true /\ printable v = false).
  { unfold person_ok. rewrite !andb_false_iff. split.
    - intros [[Hnegara|Hjenis]|Haddr].
      + left. destruct (JS.strict_eq _ _); [|done]. split; [done|].
        intros n Hn. by rewrite Hn in Hnegara.
      + right. by left.
      + right. right.
        apply forallb_false in Haddr as (v & Hin & Hv).
        apply filter_In in Hin as [Hin Ht]. by exists v.
    - intros [[Hwna Hneg]|[Hjenis|(v & Hin & Ht & Hv)]].
      + left. left. rewrite Hwna.
        destruct (JS.read data "negara") as [| | | |n| |]; try done. by destruct (Hneg n).
      + left. by right.
      + right. apply not_true_iff_false. intros Hall.
        rewrite forallb_forall in Hall.
        rewrite (Hall v) in Hv; [done|]. by apply filter_In. }
  rewrite <- Hok. split.
  - intros [e He]. destruct (person_ok data) eqn:Hp; [|done].
    destruct (mapPersonStatement_returns data sourceData w Hp) as (l & w' & Hret).
    congruence.
  - intros Hp. destruct (mapPersonStatement_raises data sourceData w Hp) as [msg Hmsg].
    by eexists.
Qed.

End Derivers.

(** *** Sample runs of the further properties *)

(** The prototype of a copy is read: a nationality that comes with
    [__proto__] sends [mapPersonStatement] to [negara.trim()], and a country
    that comes with it is found there. *)
Example inherited_nationality_raises :
  exists msg,
    statements (H := Reference.libraries) Example.inherits_nationality
      Reference.empty_world = Throw (TypeError msg).
Proof. vm_compute. by eexists. Qed.

Example inherited_country_returns :
  statements (H := Reference.libraries) Example.inherits_country Reference.empty_world
    = Ok ([0; 1; 2], Example.inherits_country_store)
  /\ (nationalities <$> (match st_shape (Example.statement_in
                                           Example.inherits_country_store 1) with
                         | Person f => Some f | _ => None end))
     = Some [(VStr " Japan ", VStr "JP")].
Proof. vm_compute. split; reflexivity. Qed.

Example unprintable_identity_raises :
  exists msg,
    statements (H := Reference.libraries) Example.unprintable_identity
      Reference.empty_world = Throw (TypeError msg).
Proof. vm_compute. by eexists. Qed.

(** Number::toString: plain digits up to 21 of them, the shortest digits
    that give the Number back, and the exponent from [10^21] on. *)
Example number_to_string_samples :
  List.map JS.number_to_string
    [0; -12; 9007199254740992; 1152921504606846976; 18446744073709551616;
     100000000000000000000; 1000000000000000000000; 1180591620717411303424;
     -1180591620717411303424]%Z
  = ["0"; "-12"; "9007199254740992"; "1152921504606847000"; "18446744073709552000";
     "100000000000000000000"; "1e+21"; "1.1805916207174113e+21";
     "-1.1805916207174113e+21"].
Proof. vm_compute. reflexivity. Qed.

(** A string is copied one property for each code unit: one for a letter
    with an accent, two for a character outside the basic plane. *)
Example code_units_of_a_string :
  List.map fst (JS.own (JS.assign JS.empty_object
                          (VStr ("a" +:+ Example.e_acute +:+ Example.grinning_face))))
  = ["0"; "1"; "2"; "3"]
  /\ Reference.json_stringify
       (VArr (List.map snd (JS.own (JS.assign JS.empty_object
                                      (VStr ("a" +:+ Example.grinning_face))))))
     = "[" +:+ Reference.quote "a" +:+ ","
       +:+ String Reference.quote_char
             (String Reference.backslash
                ("ud83d" +:+ String Reference.quote_char EmptyString))
       +:+ ","
       +:+ String Reference.quote_char
             (String Reference.backslash
                ("ude00" +:+ String Reference.quote_char EmptyString))
       +:+ "]".
Proof. vm_compute. split; reflexivity. Qed.

Lemma statements_returns_on_well_formed_input_witness :
  exists out w',
    statements (H := Reference.libraries) Example.owner_leaves Reference.empty_world
    = Ok (out, w').
Proof.
  apply (statements_returns_on_well_formed_input (H := Reference.libraries)
           Example.owner_leaves Reference.empty_world).
  - vm_compute. reflexivity.
  - vm_compute. reflexivity.
Defined.

Lemma statements_raises_on_malformed_input_witness :
  exists msg,
    statements (H := Reference.libraries) Example.null_owner Reference.empty_world
    = Throw (TypeError msg).
Proof.
  apply (statements_raises_on_malformed_input (H := Reference.libraries)
           Example.null_owner Reference.empty_world).
  vm_compute. reflexivity.
Defined.

Lemma references_point_backwards_witness :
  let tr := Example.owner_leaves_trace in
  let w' := Example.owner_leaves_store in
  let s := Example.statement_in w' 8 in
  (forall i, replaces i s = true -> emitted_earlier tr w' 7 i)
  /\ (forall o, st_shape s = Ownership o ->
        emitted_earlier tr w' 7 (subject o)
        /\ emitted_earlier tr w' 7 (interestedParty o)).
Proof.
  apply (references_point_backwards (H := Reference.libraries) Example.owner_leaves
           Reference.empty_world Example.owner_leaves_trace Example.owner_leaves_store
           7 8 (Example.statement_in Example.owner_leaves_store 8)).
  - vm_compute. reflexivity.
  - vm_compute. reflexivity.
  - vm_compute. reflexivity.
Defined.

Lemma entity_statements_replace_nothing_witness :
  st_replacesStatements (Example.statement_in Example.owner_leaves_store 0) = Some [].
Proof.
  apply (entity_statements_replace_nothing (H := Reference.libraries)
           Example.owner_leaves Reference.empty_world Example.owner_leaves_trace
           Example.owner_leaves_store 0
           (Example.statement_in Example.owner_leaves_store 0)).
  - vm_compute. reflexivity.
  - vm_compute. auto 10.
  - vm_compute. reflexivity.
  - reflexivity.
Defined.

Lemma statementIDs_unique_with_fresh_uuids_witness :
  NoDup (ids_at Example.owner_leaves_store (output Example.owner_leaves_trace)).
Proof.
  apply (statementIDs_unique_with_fresh_uuids (H := Reference.libraries)
           Example.owner_leaves Reference.empty_world Example.owner_leaves_trace
           Example.owner_leaves_store).
  - vm_compute. reflexivity.
  - simpl. intros j k Hj Hk _. lia.
  - simpl. intros k Hk. assert (k = 0) as -> by lia. vm_compute. reflexivity.
Defined.

Lemma closing_statement_only_when_ended_witness :
  let tr := Example.owner_leaves_trace in
  let w' := Example.owner_leaves_store in
  let r := Example.step_at tr 1 in
  let s := Example.statement_in w' 8 in
  0 < 1
  /\ exists ps p,
       In ps (prev_before [] tr 1)
       /\ statement_at w' ps = Some p
       /\ st_statementType p = OwnershipOrControlStatement
       /\ st_replacesStatements s = Some [st_statementID p]
       /\ ~ In (Some (st_statementID p)) (ids_at w' (step_transactionStatements r))
       /\ forall y c, In y (step_transactionStatements r) ->
                      statement_at w' y = Some c ->
                      replaces (st_statementID p) c = false.
Proof.
  apply (closing_statement_only_when_ended (H := Reference.libraries)
           Example.owner_leaves Reference.empty_world Example.owner_leaves_trace
           Example.owner_leaves_store 1 (Example.step_at Example.owner_leaves_trace 1) 8
           (Example.statement_in Example.owner_leaves_store 8)).
  - vm_compute. reflexivity.
  - vm_compute. reflexivity.
  - vm_compute. auto 10.
  - vm_compute. intros [Heq|[Heq|[Heq|[]]]]; discriminate Heq.
  - vm_compute. reflexivity.
Defined.

Lemma company_statement_once_per_name_witness :
  (st_statementType <$> statement_at Example.owner_leaves_store 5) = Some EntityStatement
  /\ ~ In 5 (output Example.owner_leaves_trace).
Proof.
  apply (company_statement_once_per_name (H := Reference.libraries)
           Example.owner_leaves Reference.empty_world Example.owner_leaves_trace
           Example.owner_leaves_store 0 1
           (Example.step_at Example.owner_leaves_trace 0)
           (Example.step_at Example.owner_leaves_trace 1)
           (Sample.transaction_fields "1" [Sample.siti; Sample.agus])
           (Sample.transaction_fields "2" [Sample.siti])).
  - vm_compute. reflexivity.
  - lia.
  - vm_compute. reflexivity.
  - vm_compute. reflexivity.
  - reflexivity.
  - reflexivity.
  - reflexivity.
  - vm_compute. reflexivity.
Defined.

Lemma identifier_match_decides_replacement_witness :
  let w' := Example.owner_leaves_store in
  let s := Example.statement_in w' 6 in
  let olds := List.map (Example.statement_in w') [0; 1; 2; 3; 4] in
  st_replacesStatements s
  = Some (List.map st_statementID
            (List.filter
               (fun old => statementType_eqb (st_statementType old) (st_statementType s)
                           && identifiers_match s old)
               olds)).
Proof.
  apply (identifier_match_decides_replacement (H := Reference.libraries)
           Example.owner_leaves Reference.empty_world Example.owner_leaves_trace
           Example.owner_leaves_store 1 (Example.step_at Example.owner_leaves_trace 1) 6
           (Example.statement_in Example.owner_leaves_store 6)
           (List.map (Example.statement_in Example.owner_leaves_store) [0; 1; 2; 3; 4])).
  - vm_compute. reflexivity.
  - vm_compute. reflexivity.
  - vm_compute. auto 10.
  - vm_compute. reflexivity.
  - vm_compute. discriminate.
  - vm_compute. repeat constructor.
Defined.

Lemma both_sides_decide_replacement_witness :
  let tr := Example.owner_leaves_trace in
  let w' := Example.owner_leaves_store in
  let r := Example.step_at tr 1 in
  let s := Example.statement_in w' 7 in
  let f := Example.ownership_in w' 7 in
  let olds := List.map (Example.statement_in w') [0; 1; 2; 3; 4] in
  exists yc c yp p,
    step_transactionStatements r !! 0 = Some yc
    /\ statement_at w' yc = Some c
    /\ st_statementType c = EntityStatement
    /\ st_statementID c = subject f
    /\ In yp (step_transactionStatements r)
    /\ statement_at w' yp = Some p
    /\ st_statementType p = PersonStatement
    /\ st_statementID p = interestedParty f
    /\ st_replacesStatements s
       = Some (List.map st_statementID (List.filter (both_sides_match p c olds) olds)).
Proof.
  apply (both_sides_decide_replacement (H := Reference.libraries)
           Example.owner_leaves Reference.empty_world Example.owner_leaves_trace
           Example.owner_leaves_store 1 (Example.step_at Example.owner_leaves_trace 1) 7
           (Example.statement_in Example.owner_leaves_store 7)
           (Example.ownership_in Example.owner_leaves_store 7)
           (List.map (Example.statement_in Example.owner_leaves_store) [0; 1; 2; 3; 4])).
  - vm_compute. reflexivity.
  - vm_compute. reflexivity.
  - vm_compute. auto 10.
  - vm_compute. auto 10.
  - vm_compute. reflexivity.
  - vm_compute. reflexivity.
  - vm_compute. repeat constructor.
Defined.

Lemma matchingIdentifiers_symmetric_witness :
  matchingIdentifiers Sample.new_person (Some Sample.old_person)
  = matchingIdentifiers Sample.old_person (Some Sample.new_person).
Proof.
  apply (matchingIdentifiers_symmetric Sample.new_person Sample.old_person).
  - eexists. reflexivity.
  - eexists. reflexivity.
Defined.

Lemma publicationDetails_reads_the_date_witness :
  exists w',
    publicationDetails (H := Reference.libraries) Reference.empty_world
    = Ok ({| publicationDate := "2021-03-09"; bodsVersion := "0.2";
             publisher_name := "Indonesia Ministry for Law and Human Rights" |}, w')
    /\ date_calls w' = S (date_calls Reference.empty_world)
    /\ statement_objects w' = statement_objects Reference.empty_world.
Proof.
  apply (publicationDetails_reads_the_date (H := Reference.libraries)
           Reference.empty_world "2021-03-09" "08:15:30.000Z").
  - reflexivity.
  - vm_compute. reflexivity.
Defined.
